(** * Widget production line: a model of the Go program and its properties

    The repository holds two versions of one program.  The current one
    (dated 01/14/2019) pre-loads a job channel with the slots [1..numWidgets],
    lets a pool of producers turn slots into widgets and a pool of consumers
    read them, and stops early when a consumer meets the broken widget.  The
    earlier one (dated 12/26/2018, [src/main.go]) lets a manager hand out one
    "broken or not" flag per widget and counts productions and consumptions.

    Both are embedded here as interleaving semantics: a state holds the
    channels, the wait groups and one program counter per goroutine, and a
    step function executes the next synchronisation-free piece of code of the
    goroutine a scheduler picks.  Go's [int] is modelled by [Z]; the only
    integer arithmetic of the program is the increment of loop counters that
    are bounded by a flag.  The platform is a 64-bit one.  [make] panics for
    the sizes the run-time system refuses; an allocation it accepts is taken
    to succeed. *)

From stdpp Require Import base list strings pretty.
From Stdlib Require Import ZArith Lia Ascii.

Local Open Scope Z_scope.

(** ** The pieces of the Go runtime the program uses *)

Module Go.

(** Run-time panics that the operations of the program can raise; the last
    stands for a panic inside [idMaker] ([rand.Intn] on a non-positive bound
    or an index outside [ASCII]). *)
Inductive Panic :=
| MakechanSizeOutOfRange
| CloseOfClosedChannel
| SendOnClosedChannel
| NegativeWaitGroupCounter
| IdentifierPanic.

(** A channel: the queued elements, the capacity given to [make] and the
    closed flag.  A capacity of zero is an unbuffered channel. *)
Record Chan (A : Type) := mkChan {
  buf : list A;
  cap : Z;
  closed : bool
}.
Arguments mkChan {A} _ _ _.
Arguments buf {A} _.
Arguments cap {A} _.
Arguments closed {A} _.

(** The limits of the allocator on a 64-bit platform: the bytes of address
    space it manages, and the bytes of the header of a channel. *)
Definition maxAlloc : Z := 281474976710656.
Definition hchanSize : Z := 96.

(** [make(chan A, size)], for elements of [elem_size] bytes
    ([runtime.makechan]): it panics with "makechan: size out of range" on
    a negative size and on a buffer of more than [maxAlloc - hchanSize]
    bytes. *)
Definition make_chan {A} (elem_size size : Z) : Panic + Chan A :=
  if (size <? 0) || (maxAlloc - hchanSize <? elem_size * size)
  then inl MakechanSizeOutOfRange
  else inr (mkChan [] size false).

Inductive SendResult (A : Type) :=
| SendOk (c : Chan A)
| SendBlocks
| SendPanics.
Arguments SendOk {A} _.
Arguments SendBlocks {A}.
Arguments SendPanics {A}.

(** [c <- x] when no receiver is waiting: the element is queued if there is
    room, the sender blocks if there is none, and a closed channel panics. *)
Definition send {A} (c : Chan A) (x : A) : SendResult A :=
  if closed c then SendPanics
  else if Z.of_nat (length (buf c)) <? cap c
       then SendOk (mkChan (buf c ++ [x]) (cap c) (closed c))
       else SendBlocks.

Inductive RecvResult (A : Type) :=
| RecvOk (x : A) (c : Chan A)
| RecvClosed
| RecvBlocks.
Arguments RecvOk {A} _ _.
Arguments RecvClosed {A}.
Arguments RecvBlocks {A}.

(** [<-c] when no sender is waiting: the oldest queued element, else the
    zero value of a closed channel, else the receiver blocks. *)
Definition recv {A} (c : Chan A) : RecvResult A :=
  match buf c with
  | x :: rest => RecvOk x (mkChan rest (cap c) (closed c))
  | [] => if closed c then RecvClosed else RecvBlocks
  end.

(** A receive that is a case of a [select] is ready when it does not block. *)
Definition ready {A} (c : Chan A) : bool :=
  match recv c with RecvBlocks => false | _ => true end.

(** [close(c)] panics on a closed channel. *)
Definition close {A} (c : Chan A) : option (Chan A) :=
  if closed c then None else Some (mkChan (buf c) (cap c) true).

(** [sync.WaitGroup]: a counter; [Done] is [Add(-1)] and a negative counter
    panics; [Wait] returns when the counter is zero.  The counter of the
    library has 32 bits; it is unbounded here, which is the same as long as
    it stays below [2^31]. *)
Definition wg_add (counter delta : Z) : option Z :=
  if counter + delta <? 0 then None else Some (counter + delta).
Definition wg_done (counter : Z) : option Z := wg_add counter (-1).
Definition wg_wait (counter : Z) : bool := counter =? 0.

(** The outside world a run reads from.  [math/rand] and the clock are
    libraries, not code of the program: the environment fixes what their
    calls return.  [intn_outcome env i] decides the result of call number
    [i] of [rand.Intn] in the run; how many values of its generator the
    library draws for one call, and which ones it discards, stays inside
    the library.  [clock env i] is the instant that call number [i] of
    [time.Now] returns, in nanoseconds after the zero value of
    [time.Time]; the wall clock and the monotonic clock are taken to
    advance together. *)
Record Env := mkEnv {
  intn_outcome : nat -> Z;
  clock : nat -> Z
}.

(** How many calls of [rand.Intn] and of [time.Now] the run has made. *)
Record World := mkWorld {
  intn_calls : nat;
  ticks : nat
}.

(** [rand.Intn(n)] panics when [n <= 0]; else it returns a number of
    [0, n), the one the environment has for this call, taken into that
    range. *)
Definition Intn (env : Env) (n : Z) (w : World) : option (Z * World) :=
  if n <=? 0 then None
  else Some (intn_outcome env (intn_calls w) mod n,
             mkWorld (S (intn_calls w)) (ticks w)).

(** [time.Now()]. *)
Definition Now (env : Env) (w : World) : Z * World :=
  (clock env (ticks w), mkWorld (intn_calls w) (S (ticks w))).

(** A [time.Duration] is a signed 64-bit count of nanoseconds. *)
Definition maxDuration : Z := 9223372036854775807.
Definition minDuration : Z := -9223372036854775808.

(** [t.Sub(u)]: the difference of two instants, which saturates at the
    ends of the range of a duration. *)
Definition Sub (t u : Z) : Z := Z.max minDuration (Z.min maxDuration (t - u)).

(** [time.Since(t)] is [time.Now().Sub(t)]. *)
Definition Since (env : Env) (t : Z) (w : World) : Z * World :=
  let '(now, w') := Now env w in (Sub now t, w').

(** A counted loop [for i := start; ...; i++] of [count] iterations over a
    body that may panic. *)
Fixpoint for_loop {S : Type} (count : nat) (i : Z)
    (body : Z -> S -> option S) (s : S) : option S :=
  match count with
  | O => Some s
  | Datatypes.S count' =>
      match body i s with
      | Some s' => for_loop count' (i + 1) body s'
      | None => None
      end
  end.

End Go.

(** ** What the two versions share: widgets and their identifiers *)

Definition ASCII : string := "abcdefghijklmnopqrstuvxyz0123456789".
Definition ID_LENGTH : Z := 32.

(** A widget; [time] is an instant as [Go.clock] gives it, the zero value
    of [time.Time] being [0]. *)
Record Widget := mkWidget {
  id : string;
  source : string;
  time : Z;
  broken : bool
}.

(** The bytes of a [Widget] (two strings, a [time.Time], a padded [bool]), of
    an [int] and of a [struct{}], as elements of a channel. *)
Definition sizeof_Widget : Z := 64.
Definition sizeof_int : Z := 8.
Definition sizeof_unit : Z := 0.

(** One iteration of the loop of [idMaker]: the separator at position
    [ID_LENGTH / 2], else the character of [ASCII] at a random index. *)
Definition idMaker_body (env : Go.Env) (i : Z) (st : string * Go.World)
    : option (string * Go.World) :=
  let '(buffer, w) := st in
  if i =? ID_LENGTH / 2 then Some (buffer +:+ "-", w)
  else
    match Go.Intn env (Z.of_nat (String.length ASCII)) w with
    | None => None
    | Some (r, w') =>
        match String.get (Z.to_nat r) ASCII with
        | Some c => Some (buffer +:+ String c EmptyString, w')
        | None => None
        end
    end.

Definition idMaker (env : Go.Env) (w : Go.World) : option (string * Go.World) :=
  Go.for_loop (Z.to_nat ID_LENGTH) 0 (idMaker_body env) (EmptyString, w).

(** The four flags of the command line, [-n], [-p], [-c] and [-k]. *)
Record Config := mkConfig {
  numWidgets : Z;
  numProducers : Z;
  numConsumers : Z;
  numKth : Z
}.

(** ** The slot-based version (01/14/2019) *)

Module SlotBased.
Import Go.

Record Producer := mkProducer { producer_name : string }.
Record Consumer := mkConsumer { consumer_name : string }.

(** [func (prod Producer) produce(broken bool) Widget] *)
Definition produce (env : Env) (prod : Producer) (broken : bool) (w : World)
    : option (Widget * World) :=
  match idMaker env w with
  | None => None
  | Some (ident, w1) =>
      let '(now, w2) := Now env w1 in
      Some (mkWidget ident (producer_name prod) now broken, w2)
  end.

(** A line on standard output, kept structured: who consumed what (and how
    long after its creation), who found the broken widget, and the notice of
    the main goroutine. *)
Inductive Line :=
| LConsumes (con : string) (wid : Widget) (since : Z)
| LFoundBroken (con : string) (wid : Widget)
| LExecutionStops.

(** [func (con Consumer) consume(wid Widget) bool] *)
Definition consume (env : Env) (con : Consumer) (wid : Widget) (w : World)
    : Line * bool * World :=
  if negb (broken wid) then
    let '(since, w') := Since env (time wid) w in
    (LConsumes (consumer_name con) wid since, broken wid, w')
  else
    (LFoundBroken (consumer_name con) wid, broken wid, w).

(** What a run leaves behind, newest first: the widgets created (with the
    worker and the job slot), the slots and widgets a worker walked away
    from when told to stop, the lines printed, and each close of the
    broken-widget channel. *)
Inductive Event :=
| Produced (p : nat) (slot : Z) (wid : Widget)
| Dropped (p : nat) (slot : Z)
| Discarded (c : nat) (wid : Widget)
| Printed (l : Line)
| Raised (c : nat).

(** Program counters.  Each names the next operation of its goroutine. *)
Inductive MainPC :=
| MCheck          (* if (numKth > 0) *)
| MRecvBroken     (* <-brokenWidgetChannel *)
| MPrintStop      (* fmt.Println("[execution stops]") *)
| MCloseQuit      (* close(quitChannel) *)
| MWait           (* wg.Wait() *)
| MReturned.

Inductive ProdLinePC :=
| PLStart         (* productionWaitGroup.Add(..); go func.. for each producer *)
| PLWait          (* productionWaitGroup.Wait() *)
| PLClose         (* deferred close(outWidgetChannel) *)
| PLDone          (* deferred wg.Done() *)
| PLReturned.

Inductive ConsLinePC :=
| CLStart         (* doneChannel := make(..); Add(..); go func.. for each consumer *)
| CLWait          (* consumptionWaitGroup.Wait() *)
| CLDone          (* deferred wg.Done() *)
| CLReturned.

Inductive ProducerPC :=
| PRange                          (* for i := range jobChannel *)
| PSelect (i : Z)                 (* select { default: .. case <-quitChannel: } *)
| PProduce (i : Z)                (* workingProducer.produce(numKth == i) *)
| PSend (i : Z) (wid : Widget)    (* outWidgetChannel <- widget *)
| PReturned.

Inductive ConsumerPC :=
| CRange                          (* for workingWidget := range inWidgetChannel *)
| CSelect (wid : Widget)          (* select { case <-doneChannel: .. default: } *)
| CConsume (wid : Widget)         (* workingConsumer.consume(workingWidget) *)
| CCloseBroken                    (* close(brokenWidgetChannel) *)
| CCloseDone                      (* close(doneChannel); return *)
| CReturned.

Record State := mkState {
  jobChannel : Chan Z;
  widgetChannel : Chan Widget;
  quitChannel : Chan unit;
  brokenWidgetChannel : Chan unit;
  doneChannel : Chan unit;
  wg : Z;
  productionWaitGroup : Z;
  consumptionWaitGroup : Z;
  mainPC : MainPC;
  prodLinePC : ProdLinePC;
  consLinePC : ConsLinePC;
  producers : list (Producer * ProducerPC);
  consumers : list (Consumer * ConsumerPC);
  world : World;
  trace : list Event;
  fault : option Panic
}.

Definition set_jobChannel (x : Chan Z) (s : State) : State :=
  mkState x (widgetChannel s) (quitChannel s) (brokenWidgetChannel s)
    (doneChannel s) (wg s) (productionWaitGroup s) (consumptionWaitGroup s)
    (mainPC s) (prodLinePC s) (consLinePC s) (producers s) (consumers s)
    (world s) (trace s) (fault s).
Definition set_widgetChannel (x : Chan Widget) (s : State) : State :=
  mkState (jobChannel s) x (quitChannel s) (brokenWidgetChannel s)
    (doneChannel s) (wg s) (productionWaitGroup s) (consumptionWaitGroup s)
    (mainPC s) (prodLinePC s) (consLinePC s) (producers s) (consumers s)
    (world s) (trace s) (fault s).
Definition set_quitChannel (x : Chan unit) (s : State) : State :=
  mkState (jobChannel s) (widgetChannel s) x (brokenWidgetChannel s)
    (doneChannel s) (wg s) (productionWaitGroup s) (consumptionWaitGroup s)
    (mainPC s) (prodLinePC s) (consLinePC s) (producers s) (consumers s)
    (world s) (trace s) (fault s).
Definition set_brokenWidgetChannel (x : Chan unit) (s : State) : State :=
  mkState (jobChannel s) (widgetChannel s) (quitChannel s) x (doneChannel s)
    (wg s) (productionWaitGroup s) (consumptionWaitGroup s) (mainPC s)
    (prodLinePC s) (consLinePC s) (producers s) (consumers s) (world s)
    (trace s) (fault s).
Definition set_doneChannel (x : Chan unit) (s : State) : State :=
  mkState (jobChannel s) (widgetChannel s) (quitChannel s)
    (brokenWidgetChannel s) x (wg s) (productionWaitGroup s)
    (consumptionWaitGroup s) (mainPC s) (prodLinePC s) (consLinePC s)
    (producers s) (consumers s) (world s) (trace s) (fault s).
Definition set_wg (x : Z) (s : State) : State :=
  mkState (jobChannel s) (widgetChannel s) (quitChannel s)
    (brokenWidgetChannel s) (doneChannel s) x (productionWaitGroup s)
    (consumptionWaitGroup s) (mainPC s) (prodLinePC s) (consLinePC s)
    (producers s) (consumers s) (world s) (trace s) (fault s).
Definition set_productionWaitGroup (x : Z) (s : State) : State :=
  mkState (jobChannel s) (widgetChannel s) (quitChannel s)
    (brokenWidgetChannel s) (doneChannel s) (wg s) x
    (consumptionWaitGroup s) (mainPC s) (prodLinePC s) (consLinePC s)
    (producers s) (consumers s) (world s) (trace s) (fault s).
Definition set_consumptionWaitGroup (x : Z) (s : State) : State :=
  mkState (jobChannel s) (widgetChannel s) (quitChannel s)
    (brokenWidgetChannel s) (doneChannel s) (wg s) (productionWaitGroup s) x
    (mainPC s) (prodLinePC s) (consLinePC s) (producers s) (consumers s)
    (world s) (trace s) (fault s).
Definition set_mainPC (x : MainPC) (s : State) : State :=
  mkState (jobChannel s) (widgetChannel s) (quitChannel s)
    (brokenWidgetChannel s) (doneChannel s) (wg s) (productionWaitGroup s)
    (consumptionWaitGroup s) x (prodLinePC s) (consLinePC s) (producers s)
    (consumers s) (world s) (trace s) (fault s).
Definition set_prodLinePC (x : ProdLinePC) (s : State) : State :=
  mkState (jobChannel s) (widgetChannel s) (quitChannel s)
    (brokenWidgetChannel s) (doneChannel s) (wg s) (productionWaitGroup s)
    (consumptionWaitGroup s) (mainPC s) x (consLinePC s) (producers s)
    (consumers s) (world s) (trace s) (fault s).
Definition set_consLinePC (x : ConsLinePC) (s : State) : State :=
  mkState (jobChannel s) (widgetChannel s) (quitChannel s)
    (brokenWidgetChannel s) (doneChannel s) (wg s) (productionWaitGroup s)
    (consumptionWaitGroup s) (mainPC s) (prodLinePC s) x (producers s)
    (consumers s) (world s) (trace s) (fault s).
Definition set_producers (x : list (Producer * ProducerPC)) (s : State) : State :=
  mkState (jobChannel s) (widgetChannel s) (quitChannel s)
    (brokenWidgetChannel s) (doneChannel s) (wg s) (productionWaitGroup s)
    (consumptionWaitGroup s) (mainPC s) (prodLinePC s) (consLinePC s) x
    (consumers s) (world s) (trace s) (fault s).
Definition set_consumers (x : list (Consumer * ConsumerPC)) (s : State) : State :=
  mkState (jobChannel s) (widgetChannel s) (quitChannel s)
    (brokenWidgetChannel s) (doneChannel s) (wg s) (productionWaitGroup s)
    (consumptionWaitGroup s) (mainPC s) (prodLinePC s) (consLinePC s)
    (producers s) x (world s) (trace s) (fault s).
Definition set_world (x : World) (s : State) : State :=
  mkState (jobChannel s) (widgetChannel s) (quitChannel s)
    (brokenWidgetChannel s) (doneChannel s) (wg s) (productionWaitGroup s)
    (consumptionWaitGroup s) (mainPC s) (prodLinePC s) (consLinePC s)
    (producers s) (consumers s) x (trace s) (fault s).
Definition set_trace (x : list Event) (s : State) : State :=
  mkState (jobChannel s) (widgetChannel s) (quitChannel s)
    (brokenWidgetChannel s) (doneChannel s) (wg s) (productionWaitGroup s)
    (consumptionWaitGroup s) (mainPC s) (prodLinePC s) (consLinePC s)
    (producers s) (consumers s) (world s) x (fault s).
Definition set_fault (x : option Panic) (s : State) : State :=
  mkState (jobChannel s) (widgetChannel s) (quitChannel s)
    (brokenWidgetChannel s) (doneChannel s) (wg s) (productionWaitGroup s)
    (consumptionWaitGroup s) (mainPC s) (prodLinePC s) (consLinePC s)
    (producers s) (consumers s) (world s) (trace s) x.

Definition emit (e : Event) (s : State) : State := set_trace (e :: trace s) s.
Definition panic (p : Panic) (s : State) : State := set_fault (Some p) s.

Definition set_producer (p : nat) (pc : ProducerPC) (s : State) : State :=
  match producers s !! p with
  | Some (prod, _) => set_producers (<[p := (prod, pc)]> (producers s)) s
  | None => s
  end.

Definition set_consumer (c : nat) (pc : ConsumerPC) (s : State) : State :=
  match consumers s !! c with
  | Some (con, _) => set_consumers (<[c := (con, pc)]> (consumers s)) s
  | None => s
  end.

(** The tables built at the start of [WidgetProductionConsumptionLine]:
    [for i := 0; i < numProducers; i++] appends ["producer_" + Itoa(i)]. *)
Definition make_producerTable (cfg : Config) : list Producer :=
  (fun i : Z => mkProducer ("producer_" +:+ pretty i)) <$> seqZ 0 (numProducers cfg).

Definition make_consumerTable (cfg : Config) : list Consumer :=
  (fun i : Z => mkConsumer ("consumer_" +:+ pretty i)) <$> seqZ 0 (numConsumers cfg).

(** How the sequential start of the program can end. *)
Inductive Start :=
| Started (s : State)
| Panicked (p : Panic)
| Deadlocked.

(** [for i := 1; i <= numWidgets; i++ { jobChannel <- i }], run while the
    main goroutine is the only one: a send that blocks never resumes. *)
Fixpoint fill_jobs (slots : list Z) (c : Chan Z) : SendResult Z :=
  match slots with
  | [] => SendOk c
  | i :: rest =>
      match send c i with
      | SendOk c' => fill_jobs rest c'
      | r => r
      end
  end.

(** [WidgetProductionConsumptionLine] up to and including the two [go]
    statements. *)
Definition WidgetProductionConsumptionLine_init (cfg : Config) : Start :=
  match make_chan sizeof_int (numWidgets cfg) with
  | inl p => Panicked p
  | inr jobs =>
    match make_chan sizeof_Widget (numWidgets cfg) with
    | inl p => Panicked p
    | inr widgets =>
      match make_chan sizeof_unit 0, make_chan sizeof_unit 0 with
      | inr quit, inr brokenCh =>
        match fill_jobs (seqZ 1 (numWidgets cfg)) jobs with
        | SendPanics => Panicked SendOnClosedChannel
        | SendBlocks => Deadlocked
        | SendOk jobs' =>
          match close jobs', wg_add 0 2 with
          | Some jobs'', Some n =>
              Started (mkState jobs'' widgets quit brokenCh (mkChan [] 0 false)
                         n 0 0 MCheck PLStart CLStart [] []
                         (mkWorld 0 0) [] None)
          | None, _ => Panicked CloseOfClosedChannel
          | _, None => Panicked NegativeWaitGroupCounter
          end
        end
      | inl p, _ | _, inl p => Panicked p
      end
    end
  end.

Section Step.
Variable env : Env.
Variable cfg : Config.

(** The rest of [WidgetProductionConsumptionLine]. *)
Definition main_step (s : State) : option State :=
  match mainPC s with
  | MCheck =>
      Some (set_mainPC (if numKth cfg >? 0 then MRecvBroken else MWait) s)
  | MRecvBroken =>
      match recv (brokenWidgetChannel s) with
      | RecvOk _ c => Some (set_mainPC MPrintStop (set_brokenWidgetChannel c s))
      | RecvClosed => Some (set_mainPC MPrintStop s)
      | RecvBlocks => None
      end
  | MPrintStop => Some (set_mainPC MCloseQuit (emit (Printed LExecutionStops) s))
  | MCloseQuit =>
      match close (quitChannel s) with
      | Some c => Some (set_mainPC MWait (set_quitChannel c s))
      | None => Some (panic CloseOfClosedChannel s)
      end
  | MWait => if wg_wait (wg s) then Some (set_mainPC MReturned s) else None
  | MReturned => None
  end.

(** [productionLine] itself: start the workers, wait for them, then the
    deferred calls in reverse order. *)
Definition productionLine_step (s : State) : option State :=
  match prodLinePC s with
  | PLStart =>
      let table := make_producerTable cfg in
      match wg_add (productionWaitGroup s) (Z.of_nat (length table)) with
      | Some n =>
          Some (set_prodLinePC PLWait
                 (set_producers ((fun prod => (prod, PRange)) <$> table)
                   (set_productionWaitGroup n s)))
      | None => Some (panic NegativeWaitGroupCounter s)
      end
  | PLWait =>
      if wg_wait (productionWaitGroup s) then Some (set_prodLinePC PLClose s)
      else None
  | PLClose =>
      match close (widgetChannel s) with
      | Some c => Some (set_prodLinePC PLDone (set_widgetChannel c s))
      | None => Some (panic CloseOfClosedChannel s)
      end
  | PLDone =>
      match wg_done (wg s) with
      | Some n => Some (set_prodLinePC PLReturned (set_wg n s))
      | None => Some (panic NegativeWaitGroupCounter s)
      end
  | PLReturned => None
  end.

(** A producer goroutine returns: [defer productionWaitGroup.Done()]. *)
Definition producer_return (p : nat) (s : State) : option State :=
  match wg_done (productionWaitGroup s) with
  | Some n => Some (set_producer p PReturned (set_productionWaitGroup n s))
  | None => Some (panic NegativeWaitGroupCounter s)
  end.

(** The goroutine started for each producer in [productionLine]. *)
Definition producer_step (p : nat) (s : State) : option State :=
  match producers s !! p with
  | None => None
  | Some (workingProducer, pc) =>
      match pc with
      | PRange =>
          match recv (jobChannel s) with
          | RecvOk i c => Some (set_producer p (PSelect i) (set_jobChannel c s))
          | RecvClosed => producer_return p s
          | RecvBlocks => None
          end
      | PSelect i =>
          if ready (quitChannel s) then producer_return p (emit (Dropped p i) s)
          else Some (set_producer p (PProduce i) s)
      | PProduce i =>
          let made :=
            if numKth cfg =? i then produce env workingProducer true (world s)
            else produce env workingProducer false (world s) in
          match made with
          | Some (wid, world') =>
              Some (set_producer p (PSend i wid)
                     (set_world world' (emit (Produced p i wid) s)))
          | None => Some (panic IdentifierPanic s)
          end
      | PSend i wid =>
          match send (widgetChannel s) wid with
          | SendOk c => Some (set_producer p PRange (set_widgetChannel c s))
          | SendBlocks => None
          | SendPanics => Some (panic SendOnClosedChannel s)
          end
      | PReturned => None
      end
  end.

(** [consumptionLine] itself. *)
Definition consumptionLine_step (s : State) : option State :=
  match consLinePC s with
  | CLStart =>
      let table := make_consumerTable cfg in
      match wg_add (consumptionWaitGroup s) (Z.of_nat (length table)) with
      | Some n =>
          Some (set_consLinePC CLWait
                 (set_consumers ((fun con => (con, CRange)) <$> table)
                   (set_doneChannel (mkChan [] 0 false)
                     (set_consumptionWaitGroup n s))))
      | None => Some (panic NegativeWaitGroupCounter s)
      end
  | CLWait =>
      if wg_wait (consumptionWaitGroup s) then Some (set_consLinePC CLDone s)
      else None
  | CLDone =>
      match wg_done (wg s) with
      | Some n => Some (set_consLinePC CLReturned (set_wg n s))
      | None => Some (panic NegativeWaitGroupCounter s)
      end
  | CLReturned => None
  end.

(** A consumer goroutine returns: [defer consumptionWaitGroup.Done()]. *)
Definition consumer_return (c : nat) (s : State) : option State :=
  match wg_done (consumptionWaitGroup s) with
  | Some n => Some (set_consumer c CReturned (set_consumptionWaitGroup n s))
  | None => Some (panic NegativeWaitGroupCounter s)
  end.

(** The goroutine started for each consumer in [consumptionLine]. *)
Definition consumer_step (c : nat) (s : State) : option State :=
  match consumers s !! c with
  | None => None
  | Some (workingConsumer, pc) =>
      match pc with
      | CRange =>
          match recv (widgetChannel s) with
          | RecvOk wid ch => Some (set_consumer c (CSelect wid) (set_widgetChannel ch s))
          | RecvClosed => consumer_return c s
          | RecvBlocks => None
          end
      | CSelect wid =>
          if ready (doneChannel s) then consumer_return c (emit (Discarded c wid) s)
          else Some (set_consumer c (CConsume wid) s)
      | CConsume wid =>
          let '(line, found, world') := consume env workingConsumer wid (world s) in
          Some (set_consumer c (if found then CCloseBroken else CRange)
                 (set_world world' (emit (Printed line) s)))
      | CCloseBroken =>
          match close (brokenWidgetChannel s) with
          | Some ch =>
              Some (set_consumer c CCloseDone
                     (set_brokenWidgetChannel ch (emit (Raised c) s)))
          | None => Some (panic CloseOfClosedChannel s)
          end
      | CCloseDone =>
          match close (doneChannel s) with
          | Some ch => consumer_return c (set_doneChannel ch s)
          | None => Some (panic CloseOfClosedChannel s)
          end
      | CReturned => None
      end
  end.

(** A send that finds a receiver already waiting on the empty channel
    passes its element directly; on an unbuffered channel this is the only
    way a send completes. *)
Definition handoff_step (p c : nat) (s : State) : option State :=
  match producers s !! p, consumers s !! c with
  | Some (_, PSend i wid), Some (_, CRange) =>
      match buf (widgetChannel s), closed (widgetChannel s) with
      | [], false => Some (set_consumer c (CSelect wid) (set_producer p PRange s))
      | _, _ => None
      end
  | _, _ => None
  end.

(** What the scheduler can pick. *)
Inductive Action :=
| RunMain
| RunProductionLine
| RunConsumptionLine
| RunProducer (p : nat)
| RunConsumer (c : nat)
| Handoff (p c : nat).

(** The process is over once a goroutine has panicked or [main] has
    returned. *)
Definition over (s : State) : bool :=
  match fault s, mainPC s with
  | Some _, _ => true
  | None, MReturned => true
  | None, _ => false
  end.

Definition exec (s : State) (a : Action) : option State :=
  if over s then None
  else match a with
       | RunMain => main_step s
       | RunProductionLine => productionLine_step s
       | RunConsumptionLine => consumptionLine_step s
       | RunProducer p => producer_step p s
       | RunConsumer c => consumer_step c s
       | Handoff p c => handoff_step p c s
       end.

(** A run under a schedule; [None] when the schedule picks an action that
    cannot execute. *)
Fixpoint run (s : State) (schedule : list Action) : option State :=
  match schedule with
  | [] => Some s
  | a :: rest =>
      match exec s a with
      | Some s' => run s' rest
      | None => None
      end
  end.

End Step.

End SlotBased.

(** ** The counter-based version (12/26/2018, [src/main.go]) *)

Module CounterBased.
Import Go.

Abbreviation widget := Widget.

Record producer := mkproducer { name : string; producer_numWidgets : Z }.
Record consumer := mkconsumer { consumer_name : string }.

(** [func produce(prod producer, broken bool) widget] *)
Definition produce (env : Env) (prod : producer) (broken : bool) (w : World)
    : option (widget * World) :=
  match idMaker env w with
  | None => None
  | Some (ident, w1) =>
      let '(now, w2) := Now env w1 in
      Some (mkWidget ident (name prod) now broken, w2)
  end.

(** [consume] writes its line with four calls of [fmt.Printf]; each call is
    one fragment of the output. *)
Inductive Fragment :=
| FName (con : string)
| FConsumes
| FFoundBroken
| FWidget (wid : widget)
| FTail (broken : bool) (since : option Z)
| FExecutionStops.

Inductive InitPC :=
| IGAdd           (* wg.Add(1) *)
| IGSend          (* brokenWidgetChannel <- (numKth == 0) *)
| IGDone          (* wg.Done() *)
| IGReturned.

Inductive ManagerPC :=
| MgrRecvProd     (* productionCounter += <-productionCounterChannel *)
| MgrRecvCons     (* consumptionCounter += <-consumptionCounterChannel *)
| MgrCheck        (* if brokenWidgetConsumed || (.. == numWidgets && ..) *)
| MgrQuit (i : Z) (* for i := 0; i < len(..)+len(..); i++ { quitChannel <- true } *)
| MgrPrint        (* fmt.Println("[execution stops]") *)
| MgrCloseProd    (* close(productionCounterChannel) *)
| MgrCloseCons    (* close(consumptionCounterChannel) *)
| MgrCloseBroken  (* close(brokenWidgetChannel) *)
| MgrCloseWidget  (* close(widgetChannel); break; return *)
| MgrSendFlag     (* brokenWidgetChannel <- (productionCounter == numKth) *)
| MgrWgWait       (* wg.Wait() in main *)
| MgrReturned.

Inductive ProducerPC :=
| PSelect                         (* select { quit / broken flag / default } *)
| PProduce (broken : bool)        (* produce(..); widgetTable = append(..) *)
| PSendCount (wid : widget)       (* productionCounterChannel <- 1 *)
| PSendWidget (wid : widget)      (* widgetChannel <- workingWidget *)
| PReturned.

Inductive ConsumerPC :=
| CSelect                         (* select { quit / widget / default } *)
| CPrintName (wid : widget)       (* fmt.Printf("%s ", con.name) *)
| CPrintVerb (wid : widget)       (* "consumes" or "found a broken widget " *)
| CPrintWidget (wid : widget)     (* "[id=%s source=%s time=%s " *)
| CPrintTail (wid : widget)       (* "broken=%t] .."; brokenWidgetConsumed = true *)
| CSendCount                      (* consumptionCounterChannel <- 1 *)
| CReturned.

Record State := mkState {
  brokenWidgetConsumed : bool;
  brokenWidgetChannel : Chan bool;
  productionCounterChannel : Chan Z;
  consumptionCounterChannel : Chan Z;
  quitChannel : Chan bool;
  widgetChannel : Chan widget;
  wg : Z;
  productionCounter : Z;
  consumptionCounter : Z;
  widgetTable : list widget;
  managerPC : ManagerPC;
  initPC : InitPC;
  producers : list (producer * ProducerPC);
  consumers : list (consumer * ConsumerPC);
  world : World;
  stdout : list Fragment;
  fault : option Panic
}.

Definition set_brokenWidgetConsumed (x : bool) (s : State) : State :=
  mkState x (brokenWidgetChannel s) (productionCounterChannel s)
    (consumptionCounterChannel s) (quitChannel s) (widgetChannel s) (wg s)
    (productionCounter s) (consumptionCounter s) (widgetTable s)
    (managerPC s) (initPC s) (producers s) (consumers s) (world s)
    (stdout s) (fault s).
Definition set_brokenWidgetChannel (x : Chan bool) (s : State) : State :=
  mkState (brokenWidgetConsumed s) x (productionCounterChannel s)
    (consumptionCounterChannel s) (quitChannel s) (widgetChannel s) (wg s)
    (productionCounter s) (consumptionCounter s) (widgetTable s)
    (managerPC s) (initPC s) (producers s) (consumers s) (world s)
    (stdout s) (fault s).
Definition set_productionCounterChannel (x : Chan Z) (s : State) : State :=
  mkState (brokenWidgetConsumed s) (brokenWidgetChannel s) x
    (consumptionCounterChannel s) (quitChannel s) (widgetChannel s) (wg s)
    (productionCounter s) (consumptionCounter s) (widgetTable s)
    (managerPC s) (initPC s) (producers s) (consumers s) (world s)
    (stdout s) (fault s).
Definition set_consumptionCounterChannel (x : Chan Z) (s : State) : State :=
  mkState (brokenWidgetConsumed s) (brokenWidgetChannel s)
    (productionCounterChannel s) x (quitChannel s) (widgetChannel s) (wg s)
    (productionCounter s) (consumptionCounter s) (widgetTable s)
    (managerPC s) (initPC s) (producers s) (consumers s) (world s)
    (stdout s) (fault s).
Definition set_quitChannel (x : Chan bool) (s : State) : State :=
  mkState (brokenWidgetConsumed s) (brokenWidgetChannel s)
    (productionCounterChannel s) (consumptionCounterChannel s) x
    (widgetChannel s) (wg s) (productionCounter s) (consumptionCounter s)
    (widgetTable s) (managerPC s) (initPC s) (producers s) (consumers s)
    (world s) (stdout s) (fault s).
Definition set_widgetChannel (x : Chan widget) (s : State) : State :=
  mkState (brokenWidgetConsumed s) (brokenWidgetChannel s)
    (productionCounterChannel s) (consumptionCounterChannel s)
    (quitChannel s) x (wg s) (productionCounter s) (consumptionCounter s)
    (widgetTable s) (managerPC s) (initPC s) (producers s) (consumers s)
    (world s) (stdout s) (fault s).
Definition set_wg (x : Z) (s : State) : State :=
  mkState (brokenWidgetConsumed s) (brokenWidgetChannel s)
    (productionCounterChannel s) (consumptionCounterChannel s)
    (quitChannel s) (widgetChannel s) x (productionCounter s)
    (consumptionCounter s) (widgetTable s) (managerPC s) (initPC s)
    (producers s) (consumers s) (world s) (stdout s) (fault s).
Definition set_productionCounter (x : Z) (s : State) : State :=
  mkState (brokenWidgetConsumed s) (brokenWidgetChannel s)
    (productionCounterChannel s) (consumptionCounterChannel s)
    (quitChannel s) (widgetChannel s) (wg s) x (consumptionCounter s)
    (widgetTable s) (managerPC s) (initPC s) (producers s) (consumers s)
    (world s) (stdout s) (fault s).
Definition set_consumptionCounter (x : Z) (s : State) : State :=
  mkState (brokenWidgetConsumed s) (brokenWidgetChannel s)
    (productionCounterChannel s) (consumptionCounterChannel s)
    (quitChannel s) (widgetChannel s) (wg s) (productionCounter s) x
    (widgetTable s) (managerPC s) (initPC s) (producers s) (consumers s)
    (world s) (stdout s) (fault s).
Definition set_widgetTable (x : list widget) (s : State) : State :=
  mkState (brokenWidgetConsumed s) (brokenWidgetChannel s)
    (productionCounterChannel s) (consumptionCounterChannel s)
    (quitChannel s) (widgetChannel s) (wg s) (productionCounter s)
    (consumptionCounter s) x (managerPC s) (initPC s) (producers s)
    (consumers s) (world s) (stdout s) (fault s).
Definition set_managerPC (x : ManagerPC) (s : State) : State :=
  mkState (brokenWidgetConsumed s) (brokenWidgetChannel s)
    (productionCounterChannel s) (consumptionCounterChannel s)
    (quitChannel s) (widgetChannel s) (wg s) (productionCounter s)
    (consumptionCounter s) (widgetTable s) x (initPC s) (producers s)
    (consumers s) (world s) (stdout s) (fault s).
Definition set_initPC (x : InitPC) (s : State) : State :=
  mkState (brokenWidgetConsumed s) (brokenWidgetChannel s)
    (productionCounterChannel s) (consumptionCounterChannel s)
    (quitChannel s) (widgetChannel s) (wg s) (productionCounter s)
    (consumptionCounter s) (widgetTable s) (managerPC s) x (producers s)
    (consumers s) (world s) (stdout s) (fault s).
Definition set_producers (x : list (producer * ProducerPC)) (s : State) : State :=
  mkState (brokenWidgetConsumed s) (brokenWidgetChannel s)
    (productionCounterChannel s) (consumptionCounterChannel s)
    (quitChannel s) (widgetChannel s) (wg s) (productionCounter s)
    (consumptionCounter s) (widgetTable s) (managerPC s) (initPC s) x
    (consumers s) (world s) (stdout s) (fault s).
Definition set_consumers (x : list (consumer * ConsumerPC)) (s : State) : State :=
  mkState (brokenWidgetConsumed s) (brokenWidgetChannel s)
    (productionCounterChannel s) (consumptionCounterChannel s)
    (quitChannel s) (widgetChannel s) (wg s) (productionCounter s)
    (consumptionCounter s) (widgetTable s) (managerPC s) (initPC s)
    (producers s) x (world s) (stdout s) (fault s).
Definition set_world (x : World) (s : State) : State :=
  mkState (brokenWidgetConsumed s) (brokenWidgetChannel s)
    (productionCounterChannel s) (consumptionCounterChannel s)
    (quitChannel s) (widgetChannel s) (wg s) (productionCounter s)
    (consumptionCounter s) (widgetTable s) (managerPC s) (initPC s)
    (producers s) (consumers s) x (stdout s) (fault s).
Definition set_stdout (x : list Fragment) (s : State) : State :=
  mkState (brokenWidgetConsumed s) (brokenWidgetChannel s)
    (productionCounterChannel s) (consumptionCounterChannel s)
    (quitChannel s) (widgetChannel s) (wg s) (productionCounter s)
    (consumptionCounter s) (widgetTable s) (managerPC s) (initPC s)
    (producers s) (consumers s) (world s) x (fault s).
Definition set_fault (x : option Panic) (s : State) : State :=
  mkState (brokenWidgetConsumed s) (brokenWidgetChannel s)
    (productionCounterChannel s) (consumptionCounterChannel s)
    (quitChannel s) (widgetChannel s) (wg s) (productionCounter s)
    (consumptionCounter s) (widgetTable s) (managerPC s) (initPC s)
    (producers s) (consumers s) (world s) (stdout s) x.

Definition print (f : Fragment) (s : State) : State := set_stdout (stdout s ++ [f]) s.
Definition panic (p : Panic) (s : State) : State := set_fault (Some p) s.

Definition set_producer (j : nat) (pc : ProducerPC) (s : State) : State :=
  match producers s !! j with
  | Some (prod, _) => set_producers (<[j := (prod, pc)]> (producers s)) s
  | None => s
  end.

Definition set_consumer (k : nat) (pc : ConsumerPC) (s : State) : State :=
  match consumers s !! k with
  | Some (con, _) => set_consumers (<[k := (con, pc)]> (consumers s)) s
  | None => s
  end.

Definition make_producerTable (numProducers : Z) : list producer :=
  (fun i : Z => mkproducer ("producer_" +:+ pretty i) 0) <$> seqZ 0 numProducers.

Definition make_consumerTable (numConsumers : Z) : list consumer :=
  (fun i : Z => mkconsumer ("consumer_" +:+ pretty i)) <$> seqZ 0 numConsumers.

(** The arguments [main] passes on: [widgetProductionLine(.., *numKth - 1)]. *)
Definition main_args (flags : Config) : Config :=
  mkConfig (numWidgets flags) (numProducers flags) (numConsumers flags)
           (numKth flags - 1).

(** [widgetProductionLine] once every goroutine is started and the manager
    stands at the head of its loop.  The channels are unbuffered except the
    quit channel, which has room for one token per worker; [wg] has counted
    the workers. *)
Definition widgetProductionLine_init (args : Config) : State :=
  let producerTable := make_producerTable (numProducers args) in
  let consumerTable := make_consumerTable (numConsumers args) in
  let workers := Z.of_nat (length producerTable) + Z.of_nat (length consumerTable) in
  mkState false (mkChan [] 0 false) (mkChan [] 0 false) (mkChan [] 0 false)
          (mkChan [] workers false) (mkChan [] 0 false)
          workers 0 0 []
          MgrRecvProd IGAdd
          ((fun prod => (prod, PSelect)) <$> producerTable)
          ((fun con => (con, CSelect)) <$> consumerTable)
          (mkWorld 0 0) [] None.

Section Step.
Variable env : Env.
Variable args : Config.   (* the arguments of [widgetProductionLine] *)

(** The goroutine that offers the first flag. *)
Definition init_step (s : State) : option State :=
  match initPC s with
  | IGAdd =>
      match wg_add (wg s) 1 with
      | Some n => Some (set_initPC IGSend (set_wg n s))
      | None => Some (panic NegativeWaitGroupCounter s)
      end
  | IGSend =>
      match send (brokenWidgetChannel s) (numKth args =? 0) with
      | SendPanics => Some (panic SendOnClosedChannel s)
      | SendOk c => Some (set_initPC IGDone (set_brokenWidgetChannel c s))
      | SendBlocks => None
      end
  | IGDone =>
      match wg_done (wg s) with
      | Some n => Some (set_initPC IGReturned (set_wg n s))
      | None => Some (panic NegativeWaitGroupCounter s)
      end
  | IGReturned => None
  end.

(** The production manager, then the end of [main]. *)
Definition manager_step (s : State) : option State :=
  match managerPC s with
  | MgrRecvProd =>
      match recv (productionCounterChannel s) with
      | RecvOk v c =>
          Some (set_managerPC MgrRecvCons
                 (set_productionCounter (productionCounter s + v)
                   (set_productionCounterChannel c s)))
      | RecvClosed => Some (set_managerPC MgrRecvCons s)
      | RecvBlocks => None
      end
  | MgrRecvCons =>
      match recv (consumptionCounterChannel s) with
      | RecvOk v c =>
          Some (set_managerPC MgrCheck
                 (set_consumptionCounter (consumptionCounter s + v)
                   (set_consumptionCounterChannel c s)))
      | RecvClosed => Some (set_managerPC MgrCheck s)
      | RecvBlocks => None
      end
  | MgrCheck =>
      if brokenWidgetConsumed s
         || ((productionCounter s =? numWidgets args)
             && (consumptionCounter s =? numWidgets args))
      then Some (set_managerPC (MgrQuit 0) s)
      else Some (set_managerPC MgrSendFlag s)
  | MgrQuit i =>
      if i <? Z.of_nat (length (producers s)) + Z.of_nat (length (consumers s))
      then match send (quitChannel s) true with
           | SendOk c => Some (set_managerPC (MgrQuit (i + 1)) (set_quitChannel c s))
           | SendBlocks => None
           | SendPanics => Some (panic SendOnClosedChannel s)
           end
      else Some (set_managerPC MgrPrint s)
  | MgrPrint => Some (set_managerPC MgrCloseProd (print FExecutionStops s))
  | MgrCloseProd =>
      match close (productionCounterChannel s) with
      | Some c => Some (set_managerPC MgrCloseCons (set_productionCounterChannel c s))
      | None => Some (panic CloseOfClosedChannel s)
      end
  | MgrCloseCons =>
      match close (consumptionCounterChannel s) with
      | Some c => Some (set_managerPC MgrCloseBroken (set_consumptionCounterChannel c s))
      | None => Some (panic CloseOfClosedChannel s)
      end
  | MgrCloseBroken =>
      match close (brokenWidgetChannel s) with
      | Some c => Some (set_managerPC MgrCloseWidget (set_brokenWidgetChannel c s))
      | None => Some (panic CloseOfClosedChannel s)
      end
  | MgrCloseWidget =>
      match close (widgetChannel s) with
      | Some c => Some (set_managerPC MgrWgWait (set_widgetChannel c s))
      | None => Some (panic CloseOfClosedChannel s)
      end
  | MgrSendFlag =>
      match send (brokenWidgetChannel s) (productionCounter s =? numKth args) with
      | SendPanics => Some (panic SendOnClosedChannel s)
      | SendOk c => Some (set_managerPC MgrRecvProd (set_brokenWidgetChannel c s))
      | SendBlocks => None
      end
  | MgrWgWait => if wg_wait (wg s) then Some (set_managerPC MgrReturned s) else None
  | MgrReturned => None
  end.

(** Which cases of a worker's [select] can proceed. *)
Definition flag_offered (s : State) : bool :=
  match initPC s, managerPC s with
  | IGSend, _ | _, MgrSendFlag => true
  | _, _ => false
  end.

Definition flag_ready (s : State) : bool :=
  closed (brokenWidgetChannel s) || flag_offered s.

Definition is_PSendWidget (x : producer * ProducerPC) : bool :=
  match x.2 with PSendWidget _ => true | _ => false end.

Definition widget_ready (s : State) : bool :=
  closed (widgetChannel s) || existsb is_PSendWidget (producers s).

Definition worker_return (s : State) : State :=
  match wg_done (wg s) with
  | Some n => set_wg n s
  | None => panic NegativeWaitGroupCounter s
  end.

(** The steps of producer [j] that involve no other goroutine: the
    [default] case of its [select] (when no other case can proceed), the
    production itself, and the panic of a send on a closed channel. *)
Definition producer_step (j : nat) (s : State) : option State :=
  match producers s !! j with
  | None => None
  | Some (prod, pc) =>
      match pc with
      | PSelect =>
          if ready (quitChannel s) || flag_ready s then None else Some s
      | PProduce b =>
          match produce env prod b (world s) with
          | Some (workingWidget, world') =>
              Some (set_producer j (PSendCount workingWidget)
                     (set_widgetTable (widgetTable s ++ [workingWidget])
                       (set_world world' s)))
          | None => Some (panic IdentifierPanic s)
          end
      | PSendCount wid =>
          match send (productionCounterChannel s) 1 with
          | SendPanics => Some (panic SendOnClosedChannel s)
          | SendOk c =>
              Some (set_producer j (PSendWidget wid) (set_productionCounterChannel c s))
          | SendBlocks => None
          end
      | PSendWidget wid =>
          match send (widgetChannel s) wid with
          | SendPanics => Some (panic SendOnClosedChannel s)
          | SendOk c => Some (set_producer j PSelect (set_widgetChannel c s))
          | SendBlocks => None
          end
      | PReturned => None
      end
  end.

(** [case <-quitChannel: wg.Done(); return] of producer [j]. *)
Definition producer_quits (j : nat) (s : State) : option State :=
  match producers s !! j with
  | Some (_, PSelect) =>
      match recv (quitChannel s) with
      | RecvOk _ c => Some (worker_return (set_producer j PReturned (set_quitChannel c s)))
      | RecvClosed => Some (worker_return (set_producer j PReturned s))
      | RecvBlocks => None
      end
  | _ => None
  end.

(** [case broken := <-brokenWidgetChannel] of producer [j], meeting the
    send of the first goroutine, ... *)
Definition flag_from_init (j : nat) (s : State) : option State :=
  match producers s !! j, initPC s, closed (brokenWidgetChannel s) with
  | Some (_, PSelect), IGSend, false =>
      Some (set_producer j (PProduce (numKth args =? 0)) (set_initPC IGDone s))
  | _, _, _ => None
  end.

(** ... meeting the send of the manager, ... *)
Definition flag_from_manager (j : nat) (s : State) : option State :=
  match producers s !! j, managerPC s, closed (brokenWidgetChannel s) with
  | Some (_, PSelect), MgrSendFlag, false =>
      Some (set_producer j (PProduce (productionCounter s =? numKth args))
             (set_managerPC MgrRecvProd s))
  | _, _, _ => None
  end.

(** ... or reading the zero value of the closed channel. *)
Definition flag_from_closed (j : nat) (s : State) : option State :=
  match producers s !! j, closed (brokenWidgetChannel s) with
  | Some (_, PSelect), true => Some (set_producer j (PProduce false) s)
  | _, _ => None
  end.

(** [productionCounterChannel <- 1] of producer [j] meets the manager. *)
Definition count_production (j : nat) (s : State) : option State :=
  match producers s !! j, managerPC s, closed (productionCounterChannel s) with
  | Some (_, PSendCount wid), MgrRecvProd, false =>
      Some (set_producer j (PSendWidget wid)
             (set_managerPC MgrRecvCons
               (set_productionCounter (productionCounter s + 1) s)))
  | _, _, _ => None
  end.

(** The steps of consumer [k] that involve no other goroutine: the
    [default] case, the four prints of [consume] and the assignment that
    follows, and the panic of a send on a closed channel. *)
Definition consumer_step (k : nat) (s : State) : option State :=
  match consumers s !! k with
  | None => None
  | Some (con, pc) =>
      match pc with
      | CSelect =>
          if ready (quitChannel s) || widget_ready s then None else Some s
      | CPrintName wid =>
          Some (set_consumer k (CPrintVerb wid) (print (FName (consumer_name con)) s))
      | CPrintVerb wid =>
          Some (set_consumer k (CPrintWidget wid)
                 (print (if negb (broken wid) then FConsumes else FFoundBroken) s))
      | CPrintWidget wid =>
          Some (set_consumer k (CPrintTail wid) (print (FWidget wid) s))
      | CPrintTail wid =>
          let s1 :=
            if negb (broken wid) then
              let '(since, world') := Since env (time wid) (world s) in
              set_world world' (print (FTail (broken wid) (Some since)) s)
            else print (FTail (broken wid) None) s in
          let s2 := if broken wid then set_brokenWidgetConsumed true s1 else s1 in
          Some (set_consumer k CSendCount s2)
      | CSendCount =>
          match send (consumptionCounterChannel s) 1 with
          | SendPanics => Some (panic SendOnClosedChannel s)
          | SendOk c =>
              Some (set_consumer k CSelect (set_consumptionCounterChannel c s))
          | SendBlocks => None
          end
      | CReturned => None
      end
  end.

(** [case <-quitChannel: wg.Done(); return] of consumer [k]. *)
Definition consumer_quits (k : nat) (s : State) : option State :=
  match consumers s !! k with
  | Some (_, CSelect) =>
      match recv (quitChannel s) with
      | RecvOk _ c => Some (worker_return (set_consumer k CReturned (set_quitChannel c s)))
      | RecvClosed => Some (worker_return (set_consumer k CReturned s))
      | RecvBlocks => None
      end
  | _ => None
  end.

(** [case widget := <-widgetChannel] of consumer [k], meeting the send of
    producer [j], ... *)
Definition widget_to (j k : nat) (s : State) : option State :=
  match producers s !! j, consumers s !! k, closed (widgetChannel s) with
  | Some (_, PSendWidget wid), Some (_, CSelect), false =>
      Some (set_consumer k (CPrintName wid) (set_producer j PSelect s))
  | _, _, _ => None
  end.

(** ... or reading the zero value of the closed channel. *)
Definition widget_from_closed (k : nat) (s : State) : option State :=
  match consumers s !! k, closed (widgetChannel s) with
  | Some (_, CSelect), true =>
      Some (set_consumer k (CPrintName (mkWidget "" "" 0 false)) s)
  | _, _ => None
  end.

(** [consumptionCounterChannel <- 1] of consumer [k] meets the manager. *)
Definition count_consumption (k : nat) (s : State) : option State :=
  match consumers s !! k, managerPC s, closed (consumptionCounterChannel s) with
  | Some (_, CSendCount), MgrRecvCons, false =>
      Some (set_consumer k CSelect
             (set_managerPC MgrCheck
               (set_consumptionCounter (consumptionCounter s + 1) s)))
  | _, _, _ => None
  end.

Inductive Action :=
| RunInit
| RunManager
| RunProducer (j : nat)
| RunConsumer (k : nat)
| ProducerQuits (j : nat)
| ConsumerQuits (k : nat)
| FlagFromInit (j : nat)
| FlagFromManager (j : nat)
| FlagFromClosed (j : nat)
| CountProduction (j : nat)
| WidgetTo (j k : nat)
| WidgetFromClosed (k : nat)
| CountConsumption (k : nat).

Definition over (s : State) : bool :=
  match fault s, managerPC s with
  | Some _, _ => true
  | None, MgrReturned => true
  | None, _ => false
  end.

Definition exec (s : State) (a : Action) : option State :=
  if over s then None
  else match a with
       | RunInit => init_step s
       | RunManager => manager_step s
       | RunProducer j => producer_step j s
       | RunConsumer k => consumer_step k s
       | ProducerQuits j => producer_quits j s
       | ConsumerQuits k => consumer_quits k s
       | FlagFromInit j => flag_from_init j s
       | FlagFromManager j => flag_from_manager j s
       | FlagFromClosed j => flag_from_closed j s
       | CountProduction j => count_production j s
       | WidgetTo j k => widget_to j k s
       | WidgetFromClosed k => widget_from_closed k s
       | CountConsumption k => count_consumption k s
       end.

Fixpoint run (s : State) (schedule : list Action) : option State :=
  match schedule with
  | [] => Some s
  | a :: rest =>
      match exec s a with
      | Some s' => run s' rest
      | None => None
      end
  end.

End Step.

End CounterBased.

(** * Properties *)

(** ** The identifier generator *)

Module Identifier.
Import Go.

Definition is_lower (c : ascii) : bool :=
  (97 <=? nat_of_ascii c)%nat && (nat_of_ascii c <=? 122)%nat.
Definition is_digit (c : ascii) : bool :=
  (48 <=? nat_of_ascii c)%nat && (nat_of_ascii c <=? 57)%nat.
Definition is_alnum (c : ascii) : bool := is_lower c || is_digit c.

Fixpoint all_alnum (s : string) : bool :=
  match s with
  | EmptyString => true
  | String c rest => is_alnum c && all_alnum rest
  end.

(** The shape the specification describes: one separator at the midpoint,
    between two runs of alphanumeric characters of the same length (sixteen
    each in its example). *)
Definition spec_token (s : string) : Prop :=
  exists front back : string,
    s = front +:+ "-" +:+ back /\
    String.length front = String.length back /\
    all_alnum front = true /\ all_alnum back = true.

(** What the loop of [idMaker] has built after [i] iterations: [i]
    characters, the separator at index 16 once passed, alphanumerics of
    [ASCII] elsewhere, and one call of [rand.Intn] per character other than
    the separator. *)
Definition built (w0 : World) (i : Z) (st : string * World) : Prop :=
  Z.of_nat (String.length st.1) = i /\
  Z.of_nat (intn_calls st.2) = Z.of_nat (intn_calls w0) + (if 16 <? i then i - 1 else i) /\
  ticks st.2 = ticks w0 /\
  (16 < i -> String.get 16 st.1 = Some "-"%char) /\
  (forall (n : nat) (c : ascii),
      String.get n st.1 = Some c -> n <> 16%nat ->
      is_alnum c = true /\ exists m, String.get m ASCII = Some c).

Lemma for_loop_invariant {S : Type} (P : Z -> S -> Prop)
    (body : Z -> S -> option S) :
  forall (count : nat) (i : Z) (s : S),
    (forall j st, i <= j < i + Z.of_nat count -> P j st ->
                  exists st', body j st = Some st' /\ P (j + 1) st') ->
    P i s ->
    exists s', for_loop count i body s = Some s' /\ P (i + Z.of_nat count) s'.
Proof.
  induction count as [|count IH]; intros i s Hbody HP.
  - exists s. split; [reflexivity|]. replace (i + Z.of_nat 0) with i by lia. exact HP.
  - destruct (Hbody i s ltac:(lia) HP) as (s1 & Hs1 & HP1).
    cbn [for_loop]. rewrite Hs1.
    destruct (IH (i + 1) s1) as (s2 & Hs2 & HP2); [|exact HP1|].
    + intros j st Hj. apply Hbody. lia.
    + exists s2. split; [exact Hs2|].
      replace (i + Z.of_nat (Datatypes.S count)) with (i + 1 + Z.of_nat count) by lia.
      exact HP2.
Qed.

Lemma ASCII_alnum (n : nat) :
  (n < 35)%nat -> exists c, String.get n ASCII = Some c /\ is_alnum c = true.
Proof.
  intros Hn.
  do 35 (destruct n as [|n]; [eexists; split; reflexivity|]).
  lia.
Qed.

Lemma app_nil (t : string) : EmptyString +:+ t = t.
Proof. reflexivity. Qed.

Lemma app_cons (a : ascii) (s t : string) : String a s +:+ t = String a (s +:+ t).
Proof. reflexivity. Qed.

Lemma length_app (s t : string) :
  String.length (s +:+ t) = (String.length s + String.length t)%nat.
Proof.
  induction s as [|a s IH]; [reflexivity|].
  rewrite app_cons. cbn [String.length]. rewrite IH. reflexivity.
Qed.

Lemma length_snoc (s : string) (c : ascii) :
  String.length (s +:+ String c EmptyString) = Datatypes.S (String.length s).
Proof. rewrite length_app. cbn [String.length]. lia. Qed.

Lemma get_snoc (s : string) (c d : ascii) :
  forall n : nat,
    String.get n (s +:+ String c EmptyString) = Some d ->
    String.get n s = Some d \/ (n = String.length s /\ d = c).
Proof.
  induction s as [|a s IH]; intros n H.
  - rewrite app_nil in H.
    destruct n as [|n]; cbn in H; [right; split; [reflexivity|congruence]|discriminate].
  - rewrite app_cons in H. destruct n as [|n]; cbn in H |- *; [left; exact H|].
    destruct (IH n H) as [Hl|[-> ->]]; [left; exact Hl|right; split; reflexivity].
Qed.

Lemma get_snoc_old (s : string) (c d : ascii) (n : nat) :
  String.get n s = Some d -> String.get n (s +:+ String c EmptyString) = Some d.
Proof.
  revert n. induction s as [|a s IH]; intros n H.
  - destruct n; discriminate.
  - rewrite app_cons. destruct n as [|n]; cbn in H |- *; [exact H|]. apply IH. exact H.
Qed.

Lemma get_snoc_new (s : string) (c : ascii) :
  String.get (String.length s) (s +:+ String c EmptyString) = Some c.
Proof. induction s as [|a s IH]; [reflexivity|]. rewrite app_cons. exact IH. Qed.

Lemma idMaker_body_built (env : Env) (w0 : World) (j : Z) (st : string * World) :
  0 <= j < 32 -> built w0 j st ->
  exists st', idMaker_body env j st = Some st' /\ built w0 (j + 1) st'.
Proof.
  intros Hj (Hlen & Hpos & Htk & Hsep & Hch). destruct st as [buffer w]. cbn [fst snd] in *.
  unfold idMaker_body. change (ID_LENGTH / 2) with 16.
  destruct (Z.eqb_spec j 16) as [->|Hne].
  - eexists. split; [reflexivity|]. unfold built. cbn [fst snd].
    rewrite length_snoc. repeat split.
    + lia.
    + rewrite Hpos. reflexivity.
    + exact Htk.
    + intros _. replace 16%nat with (String.length buffer) by lia. apply get_snoc_new.
    + destruct (get_snoc _ _ _ _ H) as [Hold|[-> _]]; [|lia].
      apply (Hch n c Hold H0).
    + destruct (get_snoc _ _ _ _ H) as [Hold|[-> _]]; [|lia].
      apply (Hch n c Hold H0).
  - unfold Intn. change (Z.of_nat (String.length ASCII)) with 35.
    change (35 <=? 0) with false. cbv iota.
    pose proof (Z.mod_pos_bound (intn_outcome env (intn_calls w)) 35 ltac:(lia)) as Hr.
    destruct (ASCII_alnum (Z.to_nat (intn_outcome env (intn_calls w) mod 35)) ltac:(lia))
      as (c & Hc & Hal).
    rewrite Hc. eexists. split; [reflexivity|]. unfold built. cbn [fst snd intn_calls ticks].
    rewrite length_snoc. repeat split.
    + lia.
    + destruct (Z.ltb_spec 16 j), (Z.ltb_spec 16 (j + 1)); lia.
    + exact Htk.
    + intros H16. apply get_snoc_old. apply Hsep. lia.
    + destruct (get_snoc _ _ _ _ H) as [Hold|[-> ->]]; [apply (Hch n c0 Hold H0)|exact Hal].
    + destruct (get_snoc _ _ _ _ H) as [Hold|[-> ->]]; [apply (Hch n c0 Hold H0)|eauto].
Qed.

(** [idMaker] never panics; what it returns is described by [built] at 32. *)
Lemma idMaker_built (env : Env) (w : World) :
  exists st, idMaker env w = Some st /\ built w 32 st.
Proof.
  unfold idMaker. change (Z.to_nat ID_LENGTH) with 32%nat.
  destruct (for_loop_invariant (built w) (idMaker_body env) 32 0 (EmptyString, w))
    as (st & Hst & Hb).
  - intros j st Hj Hb. apply idMaker_body_built; [lia|exact Hb].
  - unfold built. cbn. repeat split; try lia. all: destruct n; discriminate.
  - exists st. split; [exact Hst|exact Hb].
Qed.

(** The letter [w] is not in [ASCII]. *)
Lemma ASCII_lacks_w (m : nat) : String.get m ASCII <> Some "w"%char.
Proof.
  do 35 (destruct m as [|m]; [discriminate|]). discriminate.
Qed.

Lemma get_app_front (s t : string) (n : nat) :
  (n < String.length s)%nat -> String.get n (s +:+ t) = String.get n s.
Proof.
  revert n. induction s as [|a s IH]; intros n Hn; cbn in Hn; [lia|].
  rewrite app_cons. destruct n as [|n]; cbn; [reflexivity|]. apply IH. lia.
Qed.

Lemma get_lt (s : string) (n : nat) (c : ascii) :
  String.get n s = Some c -> (n < String.length s)%nat.
Proof.
  revert n. induction s as [|a s IH]; intros n H; [destruct n; discriminate|].
  destruct n as [|n]; cbn in H |- *; [lia|]. specialize (IH n H). lia.
Qed.

Lemma get_app_back (s t : string) (n : nat) :
  String.get (String.length s + n) (s +:+ t) = String.get n t.
Proof. induction s as [|a s IH]; [reflexivity|]. rewrite app_cons. exact IH. Qed.

(** A string whose characters are all alphanumeric, read off its indices. *)
Lemma all_alnum_get (s : string) :
  (forall (n : nat) (c : ascii), String.get n s = Some c -> is_alnum c = true) ->
  all_alnum s = true.
Proof.
  induction s as [|a s IH]; intros H; [reflexivity|].
  cbn [all_alnum]. rewrite (H 0%nat a eq_refl). cbn [andb].
  apply IH. intros n c Hn. exact (H (S n) c Hn).
Qed.

(** A string of length [n + 1 + m] splits around its character at [n]. *)
Lemma split_at (s : string) (n : nat) (c : ascii) :
  String.get n s = Some c ->
  exists front back : string,
    s = front +:+ String c EmptyString +:+ back /\
    String.length front = n /\
    String.length s = (n + 1 + String.length back)%nat.
Proof.
  revert n. induction s as [|a s IH]; intros n H; [destruct n; discriminate|].
  destruct n as [|n]; cbn in H.
  - injection H as ->. exists EmptyString, s.
    split; [reflexivity|]. split; [reflexivity|]. cbn. lia.
  - destruct (IH n H) as (front & back & -> & Hf & Hl).
    exists (String a front), back.
    split; [reflexivity|]. split; [cbn; rewrite Hf; reflexivity|].
    cbn [String.length]. lia.
Qed.

(** C8, as the code has it: every call of [idMaker] returns (it does not
    panic) a token of the fixed length 32 made of 16 characters, the
    separator ['-'] and 15 characters; the characters on both sides are
    lowercase letters or digits, each taken from [ASCII], so that the
    separator occurs once, at index 16. *)
Theorem idMaker_token (env : Env) (w : World) :
  exists (token front back : string) (w' : World),
    idMaker env w = Some (token, w') /\
    token = front +:+ "-" +:+ back /\
    String.length token = 32%nat /\
    String.length front = 16%nat /\ String.length back = 15%nat /\
    all_alnum front = true /\ all_alnum back = true /\
    (forall n : nat, String.get n token = Some "-"%char <-> n = 16%nat) /\
    forall (n : nat) (c : ascii),
      String.get n token = Some c -> n <> 16%nat ->
      exists m : nat, String.get m ASCII = Some c.
Proof.
  destruct (idMaker_built env w) as ([token w'] & Hrun & Hlen & _ & _ & Hsep & Hch).
  cbn [fst snd] in *. specialize (Hsep ltac:(lia)).
  destruct (split_at token 16 "-"%char Hsep) as (front & back & Heq & Hf & Hl).
  exists token, front, back, w'.
  assert (String.length back = 15%nat) as Hb by lia.
  split; [exact Hrun|]. split; [exact Heq|]. split; [lia|].
  split; [exact Hf|]. split; [exact Hb|].
  split; [|split; [|split]].
  - apply all_alnum_get. intros n c Hn.
    pose proof (get_lt front n c Hn) as Hlt.
    apply (Hch n c); [|lia]. rewrite Heq, get_app_front by exact Hlt. exact Hn.
  - apply all_alnum_get. intros n c Hn.
    apply (Hch (17 + n)%nat c); [|lia].
    rewrite Heq. replace (17 + n)%nat with (String.length front + (1 + n))%nat by lia.
    rewrite get_app_back. exact Hn.
  - intros n. split; [|intros ->; exact Hsep].
    intros Hn. destruct (Nat.eq_dec n 16) as [Heq16|Hne]; [exact Heq16|].
    destruct (Hch n "-"%char Hn Hne) as (Hal & _). discriminate.
  - intros n c Hn Hne. exact (proj2 (Hch n c Hn Hne)).
Qed.

(** C8, as the specification words it, fails: the separator of a token of
    the code is not at the midpoint, as 16 characters stand before it and
    15 after it. *)
Lemma idMaker_not_spec_token :
  exists (token : string) (w' : World),
    idMaker (mkEnv (fun _ => 0) (fun _ => 0)) (mkWorld 0 0) = Some (token, w') /\
    token = "aaaaaaaaaaaaaaaa-aaaaaaaaaaaaaaa" /\
    ~ spec_token token.
Proof.
  eexists _, _. split; [vm_compute; reflexivity|]. split; [reflexivity|].
  intros (front & back & Heq & Hf & _).
  apply (f_equal String.length) in Heq.
  rewrite !length_app, Hf in Heq. cbn in Heq. lia.
Qed.

(** No identifier holds the letter [w]: every call of [idMaker] returns a
    token without it, as the alphabet [ASCII] of the code has the other 25
    letters and the ten digits only. *)
Theorem idMaker_never_w (env : Env) (w : World) :
  exists (token : string) (w' : World),
    idMaker env w = Some (token, w') /\
    forall n : nat, String.get n token <> Some "w"%char.
Proof.
  destruct (idMaker_built env w) as ([token w'] & Hrun & Hlen & _ & _ & Hsep & Hch).
  cbn [fst snd] in *. exists token, w'. split; [exact Hrun|].
  intros n Hn. destruct (Nat.eq_dec n 16) as [->|Hne].
  - rewrite Hsep in Hn by lia. discriminate.
  - destruct (Hch n "w"%char Hn Hne) as (_ & m & Hm).
    exact (ASCII_lacks_w m Hm).
Qed.

End Identifier.

(** ** Counting the elements of a list that satisfy a test *)

Module Tally.

Fixpoint tally {A : Type} (f : A -> bool) (l : list A) : Z :=
  match l with
  | [] => 0
  | x :: rest => Z.b2z (f x) + tally f rest
  end.

Lemma tally_nonneg {A} (f : A -> bool) (l : list A) : 0 <= tally f l.
Proof. induction l as [|x l IH]; cbn; [lia|]. destruct (f x); cbn; lia. Qed.

Lemma tally_le_length {A} (f : A -> bool) (l : list A) :
  tally f l <= Z.of_nat (length l).
Proof. induction l as [|x l IH]; cbn; [lia|]. destruct (f x); cbn; lia. Qed.

Lemma tally_app {A} (f : A -> bool) (l1 l2 : list A) :
  tally f (l1 ++ l2) = tally f l1 + tally f l2.
Proof. induction l1 as [|x l1 IH]; cbn; [reflexivity|]. rewrite IH. lia. Qed.

Lemma tally_insert {A} (f : A -> bool) (l : list A) (i : nat) (x y : A) :
  l !! i = Some x ->
  tally f (<[i := y]> l) = tally f l - Z.b2z (f x) + Z.b2z (f y).
Proof.
  revert i. induction l as [|a l IH]; intros i H; [discriminate|].
  destruct i as [|i].
  - cbn in *. injection H as ->. lia.
  - change (<[Datatypes.S i := y]> (a :: l)) with (a :: <[i := y]> l).
    cbn [tally]. rewrite (IH i H). lia.
Qed.

Lemma tally_lookup {A} (f : A -> bool) (l : list A) (i : nat) (x : A) :
  l !! i = Some x -> f x = true -> 1 <= tally f l.
Proof.
  revert i. induction l as [|a l IH]; intros i H Hf; [discriminate|].
  destruct i as [|i]; cbn in *.
  - injection H as ->. rewrite Hf. pose proof (tally_nonneg f l). cbn. lia.
  - pose proof (IH i H Hf). destruct (f a); cbn; lia.
Qed.

Lemma tally_fmap {A B} (f : B -> bool) (g : A -> B) (l : list A) :
  tally f (g <$> l) = tally (fun x => f (g x)) l.
Proof. induction l as [|x l IH]; cbn; [reflexivity|]. rewrite IH. reflexivity. Qed.

Lemma tally_all {A} (f : A -> bool) (l : list A) :
  (forall x, f x = true) -> tally f l = Z.of_nat (length l).
Proof. intros H. induction l as [|x l IH]; cbn; [lia|]. rewrite H, IH. cbn. lia. Qed.

Lemma tally_none {A} (f : A -> bool) (l : list A) :
  (forall x, f x = false) -> tally f l = 0.
Proof. intros H. induction l as [|x l IH]; cbn; [lia|]. rewrite H, IH. reflexivity. Qed.

Lemma tally_zero_lookup {A} (f : A -> bool) (l : list A) (i : nat) (x : A) :
  tally f l = 0 -> l !! i = Some x -> f x = false.
Proof.
  intros H0 Hl. destruct (f x) eqn:E; [|reflexivity].
  pose proof (tally_lookup f l i x Hl E). lia.
Qed.

Lemma tally_full_lookup {A} (f : A -> bool) (l : list A) (i : nat) (x : A) :
  tally f l = Z.of_nat (length l) -> l !! i = Some x -> f x = true.
Proof.
  revert i. induction l as [|a l IH]; intros i H Hl; [discriminate|].
  pose proof (tally_le_length f l) as Hle.
  destruct i as [|i]; cbn in *.
  - injection Hl as ->. destruct (f x); [reflexivity|]. cbn in H. lia.
  - apply (IH i); [|exact Hl]. destruct (f a); cbn in H; lia.
Qed.

Lemma tally_seqZ_eq (k m len : Z) :
  0 <= len ->
  tally (fun i => i =? k) (seqZ m len) = Z.b2z ((m <=? k) && (k <? m + len)).
Proof.
  intros Hlen. revert m. pattern len. apply natlike_ind; [| |exact Hlen].
  - intros m. rewrite seqZ_nil by lia. cbn.
    destruct (Z.leb_spec m k), (Z.ltb_spec k (m + 0)); cbn; lia.
  - intros x Hx IH m. rewrite seqZ_cons by lia. cbn [tally].
    replace (Z.pred (Z.succ x)) with x by lia. rewrite IH.
    destruct (Z.eqb_spec m k), (Z.leb_spec (Z.succ m) k), (Z.ltb_spec k (Z.succ m + x)),
      (Z.leb_spec m k), (Z.ltb_spec k (m + Z.succ x)); cbn; lia.
Qed.

(** Sums of a weight over a list. *)
Fixpoint weigh {A : Type} (f : A -> Z) (l : list A) : Z :=
  match l with
  | [] => 0
  | x :: rest => f x + weigh f rest
  end.

Lemma weigh_nonneg {A} (f : A -> Z) (l : list A) :
  (forall x, 0 <= f x) -> 0 <= weigh f l.
Proof. intros H. induction l as [|x l IH]; cbn; [lia|]. specialize (H x). lia. Qed.

Lemma weigh_insert {A} (f : A -> Z) (l : list A) (i : nat) (x y : A) :
  l !! i = Some x -> weigh f (<[i := y]> l) = weigh f l - f x + f y.
Proof.
  revert i. induction l as [|a l IH]; intros i H; [discriminate|].
  destruct i as [|i].
  - cbn in *. injection H as ->. lia.
  - change (<[Datatypes.S i := y]> (a :: l)) with (a :: <[i := y]> l).
    cbn [weigh]. rewrite (IH i H). lia.
Qed.

Lemma weigh_fmap_const {A B} (f : B -> Z) (g : A -> B) (l : list A) (c : Z) :
  (forall x, f (g x) = c) -> weigh f (g <$> l) = c * Z.of_nat (length l).
Proof.
  intros H. induction l as [|x l IH]; [cbn; lia|].
  rewrite fmap_cons. cbn [weigh length]. rewrite H, IH. lia.
Qed.

Lemma tally_mono {A} (f g : A -> bool) (l : list A) :
  (forall x, f x = true -> g x = true) -> tally f l <= tally g l.
Proof.
  intros H. induction l as [|x l IH]; cbn; [lia|].
  specialize (H x).
  destruct (f x), (g x); cbn; first [lia | discriminate (H eq_refl)].
Qed.

Lemma tally_disjoint {A} (f g h : A -> bool) (l : list A) :
  (forall x, f x = true -> h x = true) ->
  (forall x, g x = true -> h x = true) ->
  (forall x, f x = true -> g x = false) ->
  tally f l + tally g l <= tally h l.
Proof.
  intros Hf Hg Hd. induction l as [|x l IH]; cbn; [lia|].
  specialize (Hf x). specialize (Hg x). specialize (Hd x).
  destruct (f x), (g x), (h x); cbn;
    first [lia | discriminate (Hf eq_refl) | discriminate (Hg eq_refl)
          | discriminate (Hd eq_refl)].
Qed.

Lemma tally_pos_lookup {A} (f : A -> bool) (l : list A) :
  1 <= tally f l -> exists i x, l !! i = Some x /\ f x = true.
Proof.
  induction l as [|a l IH]; cbn; [lia|]. intros H.
  destruct (f a) eqn:E.
  - exists 0%nat, a. split; [reflexivity|exact E].
  - cbn in H. destruct (IH ltac:(lia)) as (i & x & Hl & Hf).
    exists (Datatypes.S i), x. split; [exact Hl|exact Hf].
Qed.

Lemma tally_lookup_false {A} (f : A -> bool) (l : list A) (i : nat) (x : A) :
  l !! i = Some x -> f x = false -> tally f l + 1 <= Z.of_nat (length l).
Proof.
  revert i. induction l as [|a l IH]; intros i H Hf; [discriminate|].
  pose proof (tally_le_length f l).
  destruct i as [|i]; cbn in *.
  - injection H as ->. rewrite Hf. cbn. lia.
  - pose proof (IH i H Hf). destruct (f a); cbn; lia.
Qed.

Lemma tally_seqZ_lt (k m len : Z) :
  0 <= len ->
  tally (fun i => i <? k) (seqZ m len) = Z.max 0 (Z.min (k - m) len).
Proof.
  intros Hlen. revert m. pattern len. apply natlike_ind; [| |exact Hlen].
  - intros m. rewrite seqZ_nil by lia. cbn. lia.
  - intros x Hx IH m. rewrite seqZ_cons by lia. cbn [tally].
    replace (Z.pred (Z.succ x)) with x by lia. rewrite IH.
    destruct (Z.ltb_spec m k); cbn; lia.
Qed.

Lemma tally_le_sum {A} (f g h : A -> bool) (l : list A) :
  (forall x, f x = true -> g x = true \/ h x = true) ->
  tally f l <= tally g l + tally h l.
Proof.
  intros H. induction l as [|x l IH]; cbn; [lia|].
  specialize (H x).
  destruct (f x), (g x), (h x); cbn;
    first [lia | destruct (H eq_refl); discriminate].
Qed.

Lemma tally_split {A} (l : list A) (i : nat) (x : A) :
  l !! i = Some x ->
  forall f : A -> bool, tally f l = Z.b2z (f x) + tally f (delete i l).
Proof.
  revert i. induction l as [|a l IH]; intros i H f; [discriminate|].
  destruct i as [|i].
  - cbn in *. injection H as ->. reflexivity.
  - change (delete (Datatypes.S i) (a :: l)) with (a :: delete i l).
    cbn [tally]. rewrite (IH i H f). lia.
Qed.

Lemma tally_insert_split {A} (l : list A) (i : nat) (x y : A) :
  l !! i = Some x ->
  forall f : A -> bool, tally f (<[i := y]> l) = Z.b2z (f y) + tally f (delete i l).
Proof.
  intros H f. rewrite (tally_insert f l i x y H), (tally_split l i x H f). lia.
Qed.

End Tally.

(** ** The slot-based version: what every reachable state satisfies *)

Module SlotInv.
Import Go SlotBased Tally.

(** *** Where the workers stand *)

Definition p_live (x : Producer * ProducerPC) : bool :=
  match x.2 with PReturned => false | _ => true end.
Definition p_holds (x : Producer * ProducerPC) : bool :=
  match x.2 with PSelect _ | PProduce _ => true | _ => false end.
Definition p_holds_slot (k : Z) (x : Producer * ProducerPC) : bool :=
  match x.2 with PSelect i | PProduce i => i =? k | _ => false end.
Definition p_sends (x : Producer * ProducerPC) : bool :=
  match x.2 with PSend _ _ => true | _ => false end.
Definition p_sends_broken (x : Producer * ProducerPC) : bool :=
  match x.2 with PSend _ wid => broken wid | _ => false end.

Definition c_live (x : Consumer * ConsumerPC) : bool :=
  match x.2 with CReturned => false | _ => true end.
Definition c_has (x : Consumer * ConsumerPC) : bool :=
  match x.2 with CSelect _ | CConsume _ => true | _ => false end.
Definition c_has_broken (x : Consumer * ConsumerPC) : bool :=
  match x.2 with CSelect wid | CConsume wid => broken wid | _ => false end.
Definition c_closes_broken (x : Consumer * ConsumerPC) : bool :=
  match x.2 with CCloseBroken => true | _ => false end.
Definition c_closes_done (x : Consumer * ConsumerPC) : bool :=
  match x.2 with CCloseDone => true | _ => false end.

(** *** What the trace has recorded *)

Definition is_produced (e : Event) : bool :=
  match e with Produced _ _ _ => true | _ => false end.
Definition is_produced_slot (k : Z) (e : Event) : bool :=
  match e with Produced _ i _ => i =? k | _ => false end.
Definition is_dropped (e : Event) : bool :=
  match e with Dropped _ _ => true | _ => false end.
Definition is_dropped_slot (k : Z) (e : Event) : bool :=
  match e with Dropped _ i => i =? k | _ => false end.
Definition is_discarded (e : Event) : bool :=
  match e with Discarded _ _ => true | _ => false end.
Definition is_discarded_broken (e : Event) : bool :=
  match e with Discarded _ wid => broken wid | _ => false end.
Definition is_report (e : Event) : bool :=
  match e with Printed (LConsumes _ _ _) | Printed (LFoundBroken _ _) => true | _ => false end.
Definition is_broken_report (e : Event) : bool :=
  match e with Printed (LFoundBroken _ _) => true | _ => false end.
Definition is_raised (e : Event) : bool :=
  match e with Raised _ => true | _ => false end.

(** The quantities the properties below are stated in. *)
Definition units_produced (s : State) : Z := tally is_produced (trace s).
Definition units_consumed (s : State) : Z := tally is_report (trace s).
Definition broken_reports (s : State) : Z := tally is_broken_report (trace s).
Definition signal_raised (s : State) : Z := tally is_raised (trace s).
Definition units_dropped (s : State) : Z := tally is_dropped (trace s).
Definition units_discarded (s : State) : Z := tally is_discarded (trace s).

(** The lines on standard output, oldest first. *)
Definition stdout (s : State) : list Line :=
  rev (omap (fun e => match e with Printed l => Some l | _ => None end) (trace s)).

(** [main] has returned and no goroutine has panicked. *)
Definition finished (s : State) : Prop := mainPC s = MReturned /\ fault s = None.

(** No action can execute although the process is not over. *)
Definition deadlocked (env : Env) (cfg : Config) (s : State) : Prop :=
  over s = false /\ forall a, exec env cfg s a = None.

Definition slot_in_range (cfg : Config) (i : Z) : Prop := 1 <= i <= numWidgets cfg.

Definition held_in_range (cfg : Config) (x : Producer * ProducerPC) : Prop :=
  match x.2 with
  | PSelect i | PProduce i | PSend i _ => slot_in_range cfg i
  | _ => True
  end.

(** The flag of a widget is decided by its slot: C1 on one event. *)
Definition flag_from_slot (cfg : Config) (e : Event) : Prop :=
  match e with
  | Produced _ i wid => broken wid = (numKth cfg =? i) /\ slot_in_range cfg i
  | _ => True
  end.

Record Inv (cfg : Config) (s : State) : Prop := mkInv {
  inv_fault : fault s = None;
  inv_jobs_closed : closed (jobChannel s) = true;
  inv_jobs_range : Forall (slot_in_range cfg) (buf (jobChannel s));
  inv_held_range : Forall (held_in_range cfg) (producers s);
  inv_quit_empty : buf (quitChannel s) = [];
  inv_broken_empty : buf (brokenWidgetChannel s) = [];
  inv_done_empty : buf (doneChannel s) = [];
  inv_cap : cap (widgetChannel s) = numWidgets cfg;
  inv_pwg : productionWaitGroup s = tally p_live (producers s);
  inv_cwg : consumptionWaitGroup s = tally c_live (consumers s);
  inv_wg :
    wg s = Z.b2z (match prodLinePC s with PLReturned => false | _ => true end)
           + Z.b2z (match consLinePC s with CLReturned => false | _ => true end);
  inv_prodline :
    match prodLinePC s with
    | PLStart => producers s = [] /\ closed (widgetChannel s) = false
    | PLWait =>
        closed (widgetChannel s) = false /\
        length (producers s) = length (make_producerTable cfg)
    | PLClose =>
        closed (widgetChannel s) = false /\ tally p_live (producers s) = 0 /\
        length (producers s) = length (make_producerTable cfg)
    | PLDone | PLReturned =>
        closed (widgetChannel s) = true /\ tally p_live (producers s) = 0 /\
        length (producers s) = length (make_producerTable cfg)
    end;
  inv_consline :
    match consLinePC s with
    | CLStart => consumers s = [] /\ closed (doneChannel s) = false
    | CLWait => length (consumers s) = length (make_consumerTable cfg)
    | CLDone | CLReturned =>
        tally c_live (consumers s) = 0 /\
        length (consumers s) = length (make_consumerTable cfg)
    end;
  inv_slots :
    Z.of_nat (length (buf (jobChannel s))) + tally p_holds (producers s)
    + units_produced s + units_dropped s = numWidgets cfg;
  inv_widgets :
    units_produced s =
    tally p_sends (producers s) + Z.of_nat (length (buf (widgetChannel s)))
    + tally c_has (consumers s) + units_consumed s + units_discarded s;
  inv_slot_k :
    tally (fun i => i =? numKth cfg) (buf (jobChannel s))
    + tally (p_holds_slot (numKth cfg)) (producers s)
    + tally (is_produced_slot (numKth cfg)) (trace s)
    + tally (is_dropped_slot (numKth cfg)) (trace s)
    = Z.b2z ((1 <=? numKth cfg) && (numKth cfg <=? numWidgets cfg));
  inv_flag : Forall (flag_from_slot cfg) (trace s);
  inv_broken :
    tally (is_produced_slot (numKth cfg)) (trace s) =
    tally p_sends_broken (producers s) + tally broken (buf (widgetChannel s))
    + tally c_has_broken (consumers s) + broken_reports s
    + tally is_discarded_broken (trace s);
  inv_found :
    broken_reports s = tally c_closes_broken (consumers s) + signal_raised s;
  inv_raised : signal_raised s = Z.b2z (closed (brokenWidgetChannel s));
  inv_done :
    signal_raised s =
    tally c_closes_done (consumers s) + Z.b2z (closed (doneChannel s));
  inv_main :
    match mainPC s with
    | MCheck => closed (quitChannel s) = false
    | MRecvBroken => closed (quitChannel s) = false /\ 0 < numKth cfg
    | MPrintStop | MCloseQuit =>
        closed (quitChannel s) = false /\ 0 < numKth cfg /\
        closed (brokenWidgetChannel s) = true
    | MWait =>
        (closed (quitChannel s) = true -> closed (brokenWidgetChannel s) = true) /\
        (0 < numKth cfg -> closed (quitChannel s) = true)
    | MReturned =>
        (closed (quitChannel s) = true -> closed (brokenWidgetChannel s) = true) /\
        (0 < numKth cfg -> closed (quitChannel s) = true) /\
        wg s = 0
    end;
  inv_no_drop : closed (quitChannel s) = false -> units_dropped s = 0;
  inv_no_discard : closed (doneChannel s) = false -> units_discarded s = 0;
  inv_jobs_done :
    closed (quitChannel s) = false ->
    tally p_live (producers s) < Z.of_nat (length (producers s)) ->
    buf (jobChannel s) = [];
  inv_drained :
    closed (doneChannel s) = false ->
    tally c_live (consumers s) < Z.of_nat (length (consumers s)) ->
    buf (widgetChannel s) = [] /\ closed (widgetChannel s) = true
}.

(** *** The start of a run *)

Lemma fill_jobs_spec (slots : list Z) :
  forall c : Chan Z,
    closed c = false ->
    Z.of_nat (length (buf c)) + Z.of_nat (length slots) <= cap c ->
    fill_jobs slots c = SendOk (mkChan (buf c ++ slots) (cap c) false).
Proof.
  induction slots as [|i slots IH]; intros c Hc Hroom.
  - cbn. rewrite app_nil_r. destruct c; cbn in *. congruence.
  - cbn [fill_jobs]. unfold send. rewrite Hc.
    cbn [length] in Hroom.
    destruct (Z.ltb_spec (Z.of_nat (length (buf c))) (cap c)); [|lia].
    rewrite IH; cbn [buf cap closed]; [|reflexivity|rewrite length_app; cbn; lia].
    rewrite <- app_assoc. reflexivity.
Qed.

(** The state in which the goroutines start: the job channel full and
    closed, the other channels empty and open, [wg] at two. *)
Definition start_state (cfg : Config) : State :=
  mkState (mkChan (seqZ 1 (numWidgets cfg)) (numWidgets cfg) true)
          (mkChan [] (numWidgets cfg) false)
          (mkChan [] 0 false) (mkChan [] 0 false) (mkChan [] 0 false)
          2 0 0 MCheck PLStart CLStart [] [] (mkWorld 0 0) [] None.

Lemma init_started (cfg : Config) :
  0 <= numWidgets cfg ->
  sizeof_Widget * numWidgets cfg <= maxAlloc - hchanSize ->
  WidgetProductionConsumptionLine_init cfg = Started (start_state cfg).
Proof.
  intros Hn Hfit. unfold WidgetProductionConsumptionLine_init, make_chan.
  unfold sizeof_Widget, sizeof_int, sizeof_unit, maxAlloc, hchanSize in *.
  destruct (Z.ltb_spec (numWidgets cfg) 0); [lia|].
  destruct (Z.ltb_spec (281474976710656 - 96) (8 * numWidgets cfg)); [lia|].
  destruct (Z.ltb_spec (281474976710656 - 96) (64 * numWidgets cfg)); [lia|].
  cbn [orb Z.ltb Z.compare Z.mul Z.sub Z.opp Z.add Z.pos_sub].
  rewrite fill_jobs_spec; cbn [buf cap closed length]; [reflexivity|reflexivity|].
  rewrite length_seqZ. lia.
Qed.

(** A negative [-n] makes the first [make] panic; with one too large for
    a buffer of the allocator the program does not start either. *)
Lemma init_panics (cfg : Config) :
  numWidgets cfg < 0 ->
  WidgetProductionConsumptionLine_init cfg = Panicked MakechanSizeOutOfRange.
Proof.
  intros Hn. unfold WidgetProductionConsumptionLine_init, make_chan.
  destruct (Z.ltb_spec (numWidgets cfg) 0); [reflexivity|lia].
Qed.

Lemma init_too_large (cfg : Config) (s : State) :
  maxAlloc - hchanSize < sizeof_Widget * numWidgets cfg ->
  WidgetProductionConsumptionLine_init cfg <> Started s.
Proof.
  intros Hn. unfold WidgetProductionConsumptionLine_init, make_chan.
  destruct (_ || _); [discriminate|].
  destruct (Z.ltb_spec (maxAlloc - hchanSize) (sizeof_Widget * numWidgets cfg)); [|lia].
  rewrite orb_true_r. discriminate.
Qed.

(** The start succeeds only with [start_state], for a [-n] that is not
    negative. *)
Lemma init_start_state (cfg : Config) (s : State) :
  WidgetProductionConsumptionLine_init cfg = Started s ->
  s = start_state cfg /\ 0 <= numWidgets cfg.
Proof.
  intros Hs.
  destruct (Z.ltb_spec (numWidgets cfg) 0) as [Hneg|Hpos].
  { rewrite init_panics in Hs by exact Hneg. discriminate. }
  destruct (Z.ltb_spec (maxAlloc - hchanSize) (sizeof_Widget * numWidgets cfg))
    as [Hbig|Hfit].
  { exfalso. exact (init_too_large cfg s Hbig Hs). }
  rewrite init_started in Hs by assumption. injection Hs as <-. split; [reflexivity|exact Hpos].
Qed.

Lemma init_inv (cfg : Config) (s : State) :
  WidgetProductionConsumptionLine_init cfg = Started s -> Inv cfg s.
Proof.
  intros Hs.
  destruct (init_start_state cfg s Hs) as (-> & Hpos). unfold start_state.
  constructor; cbn; try reflexivity; try (intros; reflexivity); try lia.
  all: try solve [constructor | split; reflexivity | intros _ H; lia].
  - apply Forall_forall. intros i Hi. apply elem_of_seqZ in Hi. unfold slot_in_range. lia.
  - unfold units_produced, units_dropped. cbn. rewrite length_seqZ. lia.
  - rewrite tally_seqZ_eq by lia.
    destruct (Z.leb_spec 1 (numKth cfg)), (Z.ltb_spec (numKth cfg) (1 + numWidgets cfg)),
      (Z.leb_spec (numKth cfg) (numWidgets cfg)); cbn; lia.
Qed.

End SlotInv.

(** ** The slot-based version: every step keeps the invariant *)

Module SlotSteps.
Import Go SlotBased Tally SlotInv.

Lemma set_producer_eq (p : nat) (pc pc0 : ProducerPC) (prod : Producer) (s : State) :
  producers s !! p = Some (prod, pc0) ->
  set_producer p pc s = set_producers (<[p := (prod, pc)]> (producers s)) s.
Proof. intros H. unfold set_producer. rewrite H. reflexivity. Qed.

Lemma set_consumer_eq (c : nat) (pc pc0 : ConsumerPC) (con : Consumer) (s : State) :
  consumers s !! c = Some (con, pc0) ->
  set_consumer c pc s = set_consumers (<[c := (con, pc)]> (consumers s)) s.
Proof. intros H. unfold set_consumer. rewrite H. reflexivity. Qed.

Lemma ready_signal {A} (c : Chan A) : buf c = [] -> ready c = closed c.
Proof. intros H. unfold ready, recv. rewrite H. destruct (closed c); reflexivity. Qed.

Lemma produce_spec (env : Env) (prod : Producer) (b : bool) (w : World) :
  exists wid w', produce env prod b w = Some (wid, w') /\ broken wid = b /\
                 source wid = producer_name prod.
Proof.
  unfold produce. destruct (Identifier.idMaker_built env w) as ([token w1] & -> & _).
  cbn. eexists _, _. split; [reflexivity|]. split; reflexivity.
Qed.

Ltac open_inv I :=
  destruct I as [Ifault Ijc Ijr Ihr Iqe Ibe Ide Icap Ipwg Icwg Iwg Ipl Icl Islots
                 Iwid Ik Iflag Ibr Ifound Iraised Idone Imain Inodrop Inodisc Ijd Idr];
  unfold units_produced, units_consumed, units_dropped, units_discarded,
    broken_reports, signal_raised in *.

Ltac figures :=
  unfold units_produced, units_consumed, units_dropped, units_discarded,
    broken_reports, signal_raised in *.

Ltac split_goal_pcs :=
  repeat match goal with
    | |- context [match prodLinePC ?s with _ => _ end] => destruct (prodLinePC s)
    | |- context [match consLinePC ?s with _ => _ end] => destruct (consLinePC s)
    | |- context [match mainPC ?s with _ => _ end] => destruct (mainPC s)
    end.

Ltac split_hyp_pcs :=
  repeat match goal with
    | H : context [match prodLinePC ?s with _ => _ end] |- _ => destruct (prodLinePC s)
    | H : context [match consLinePC ?s with _ => _ end] |- _ => destruct (consLinePC s)
    | H : context [match mainPC ?s with _ => _ end] |- _ => destruct (mainPC s)
    end.

Ltac split_bools :=
  repeat match goal with
    | |- context [Z.b2z (?a =? ?b)] => destruct (Z.eqb_spec a b)
    | |- context [Z.b2z (broken ?w)] => destruct (broken w) eqn:?
    | H : context [Z.b2z (?a =? ?b)] |- _ => destruct (Z.eqb_spec a b)
    | H : context [Z.b2z (broken ?w)] |- _ => destruct (broken w) eqn:?
    end.

Ltac leaf :=
  first [ assumption | reflexivity | lia | congruence
        | match goal with
          | H : ?l = [], Hl : ?l !! _ = Some _ |- _ => rewrite H in Hl; discriminate
          end ].

Ltac use_hyps :=
  repeat match goal with
    | H : Forall _ (_ :: _) |- _ => apply Forall_cons in H; destruct H
    | H : _ /\ _ |- _ => destruct H
    | H : ?P -> ?Q |- _ =>
        let HP := fresh in
        assert (HP : P) by leaf; specialize (H HP); clear HP
    end.

Ltac finish :=
  intros; cbn in *; use_hyps; split_bools; cbn in *; repeat split; intros; use_hyps; leaf.

Ltac crush :=
  first
    [ solve [leaf]
    | solve [apply Forall_insert; [assumption|];
             unfold held_in_range, slot_in_range in *; cbn in *; finish]
    | solve [apply Forall_cons; split; [|assumption];
             unfold flag_from_slot, slot_in_range in *; cbn in *; finish]
    | solve [unfold slot_in_range in *; split_goal_pcs; finish]
    | solve [unfold slot_in_range in *; split_goal_pcs; split_hyp_pcs; finish]
    | idtac ].

Ltac rewrite_flags :=
  repeat match goal with
    | H : closed ?c = _ |- context [closed ?c] => rewrite H
    end.

Ltac settle Hl :=
  constructor; figures; cbn;
  rewrite ?(tally_insert _ _ _ _ _ Hl), ?length_insert, ?tally_app, ?length_app; cbn;
  rewrite_flags; crush.

Ltac nonnegs :=
  repeat match goal with
    | H : context [tally ?f ?l] |- _ =>
        lazymatch goal with
        | _ : 0 <= tally f l |- _ => fail
        | _ => pose proof (tally_nonneg f l)
        end
    end.

Ltac b2z_bounds :=
  repeat match goal with
    | H : context [Z.b2z ?b] |- _ =>
        lazymatch goal with
        | _ : 0 <= Z.b2z b <= 1 |- _ => fail
        | _ => assert (0 <= Z.b2z b <= 1) by (destruct b; cbn; lia)
        end
    end.

Ltac absurd_count := exfalso; nonnegs; b2z_bounds; cbn [Z.b2z] in *; lia.

Section Preservation.
Variable env : Env.
Variable cfg : Config.

Lemma producer_step_inv (p : nat) (s s' : State) :
  Inv cfg s -> producer_step env cfg p s = Some s' -> Inv cfg s'.
Proof.
  intros I H. unfold producer_step in H.
  destruct (producers s !! p) as [[prod pc]|] eqn:Hl; [|discriminate].
  open_inv I.
  pose proof (Forall_lookup_1 _ _ _ _ Ihr Hl) as Hrange.
  unfold held_in_range in Hrange. cbn in Hrange.
  destruct pc as [|i|i|i wid|].
  - (* for i := range jobChannel *)
    pose proof (tally_lookup p_live _ _ _ Hl eq_refl).
    unfold recv in H. destruct (buf (jobChannel s)) as [|i rest] eqn:Hjobs.
    + rewrite Ijc in H. unfold producer_return, wg_done, wg_add in H.
      destruct (Z.ltb_spec (productionWaitGroup s + -1) 0) as [Hneg|Hok]; [lia|].
      injection H as <-.
      erewrite set_producer_eq by (cbn; exact Hl).
      rewrite <- ?Hjobs in *. settle Hl.
    + injection H as <-.
      erewrite set_producer_eq by (cbn; exact Hl).
      settle Hl.
  - (* select *)
    pose proof (tally_lookup p_live _ _ _ Hl eq_refl).
    rewrite (ready_signal _ Iqe) in H.
    destruct (closed (quitChannel s)) eqn:Hquit.
    + unfold producer_return, wg_done, wg_add in H. cbn in H.
      destruct (Z.ltb_spec (productionWaitGroup s + -1) 0) as [Hneg|Hok]; [lia|].
      injection H as <-.
      erewrite set_producer_eq by (cbn; exact Hl).
      settle Hl.
    + injection H as <-.
      erewrite set_producer_eq by (cbn; exact Hl).
      settle Hl.
  - (* produce *)
    cbv zeta in H.
    destruct (produce_spec env prod (numKth cfg =? i) (world s))
      as (wid & w' & Hmade & Hflag & _).
    replace (if numKth cfg =? i
             then produce env prod true (world s)
             else produce env prod false (world s))
      with (produce env prod (numKth cfg =? i) (world s)) in H
      by (destruct (numKth cfg =? i); reflexivity).
    rewrite Hmade in H. injection H as <-.
    erewrite set_producer_eq by (cbn; exact Hl).
    settle Hl.
  - (* send *)
    pose proof (tally_lookup p_live _ _ _ Hl eq_refl).
    pose proof (tally_lookup p_sends _ _ _ Hl eq_refl).
    unfold send in H.
    destruct (closed (widgetChannel s)) eqn:Hclosed.
    { exfalso. destruct (prodLinePC s); intuition (try congruence; try lia). }
    destruct (Z.ltb_spec (Z.of_nat (length (buf (widgetChannel s)))) (cap (widgetChannel s)));
      [|discriminate].
    injection H as <-.
    erewrite set_producer_eq by (cbn; exact Hl).
    settle Hl.
  - discriminate.
Qed.

Lemma main_step_inv (s s' : State) :
  Inv cfg s -> main_step cfg s = Some s' -> Inv cfg s'.
Proof.
  intros I H. unfold main_step in H. open_inv I.
  destruct (mainPC s) eqn:Hpc.
  - injection H as <-. destruct (Z.gtb_spec (numKth cfg) 0).
    all: constructor; figures; cbn; rewrite ?Hpc in *; crush.
  - unfold recv in H. rewrite Ibe in H.
    destruct (closed (brokenWidgetChannel s)) eqn:Hb; [|discriminate].
    injection H as <-. constructor; figures; cbn; rewrite ?Hpc in *; crush.
  - injection H as <-. constructor; figures; cbn; rewrite ?Hpc in *; crush.
  - unfold close in H. destruct Imain as (Hq & Hk & Hb). rewrite Hq in H.
    injection H as <-. constructor; figures; cbn; rewrite ?Hpc in *; crush.
  - unfold wg_wait in H. destruct (Z.eqb_spec (wg s) 0); [|discriminate].
    injection H as <-. constructor; figures; cbn; rewrite ?Hpc in *; crush.
  - discriminate.
Qed.

Lemma tally_spawn {A B} (f : B -> bool) (g : A -> B) (l : list A) (b : bool) :
  (forall x, f (g x) = b) ->
  tally f (g <$> l) = if b then Z.of_nat (length l) else 0.
Proof.
  intros H. rewrite tally_fmap. destruct b; [apply tally_all|apply tally_none]; exact H.
Qed.

Lemma productionLine_step_inv (s s' : State) :
  Inv cfg s -> productionLine_step cfg s = Some s' -> Inv cfg s'.
Proof.
  intros I H. unfold productionLine_step in H. open_inv I.
  destruct (prodLinePC s) eqn:Hpc.
  - cbv zeta in H. destruct Ipl as (Hnil & Hopen).
    rewrite Ipwg, Hnil in H. cbn [tally] in H. unfold wg_add in H.
    destruct (Z.ltb_spec (0 + Z.of_nat (length (make_producerTable cfg))) 0); [lia|].
    injection H as <-.
    constructor; figures; cbn; rewrite ?Hpc, ?Hnil in *;
      rewrite ?(tally_spawn _ _ _ true), ?(tally_spawn _ _ _ false), ?length_fmap
        by (intros; reflexivity);
      cbn in *; crush.
    apply Forall_fmap, Forall_forall. intros ? _. exact Logic.I.
  - unfold wg_wait in H. destruct (Z.eqb_spec (productionWaitGroup s) 0); [|discriminate].
    injection H as <-. constructor; figures; cbn; rewrite ?Hpc in *; crush.
  - unfold close in H. destruct Ipl as (Hopen & Hnone & Hlen). rewrite Hopen in H.
    injection H as <-. constructor; figures; cbn; rewrite ?Hpc in *; crush.
  - unfold wg_done, wg_add in H. rewrite ?Hpc in *.
    destruct (Z.ltb_spec (wg s + -1) 0); [cbn in Iwg; destruct (consLinePC s); cbn in Iwg; lia|].
    injection H as <-. constructor; figures; cbn; rewrite ?Hpc in *; crush.
  - discriminate.
Qed.

Lemma consumptionLine_step_inv (s s' : State) :
  Inv cfg s -> consumptionLine_step cfg s = Some s' -> Inv cfg s'.
Proof.
  intros I H. unfold consumptionLine_step in H. open_inv I.
  destruct (consLinePC s) eqn:Hpc.
  - cbv zeta in H. destruct Icl as (Hnil & Hopen).
    rewrite Icwg, Hnil in H. cbn [tally] in H. unfold wg_add in H.
    destruct (Z.ltb_spec (0 + Z.of_nat (length (make_consumerTable cfg))) 0); [lia|].
    injection H as <-.
    constructor; figures; cbn; rewrite ?Hpc, ?Hnil, ?Hopen in *;
      rewrite ?(tally_spawn _ _ _ true), ?(tally_spawn _ _ _ false), ?length_fmap
        by (intros; reflexivity);
      cbn in *; crush.
  - unfold wg_wait in H. destruct (Z.eqb_spec (consumptionWaitGroup s) 0); [|discriminate].
    injection H as <-. constructor; figures; cbn; rewrite ?Hpc in *; crush.
  - unfold wg_done, wg_add in H. rewrite ?Hpc in *.
    destruct (Z.ltb_spec (wg s + -1) 0); [cbn in Iwg; destruct (prodLinePC s); cbn in Iwg; lia|].
    injection H as <-. constructor; figures; cbn; rewrite ?Hpc in *; crush.
  - discriminate.
Qed.

Lemma consumer_step_inv (c : nat) (s s' : State) :
  Inv cfg s -> consumer_step env c s = Some s' -> Inv cfg s'.
Proof.
  intros I H. unfold consumer_step in H.
  destruct (consumers s !! c) as [[con pc]|] eqn:Hl; [|discriminate].
  open_inv I.
  pose proof (tally_lookup c_live _ _ _ Hl) as Hlive.
  destruct pc as [|wid|wid| | |].
  - (* for workingWidget := range inWidgetChannel *)
    specialize (Hlive eq_refl).
    unfold recv in H. destruct (buf (widgetChannel s)) as [|wid rest] eqn:Hbuf.
    + destruct (closed (widgetChannel s)) eqn:Hclosed; [|discriminate].
      unfold consumer_return, wg_done, wg_add in H.
      destruct (Z.ltb_spec (consumptionWaitGroup s + -1) 0) as [Hneg|Hok]; [lia|].
      injection H as <-.
      erewrite set_consumer_eq by (cbn; exact Hl).
      rewrite <- ?Hbuf in *. settle Hl.
    + injection H as <-.
      erewrite set_consumer_eq by (cbn; exact Hl).
      settle Hl.
  - (* select *)
    specialize (Hlive eq_refl).
    rewrite (ready_signal _ Ide) in H.
    destruct (closed (doneChannel s)) eqn:Hdone.
    + unfold consumer_return, wg_done, wg_add in H. cbn in H.
      destruct (Z.ltb_spec (consumptionWaitGroup s + -1) 0) as [Hneg|Hok]; [lia|].
      injection H as <-.
      erewrite set_consumer_eq by (cbn; exact Hl).
      settle Hl.
    + injection H as <-.
      erewrite set_consumer_eq by (cbn; exact Hl).
      settle Hl.
  - (* consume *)
    specialize (Hlive eq_refl).
    unfold consume, Now in H. destruct (broken wid) eqn:Hbroken; cbn in H.
    + injection H as <-.
      erewrite set_consumer_eq by (cbn; exact Hl).
      settle Hl.
    + injection H as <-.
      erewrite set_consumer_eq by (cbn; exact Hl).
      settle Hl.
  - (* close(brokenWidgetChannel) *)
    specialize (Hlive eq_refl).
    pose proof (tally_lookup c_closes_broken _ _ _ Hl eq_refl).
    pose proof (tally_nonneg c_closes_done (consumers s)).
    unfold close in H.
    destruct (closed (brokenWidgetChannel s)) eqn:Hclosed.
    { absurd_count. }
    injection H as <-.
    erewrite set_consumer_eq by (cbn; exact Hl).
    settle Hl.
  - (* close(doneChannel) *)
    specialize (Hlive eq_refl).
    pose proof (tally_lookup c_closes_done _ _ _ Hl eq_refl).
    unfold close in H.
    destruct (closed (doneChannel s)) eqn:Hclosed.
    { absurd_count. }
    unfold consumer_return, wg_done, wg_add in H. cbn in H.
    destruct (Z.ltb_spec (consumptionWaitGroup s + -1) 0) as [Hneg|Hok]; [lia|].
    injection H as <-.
    erewrite set_consumer_eq by (cbn; exact Hl).
    settle Hl.
  - discriminate.
Qed.

Lemma handoff_step_inv (p c : nat) (s s' : State) :
  Inv cfg s -> handoff_step p c s = Some s' -> Inv cfg s'.
Proof.
  intros I H. unfold handoff_step in H.
  destruct (producers s !! p) as [[prod [|?|?|i wid|]]|] eqn:Hp; try discriminate.
  destruct (consumers s !! c) as [[con [|?|?| | |]]|] eqn:Hc; try discriminate.
  destruct (buf (widgetChannel s)) eqn:Hbuf; [|discriminate].
  destruct (closed (widgetChannel s)) eqn:Hclosed; [discriminate|].
  injection H as <-. open_inv I.
  pose proof (Forall_lookup_1 _ _ _ _ Ihr Hp) as Hrange.
  unfold held_in_range in Hrange. cbn in Hrange.
  pose proof (tally_lookup c_live _ _ _ Hc eq_refl).
  rewrite Hbuf in Iwid, Ibr. cbn in Iwid, Ibr.
  erewrite (set_producer_eq p _ _ prod) by (cbn; exact Hp).
  erewrite (set_consumer_eq c _ _ con) by (cbn; exact Hc).
  constructor; figures; cbn;
    rewrite ?(tally_insert _ _ _ _ _ Hp), ?(tally_insert _ _ _ _ _ Hc), ?length_insert;
    cbn; rewrite_flags; rewrite ?Hbuf; crush.
Qed.

Theorem exec_inv (s s' : State) (a : Action) :
  Inv cfg s -> exec env cfg s a = Some s' -> Inv cfg s'.
Proof.
  intros I H. unfold exec in H. destruct (over s); [discriminate|].
  destruct a.
  - exact (main_step_inv s s' I H).
  - exact (productionLine_step_inv s s' I H).
  - exact (consumptionLine_step_inv s s' I H).
  - exact (producer_step_inv p s s' I H).
  - exact (consumer_step_inv c s s' I H).
  - exact (handoff_step_inv p c s s' I H).
Qed.

Theorem run_inv (schedule : list Action) :
  forall s s' : State,
    Inv cfg s -> run env cfg s schedule = Some s' -> Inv cfg s'.
Proof.
  induction schedule as [|a rest IH]; intros s s' I H; cbn in H.
  - injection H as <-. exact I.
  - destruct (exec env cfg s a) as [s1|] eqn:Hstep; [|discriminate].
    apply (IH s1 s'); [|exact H]. exact (exec_inv s s1 a I Hstep).
Qed.

End Preservation.

End SlotSteps.

(** ** The slot-based version: runs are finite and do not get stuck *)

Module SlotRuns.
Import Go SlotBased Tally SlotInv SlotSteps.

(** How much each goroutine has left to do, counted in steps; a job still
    queued stands for a whole iteration of a producer and a widget still
    queued for a whole iteration of a consumer. *)
Definition main_rank (pc : MainPC) : Z :=
  match pc with
  | MCheck => 5 | MRecvBroken => 4 | MPrintStop => 3
  | MCloseQuit => 2 | MWait => 1 | MReturned => 0
  end.

Definition prodLine_rank (cfg : Config) (pc : ProdLinePC) : Z :=
  match pc with
  | PLStart => 4 + Z.of_nat (length (make_producerTable cfg))
  | PLWait => 3 | PLClose => 2 | PLDone => 1 | PLReturned => 0
  end.

Definition consLine_rank (cfg : Config) (pc : ConsLinePC) : Z :=
  match pc with
  | CLStart => 3 + 3 * Z.of_nat (length (make_consumerTable cfg))
  | CLWait => 2 | CLDone => 1 | CLReturned => 0
  end.

Definition producer_rank (x : Producer * ProducerPC) : Z :=
  match x.2 with
  | PSelect _ => 7 | PProduce _ => 6 | PSend _ _ => 5 | PRange => 1 | PReturned => 0
  end.

Definition consumer_rank (x : Consumer * ConsumerPC) : Z :=
  match x.2 with
  | CSelect _ => 5 | CConsume _ => 4 | CRange => 3
  | CCloseBroken => 2 | CCloseDone => 1 | CReturned => 0
  end.

Definition measure (cfg : Config) (s : State) : Z :=
  Z.b2z (match fault s with None => true | Some _ => false end)
  + main_rank (mainPC s) + prodLine_rank cfg (prodLinePC s)
  + consLine_rank cfg (consLinePC s)
  + 7 * Z.of_nat (length (buf (jobChannel s))) + weigh producer_rank (producers s)
  + 3 * Z.of_nat (length (buf (widgetChannel s))) + weigh consumer_rank (consumers s).

Lemma producer_rank_nonneg (x : Producer * ProducerPC) : 0 <= producer_rank x.
Proof. destruct x as [? []]; cbn; lia. Qed.

Lemma consumer_rank_nonneg (x : Consumer * ConsumerPC) : 0 <= consumer_rank x.
Proof. destruct x as [? []]; cbn; lia. Qed.

Lemma measure_nonneg (cfg : Config) (s : State) : 0 <= measure cfg s.
Proof.
  unfold measure.
  pose proof (weigh_nonneg producer_rank (producers s) producer_rank_nonneg).
  pose proof (weigh_nonneg consumer_rank (consumers s) consumer_rank_nonneg).
  destruct (fault s), (mainPC s), (prodLinePC s), (consLinePC s); cbn; lia.
Qed.

Lemma over_false (s : State) : over s = false -> fault s = None /\ mainPC s <> MReturned.
Proof. unfold over. destruct (fault s), (mainPC s); intros H; split; congruence. Qed.

Section Runs.
Variable env : Env.
Variable cfg : Config.

Ltac unpack H :=
  repeat match type of H with
    | context [match ?x with _ => _ end] => destruct x eqn:?
    | context [if ?x then _ else _] => destruct x eqn:?
    end;
  try discriminate; try (injection H as <-);
  repeat match goal with
    | E : (if ?b then _ else _) = _ |- _ => destruct b eqn:?; try discriminate E
    | E : match ?x with _ => _ end = _ |- _ => destruct x eqn:?; try discriminate E
    | E : Some _ = Some _ |- _ => injection E as <-
    | E : RecvOk _ _ = RecvOk _ _ |- _ => injection E as <- <-
    | E : SendOk _ = SendOk _ |- _ => injection E as <-
    end.

Ltac weigh_it s :=
  unfold measure; cbn;
  repeat match goal with
    | H : producers _ !! _ = Some _ |- _ =>
        rewrite ?(weigh_insert _ _ _ _ _ H); clear H
    | H : consumers _ !! _ = Some _ |- _ =>
        rewrite ?(weigh_insert _ _ _ _ _ H); clear H
    end;
  rewrite ?length_app, ?(weigh_fmap_const _ _ _ 1), ?(weigh_fmap_const _ _ _ 3)
    by reflexivity;
  cbn;
  repeat match goal with
    | H : ?x = _ |- context [?x] => rewrite H
    end;
  cbn;
  pose proof (weigh_nonneg producer_rank (producers s) producer_rank_nonneg);
  pose proof (weigh_nonneg consumer_rank (consumers s) consumer_rank_nonneg);
  try lia.

(** Every step uses up some of the measure. *)
Theorem exec_measure (s s' : State) (a : Action) :
  exec env cfg s a = Some s' -> measure cfg s' + 1 <= measure cfg s.
Proof.
  unfold exec. destruct (over s) eqn:Hover; [discriminate|].
  destruct (over_false s Hover) as [Hfault Hmain].
  destruct a; intros H.
  - unfold main_step, recv, close, wg_wait in H. unpack H; unfold panic; weigh_it s.
  - unfold productionLine_step, close, wg_wait, wg_done, wg_add in H.
    unpack H; unfold panic; weigh_it s.
  - unfold consumptionLine_step, close, wg_wait, wg_done, wg_add in H.
    unpack H; unfold panic; weigh_it s.
  - unfold producer_step, producer_return, recv, send, ready, recv, wg_done, wg_add in H.
    unpack H; unfold panic, emit, set_producer; cbn; rewrite ?Heqo; weigh_it s.
  - unfold consumer_step, consumer_return, recv, close, ready, recv, wg_done, wg_add in H.
    unpack H; unfold panic, emit, set_consumer; cbn; rewrite ?Heqo; weigh_it s.
  - unfold handoff_step in H.
    unpack H; unfold panic, emit, set_consumer, set_producer; cbn; rewrite ?Heqo, ?Heqo0; cbn; rewrite ?Heqo, ?Heqo0; weigh_it s.
Qed.

(** A run is no longer than the measure of the state it starts from. *)
Theorem run_length (schedule : list Action) :
  forall s s' : State,
    run env cfg s schedule = Some s' ->
    Z.of_nat (length schedule) + measure cfg s' <= measure cfg s.
Proof.
  induction schedule as [|a rest IH]; intros s s' H; cbn in H.
  - injection H as <-. cbn. lia.
  - destruct (exec env cfg s a) as [s1|] eqn:Hstep; [|discriminate].
    pose proof (exec_measure s s1 a Hstep). pose proof (IH s1 s' H).
    cbn [length]. lia.
Qed.

Lemma run_app (schedule1 schedule2 : list Action) (s : State) :
  run env cfg s (schedule1 ++ schedule2) =
  match run env cfg s schedule1 with
  | Some s1 => run env cfg s1 schedule2
  | None => None
  end.
Proof.
  revert s. induction schedule1 as [|a rest IH]; intros s; cbn; [reflexivity|].
  destruct (exec env cfg s a); [apply IH|reflexivity].
Qed.

(** *** No deadlock *)

Definition well_configured : Prop :=
  numKth cfg <= 0 \/
  (1 <= numKth cfg <= numWidgets cfg /\ 1 <= numProducers cfg /\ 1 <= numConsumers cfg).

Lemma length_producerTable :
  Z.of_nat (length (make_producerTable cfg)) = Z.max 0 (numProducers cfg).
Proof. unfold make_producerTable. rewrite length_fmap, length_seqZ. lia. Qed.

Lemma length_consumerTable :
  Z.of_nat (length (make_consumerTable cfg)) = Z.max 0 (numConsumers cfg).
Proof. unfold make_consumerTable. rewrite length_fmap, length_seqZ. lia. Qed.

Lemma live_producer_steps (s : State) (p : nat) (x : Producer * ProducerPC) :
  Inv cfg s -> producers s !! p = Some x -> p_live x = true ->
  exists s', producer_step env cfg p s = Some s'.
Proof.
  intros I Hl Hlive. destruct x as [prod pc]. unfold producer_step. rewrite Hl.
  open_inv I. destruct pc as [|i|i|i wid|]; try discriminate.
  - unfold recv. rewrite Ijc. unfold producer_return.
    destruct (buf (jobChannel s)); [|eauto]. destruct (wg_done _); eauto.
  - unfold producer_return. destruct (ready _); [|eauto]. destruct (wg_done _); eauto.
  - cbv zeta. destruct (if numKth cfg =? i then _ else _) as [[? ?]|]; eauto.
  - unfold send. destruct (closed (widgetChannel s)); [eauto|].
    pose proof (tally_lookup p_sends _ _ _ Hl eq_refl).
    nonnegs.
    destruct (Z.ltb_spec (Z.of_nat (length (buf (widgetChannel s)))) (cap (widgetChannel s)));
      [eauto|lia].
Qed.

Lemma live_consumer_steps (s : State) (c : nat) (x : Consumer * ConsumerPC) :
  Inv cfg s -> closed (widgetChannel s) = true ->
  consumers s !! c = Some x -> c_live x = true ->
  exists s', consumer_step env c s = Some s'.
Proof.
  intros I Hclosed Hl Hlive. destruct x as [con pc]. unfold consumer_step. rewrite Hl.
  destruct pc as [|wid|wid| | |]; try discriminate.
  - unfold recv. rewrite Hclosed. unfold consumer_return.
    destruct (buf (widgetChannel s)); [|eauto]. destruct (wg_done _); eauto.
  - unfold consumer_return. destruct (ready _); [|eauto]. destruct (wg_done _); eauto.
  - destruct (consume env con wid (world s)) as [[? ?] ?]. eauto.
  - destruct (close _); eauto.
  - unfold consumer_return. destruct (close _); [|eauto]. destruct (wg_done _); eauto.
Qed.

(** Once both lines have returned, a defect index within the range has
    made a consumer close the broken-widget channel. *)
Lemma broken_closed_at_end (s : State) :
  Inv cfg s -> well_configured ->
  prodLinePC s = PLReturned -> consLinePC s = CLReturned ->
  closed (quitChannel s) = false -> 0 < numKth cfg ->
  closed (brokenWidgetChannel s) = true.
Proof.
  intros I [Hk|(Hk & HP & HC)] Hpl Hcl Hquit Hpos; [lia|].
  open_inv I. rewrite Hpl in Ipl. rewrite Hcl in Icl.
  destruct Ipl as (Hwch & Hplive & Hplen). destruct Icl as (Hclive & Hclen).
  pose proof length_producerTable. pose proof length_consumerTable.
  specialize (Inodrop Hquit). specialize (Ijd Hquit ltac:(lia)).
  rewrite Ijd in Ik. cbn [tally] in Ik.
  pose proof (tally_mono (p_holds_slot (numKth cfg)) p_live (producers s)) as M1.
  pose proof (tally_mono p_sends_broken p_live (producers s)) as M2.
  pose proof (tally_mono c_has_broken c_live (consumers s)) as M3.
  pose proof (tally_mono c_closes_broken c_live (consumers s)) as M4.
  pose proof (tally_mono (is_dropped_slot (numKth cfg)) is_dropped (trace s)) as M5.
  pose proof (tally_mono is_discarded_broken is_discarded (trace s)) as M6.
  specialize (M1 ltac:(intros [? []]; cbn; congruence)).
  specialize (M2 ltac:(intros [? []]; cbn; congruence)).
  specialize (M3 ltac:(intros [? []]; cbn; congruence)).
  specialize (M4 ltac:(intros [? []]; cbn; congruence)).
  specialize (M5 ltac:(intros []; cbn; congruence)).
  specialize (M6 ltac:(intros []; cbn; congruence)).
  nonnegs.
  replace ((1 <=? numKth cfg) && (numKth cfg <=? numWidgets cfg)) with true in Ik
    by (symmetry; apply andb_true_iff; split; apply Z.leb_le; lia).
  cbn [Z.b2z] in Ik.
  destruct (closed (brokenWidgetChannel s)); [reflexivity|]. exfalso.
  cbn [Z.b2z] in Iraised.
  destruct (closed (doneChannel s)) eqn:Hdone; cbn [Z.b2z] in Idone; [lia|].
  specialize (Inodisc eq_refl). destruct (Idr eq_refl ltac:(lia)) as (Hbuf & _).
  rewrite Hbuf in Ibr. cbn [tally] in Ibr. lia.
Qed.

Theorem progress (s : State) :
  Inv cfg s -> well_configured -> over s = false ->
  exists a s', exec env cfg s a = Some s'.
Proof.
  intros I Hcfg Hover. unfold exec. rewrite Hover.
  destruct (over_false s Hover) as [Hfault Hmain].
  pose proof I as I'. open_inv I'.
  nonnegs.
  (* the production line has something to do *)
  destruct (prodLinePC s) eqn:Hpl.
  { exists RunProductionLine. unfold productionLine_step. rewrite Hpl. cbv zeta.
    destruct (wg_add _ _); eauto. }
  { destruct (Z.eq_dec (tally p_live (producers s)) 0) as [Hnone|Hsome].
    - exists RunProductionLine. unfold productionLine_step, wg_wait. rewrite Hpl, Ipwg, Hnone.
      eauto.
    - destruct (tally_pos_lookup p_live (producers s) ltac:(lia)) as (p & x & Hl & Hx).
      exists (RunProducer p). exact (live_producer_steps s p x I Hl Hx). }
  { exists RunProductionLine. unfold productionLine_step. rewrite Hpl.
    destruct (close _); eauto. }
  { exists RunProductionLine. unfold productionLine_step. rewrite Hpl.
    destruct (wg_done _); eauto. }
  destruct Ipl as (Hwch & Hplive & Hplen).
  (* the consumption line has something to do *)
  destruct (consLinePC s) eqn:Hcl.
  { exists RunConsumptionLine. unfold consumptionLine_step. rewrite Hcl. cbv zeta.
    destruct (wg_add _ _); eauto. }
  { destruct (Z.eq_dec (tally c_live (consumers s)) 0) as [Hnone|Hsome].
    - exists RunConsumptionLine. unfold consumptionLine_step, wg_wait.
      rewrite Hcl, Icwg, Hnone. eauto.
    - destruct (tally_pos_lookup c_live (consumers s) ltac:(lia)) as (c & x & Hl & Hx).
      exists (RunConsumer c). exact (live_consumer_steps s c x I Hwch Hl Hx). }
  { exists RunConsumptionLine. unfold consumptionLine_step. rewrite Hcl.
    destruct (wg_done _); eauto. }
  (* only the main goroutine is left *)
  exists RunMain. unfold main_step.
  destruct (mainPC s) eqn:Hpc; try congruence; eauto.
  - destruct Imain as (Hquit & Hpos).
    pose proof (broken_closed_at_end s I Hcfg Hpl Hcl Hquit Hpos) as Hb.
    unfold recv. rewrite Ibe, Hb. eauto.
  - destruct (close _); eauto.
  - unfold wg_wait. rewrite Iwg. cbn. eauto.
Qed.

(** From every state of a well-configured run some schedule leads to the
    end of the process. *)
Lemma reaches_end (fuel : nat) :
  forall s : State,
    Inv cfg s -> well_configured -> measure cfg s <= Z.of_nat fuel ->
    exists schedule s', run env cfg s schedule = Some s' /\ finished s'.
Proof.
  induction fuel as [|fuel IH]; intros s I Hcfg Hm.
  all: destruct (over s) eqn:Hover.
  all: try (exists [], s; split; [reflexivity|]; split; [|apply (inv_fault cfg s I)];
            unfold over in Hover; rewrite (inv_fault cfg s I) in Hover;
            destruct (mainPC s); congruence).
  - destruct (progress s I Hcfg Hover) as (a & s1 & Hstep).
    pose proof (exec_measure s s1 a Hstep). pose proof (measure_nonneg cfg s1). lia.
  - destruct (progress s I Hcfg Hover) as (a & s1 & Hstep).
    pose proof (exec_measure s s1 a Hstep).
    destruct (IH s1 (exec_inv env cfg s s1 a I Hstep) Hcfg ltac:(lia))
      as (schedule & s' & Hrun & Hfin).
    exists (a :: schedule), s'. split; [|exact Hfin]. cbn. rewrite Hstep. exact Hrun.
Qed.

(** *** What holds when [main] has returned *)

Lemma finished_lines (s : State) :
  Inv cfg s -> mainPC s = MReturned ->
  prodLinePC s = PLReturned /\ consLinePC s = CLReturned.
Proof.
  intros I Hpc. open_inv I. rewrite Hpc in Imain. destruct Imain as (_ & _ & Hwg).
  rewrite Hwg in Iwg. destruct (prodLinePC s), (consLinePC s); cbn in Iwg; try lia.
  split; reflexivity.
Qed.

Lemma produced_at_most (s : State) :
  Inv cfg s -> 0 <= units_produced s <= numWidgets cfg.
Proof. intros I. open_inv I. nonnegs. lia. Qed.

Lemma raised_at_most_once (s : State) : Inv cfg s -> 0 <= signal_raised s <= 1.
Proof.
  intros I. open_inv I. rewrite Iraised.
  destruct (closed (brokenWidgetChannel s)); cbn; lia.
Qed.

Lemma no_defect_no_broken (s : State) :
  Inv cfg s -> ~ (1 <= numKth cfg <= numWidgets cfg) ->
  broken_reports s = 0 /\ signal_raised s = 0 /\
  closed (brokenWidgetChannel s) = false /\ closed (quitChannel s) = false /\
  closed (doneChannel s) = false /\
  tally (is_produced_slot (numKth cfg)) (trace s) = 0.
Proof.
  intros I Hk. open_inv I. nonnegs.
  replace ((1 <=? numKth cfg) && (numKth cfg <=? numWidgets cfg)) with false in Ik
    by (symmetry; apply andb_false_iff;
        destruct (Z.leb_spec 1 (numKth cfg)), (Z.leb_spec (numKth cfg) (numWidgets cfg));
        auto; lia).
  cbn [Z.b2z] in Ik.
  assert (signal_raised s = 0) as Hr by (unfold signal_raised; lia).
  unfold signal_raised in Hr. rewrite Hr in Iraised, Idone.
  destruct (closed (brokenWidgetChannel s)) eqn:Hb; cbn in Iraised; [lia|].
  destruct (closed (doneChannel s)) eqn:Hd; cbn in Idone; [lia|].
  repeat split; try lia.
  destruct (closed (quitChannel s)) eqn:Hq; [|reflexivity].
  destruct (mainPC s); intuition congruence.
Qed.

Lemma finished_without_defect (s : State) :
  Inv cfg s -> mainPC s = MReturned ->
  ~ (1 <= numKth cfg <= numWidgets cfg) ->
  1 <= numProducers cfg -> 1 <= numConsumers cfg ->
  units_produced s = numWidgets cfg /\ units_consumed s = numWidgets cfg /\
  broken_reports s = 0.
Proof.
  intros I Hpc Hk HP HC.
  destruct (finished_lines s I Hpc) as (Hpl & Hcl).
  destruct (no_defect_no_broken s I Hk) as (Hbr & Hr & Hb & Hq & Hd & _).
  pose proof length_producerTable. pose proof length_consumerTable.
  open_inv I. rewrite Hpl in Ipl. rewrite Hcl in Icl.
  destruct Ipl as (Hwch & Hplive & Hplen). destruct Icl as (Hclive & Hclen).
  specialize (Inodrop Hq). specialize (Ijd Hq ltac:(lia)).
  specialize (Inodisc Hd). destruct (Idr Hd ltac:(lia)) as (Hbuf & _).
  rewrite Ijd in Islots. rewrite Hbuf in Iwid. cbn [length] in Islots, Iwid.
  pose proof (tally_mono p_holds p_live (producers s)) as M1.
  pose proof (tally_mono p_sends p_live (producers s)) as M2.
  pose proof (tally_mono c_has c_live (consumers s)) as M3.
  specialize (M1 ltac:(intros [? []]; cbn; congruence)).
  specialize (M2 ltac:(intros [? []]; cbn; congruence)).
  specialize (M3 ltac:(intros [? []]; cbn; congruence)).
  nonnegs. repeat split; lia.
Qed.

Lemma finished_with_defect (s : State) :
  Inv cfg s -> mainPC s = MReturned ->
  1 <= numKth cfg <= numWidgets cfg ->
  signal_raised s = 1 /\ broken_reports s = 1 /\
  1 <= tally (is_produced_slot (numKth cfg)) (trace s) /\
  1 <= units_produced s <= numWidgets cfg.
Proof.
  intros I Hpc Hk.
  destruct (finished_lines s I Hpc) as (Hpl & Hcl).
  pose proof (produced_at_most s I) as Hle.
  open_inv I. rewrite Hpc in Imain. destruct Imain as (Hqb & Hkq & _).
  rewrite Hcl in Icl. destruct Icl as (Hclive & _).
  specialize (Hkq ltac:(lia)). specialize (Hqb Hkq). rewrite Hqb in Iraised.
  cbn [Z.b2z] in Iraised.
  pose proof (tally_mono c_closes_broken c_live (consumers s)) as M4.
  specialize (M4 ltac:(intros [? []]; cbn; congruence)).
  pose proof (tally_mono (is_produced_slot (numKth cfg)) is_produced (trace s)) as M5.
  specialize (M5 ltac:(intros []; cbn; congruence)).
  nonnegs. repeat split; lia.
Qed.

End Runs.


End SlotRuns.

(** ** The slot-based version: slots are claimed in order *)

Module SlotOrder.
Import Go SlotBased Tally SlotInv SlotSteps SlotRuns.

Definition p_holds_below (k : Z) (x : Producer * ProducerPC) : bool :=
  match x.2 with PSelect i | PProduce i => i <? k | _ => false end.
Definition p_selects_below (k : Z) (x : Producer * ProducerPC) : bool :=
  match x.2 with PSelect i => i <? k | _ => false end.
Definition is_produced_below (k : Z) (e : Event) : bool :=
  match e with Produced _ i _ => i <? k | _ => false end.
Definition is_dropped_below (k : Z) (e : Event) : bool :=
  match e with Dropped _ i => i <? k | _ => false end.

(** The job channel holds the slots not yet claimed, in order; every slot
    below the defect index is queued, held, produced or dropped; and once
    the slot of the defect index is claimed, the producers that dropped or
    may still drop a slot below it leave out at least one producer, the
    one that claimed it. *)
Record Fifo (cfg : Config) (s : State) : Prop := mkFifo {
  fifo_jobs :
    exists c : Z,
      0 <= c <= numWidgets cfg /\
      buf (jobChannel s) = seqZ (c + 1) (numWidgets cfg - c);
  fifo_start :
    prodLinePC s = PLStart -> buf (jobChannel s) = seqZ 1 (numWidgets cfg);
  fifo_below :
    tally (fun i => i <? numKth cfg) (buf (jobChannel s))
    + tally (p_holds_below (numKth cfg)) (producers s)
    + tally (is_produced_below (numKth cfg)) (trace s)
    + tally (is_dropped_below (numKth cfg)) (trace s)
    = Z.max 0 (Z.min (numKth cfg - 1) (numWidgets cfg));
  fifo_droppers :
    1 <= numKth cfg <= numWidgets cfg ->
    1 <= tally (fun i => i =? numKth cfg) (buf (jobChannel s)) \/
    tally (is_dropped_below (numKth cfg)) (trace s)
    + tally (p_selects_below (numKth cfg)) (producers s) + 1
    <= Z.of_nat (length (make_producerTable cfg))
}.

Lemma init_fifo (cfg : Config) (s : State) :
  WidgetProductionConsumptionLine_init cfg = Started s -> Fifo cfg s.
Proof.
  intros Hs.
  destruct (init_start_state cfg s Hs) as (-> & Hpos). unfold start_state.
  constructor; cbn.
  - exists 0. split; [lia|]. f_equal. lia.
  - reflexivity.
  - rewrite tally_seqZ_lt by lia. lia.
  - intros Hk. left. rewrite tally_seqZ_eq by lia.
    destruct (Z.leb_spec 1 (numKth cfg)), (Z.ltb_spec (numKth cfg) (1 + numWidgets cfg));
      cbn; lia.
Qed.

Section Preservation.
Variable env : Env.
Variable cfg : Config.

Ltac unpack H :=
  repeat match type of H with
    | context [match ?x with _ => _ end] => destruct x eqn:?
    | context [if ?x then _ else _] => destruct x eqn:?
    end;
  try discriminate; try (injection H as <-).

Lemma fifo_frame (s s' : State) :
  buf (jobChannel s') = buf (jobChannel s) ->
  prodLinePC s' = prodLinePC s ->
  producers s' = producers s ->
  tally (is_produced_below (numKth cfg)) (trace s')
  = tally (is_produced_below (numKth cfg)) (trace s) ->
  tally (is_dropped_below (numKth cfg)) (trace s')
  = tally (is_dropped_below (numKth cfg)) (trace s) ->
  Fifo cfg s -> Fifo cfg s'.
Proof.
  intros Hj Hpl Hp Ht1 Ht2 [Fj Fs Fb Fd].
  constructor; rewrite ?Hj, ?Hpl, ?Hp, ?Ht1, ?Ht2; assumption.
Qed.

Ltac framed :=
  apply fifo_frame; unfold set_consumer, set_producer, panic, emit; cbn;
  repeat match goal with
    | |- context [match ?x with _ => _ end] => destruct x
    end;
  reflexivity.

Lemma main_step_fifo (s s' : State) :
  Fifo cfg s -> main_step cfg s = Some s' -> Fifo cfg s'.
Proof. intros F H. revert F. unfold main_step in H. unpack H; framed. Qed.

Lemma consumptionLine_step_fifo (s s' : State) :
  Fifo cfg s -> consumptionLine_step cfg s = Some s' -> Fifo cfg s'.
Proof. intros F H. revert F. unfold consumptionLine_step in H. unpack H; framed. Qed.

Lemma consumer_step_fifo (c : nat) (s s' : State) :
  Fifo cfg s -> consumer_step env c s = Some s' -> Fifo cfg s'.
Proof.
  intros F H. revert F. unfold consumer_step, consumer_return in H. unpack H; framed.
Qed.

Lemma productionLine_step_fifo (s s' : State) :
  Inv cfg s -> Fifo cfg s -> productionLine_step cfg s = Some s' -> Fifo cfg s'.
Proof.
  intros I F H. unfold productionLine_step in H.
  destruct (prodLinePC s) eqn:Hpl.
  - cbv zeta in H. destruct (wg_add _ _); injection H as <-; [|revert F; framed].
    destruct F as [Fj Fs Fb Fd]. specialize (Fs Hpl).
    pose proof (inv_prodline cfg s I) as Ipl. rewrite Hpl in Ipl. destruct Ipl as (Hnil & _).
    rewrite Hnil in Fb. cbn [tally] in Fb.
    constructor; cbn.
    + exact Fj.
    + discriminate.
    + rewrite (tally_spawn _ _ _ false) by reflexivity. lia.
    + intros Hk. left. rewrite Fs, tally_seqZ_eq by lia.
      destruct (Z.leb_spec 1 (numKth cfg)), (Z.ltb_spec (numKth cfg) (1 + numWidgets cfg));
        cbn; lia.
  - revert F. unpack H; try framed.
    all: intros [Fj Fs Fb Fd]; constructor; cbn; try assumption; discriminate.
  - revert F. unpack H; try framed.
    all: intros [Fj Fs Fb Fd]; constructor; cbn; try assumption; discriminate.
  - revert F. unpack H; try framed.
    all: intros [Fj Fs Fb Fd]; constructor; cbn; try assumption; discriminate.
  - discriminate.
Qed.

Lemma handoff_step_fifo (p c : nat) (s s' : State) :
  Fifo cfg s -> handoff_step p c s = Some s' -> Fifo cfg s'.
Proof.
  intros F H. unfold handoff_step in H.
  destruct (producers s !! p) as [[prod [|?|?|i wid|]]|] eqn:Hp; try discriminate.
  destruct (consumers s !! c) as [[con [|?|?| | |]]|] eqn:Hc; try discriminate.
  destruct (buf (widgetChannel s)); [|discriminate].
  destruct (closed (widgetChannel s)); [discriminate|].
  injection H as <-. destruct F as [Fj Fs Fb Fd].
  erewrite (set_producer_eq p _ _ prod) by (cbn; exact Hp).
  erewrite (set_consumer_eq c _ _ con) by (cbn; exact Hc).
  constructor; cbn; rewrite ?(tally_insert _ _ _ _ _ Hp); cbn;
    rewrite ?Z.sub_0_r, ?Z.add_0_r; assumption.
Qed.

(** While the slot of the defect index is queued, nobody has been told to
    stop. *)
Lemma quit_open_while_queued (s : State) :
  Inv cfg s -> 1 <= tally (fun i => i =? numKth cfg) (buf (jobChannel s)) ->
  closed (quitChannel s) = false /\ units_dropped s = 0.
Proof.
  intros I Hq. open_inv I. nonnegs. b2z_bounds.
  destruct (closed (quitChannel s)) eqn:Hquit; [exfalso|split; [reflexivity|auto]].
  assert (closed (brokenWidgetChannel s) = true) as Hb
    by (destruct (mainPC s); intuition congruence).
  rewrite Hb in Iraised. cbn [Z.b2z] in Iraised. lia.
Qed.

Ltac settled Fd :=
  rewrite ?Z.sub_0_r, ?Z.add_0_r;
  first [ assumption | congruence | lia
        | intros Hk; destruct (Fd Hk); [left|right];
          repeat match goal with
            | |- context [Z.b2z (?a <? ?b)] => destruct (a <? b)
            end; cbn [Z.b2z] in *; lia ].

Lemma producer_step_fifo (p : nat) (s s' : State) :
  Inv cfg s -> Fifo cfg s -> producer_step env cfg p s = Some s' -> Fifo cfg s'.
Proof.
  intros I F H. unfold producer_step in H.
  destruct (producers s !! p) as [[prod pc]|] eqn:Hl; [|discriminate].
  destruct F as [Fj Fs Fb Fd].
  assert (prodLinePC s <> PLStart) as Hstarted.
  { intros Hpl. pose proof (inv_prodline cfg s I) as Ipl. rewrite Hpl in Ipl.
    destruct Ipl as (Hnil & _). rewrite Hnil in Hl. discriminate. }
  destruct pc as [|i|i|i wid|].
  - (* a slot is claimed *)
    unfold recv in H. destruct (buf (jobChannel s)) as [|i rest] eqn:Hjobs.
    + unfold producer_return in H.
      destruct (closed (jobChannel s)); [|discriminate].
      destruct (wg_done _); injection H as <-.
      * erewrite set_producer_eq by (cbn; exact Hl).
        constructor; cbn; rewrite ?(tally_insert _ _ _ _ _ Hl), ?Hjobs; cbn;
          rewrite ?Z.sub_0_r, ?Z.add_0_r; try assumption; try congruence.
      * constructor; cbn; rewrite ?Hjobs; assumption.
    + injection H as <-.
      erewrite set_producer_eq by (cbn; exact Hl).
      destruct Fj as (c & Hc & Hseq).
      assert (0 < numWidgets cfg - c) as Hmore.
      { destruct (Z.lt_ge_cases 0 (numWidgets cfg - c)) as [?|Hle]; [assumption|].
        rewrite seqZ_nil in Hseq by lia. discriminate. }
      rewrite seqZ_cons in Hseq by lia. injection Hseq as -> ->.
      constructor; cbn; rewrite ?(tally_insert _ _ _ _ _ Hl); cbn.
      * exists (c + 1). split; [lia|]. f_equal; lia.
      * congruence.
      * cbn in Fb. lia.
      * intros Hk. specialize (Fd Hk). cbn [tally] in Fd.
        rewrite tally_seqZ_eq in * by lia.
        destruct (Z.eqb_spec (c + 1) (numKth cfg)) as [Heq|Hne]; cbn [Z.b2z] in *.
        -- right.
           destruct (quit_open_while_queued s I) as (_ & Hnodrop).
           { rewrite Hjobs. cbn [tally].
             pose proof (tally_nonneg (fun i => i =? numKth cfg)
                           (seqZ (Z.succ (c + 1)) (Z.pred (numWidgets cfg - c)))).
             destruct (Z.eqb_spec (c + 1) (numKth cfg)); [cbn; lia|contradiction]. }
           pose proof (tally_mono (is_dropped_below (numKth cfg)) is_dropped (trace s))
             as M.
           specialize (M ltac:(intros []; cbn; congruence)).
           pose proof (tally_nonneg (is_dropped_below (numKth cfg)) (trace s)).
           pose proof (tally_lookup_false (p_selects_below (numKth cfg)) _ _ _ Hl eq_refl).
           assert (length (producers s) = length (make_producerTable cfg)) as Hlen.
           { pose proof (inv_prodline cfg s I) as Ipl.
             destruct (prodLinePC s); try congruence; intuition. }
           unfold units_dropped in Hnodrop.
           destruct (Z.ltb_spec (c + 1) (numKth cfg)); [lia|]. cbn [Z.b2z]. lia.
        -- destruct (Z.leb_spec (Z.succ (c + 1)) (numKth cfg)),
             (Z.ltb_spec (numKth cfg) (Z.succ (c + 1) + Z.pred (numWidgets cfg - c))),
             (Z.ltb_spec (c + 1) (numKth cfg)); cbn [andb Z.b2z] in *;
             (left; lia) || (right; destruct Fd; lia).
  - (* the select *)
    unfold producer_return, wg_done, wg_add in H. cbn in H.
    pose proof (tally_lookup p_live _ _ _ Hl eq_refl).
    rewrite (inv_pwg cfg s I) in H.
    destruct (ready (quitChannel s));
      [destruct (Z.ltb_spec (tally p_live (producers s) + -1) 0); [lia|]|];
      injection H as <-.
    + erewrite set_producer_eq by (cbn; exact Hl).
      constructor; cbn; rewrite ?(tally_insert _ _ _ _ _ Hl); cbn; settled Fd.
    + erewrite set_producer_eq by (cbn; exact Hl).
      constructor; cbn; rewrite ?(tally_insert _ _ _ _ _ Hl); cbn; settled Fd.
  - (* the production *)
    cbv zeta in H.
    destruct (if numKth cfg =? i then _ else _) as [[wid w']|]; injection H as <-.
    + erewrite set_producer_eq by (cbn; exact Hl).
      constructor; cbn; rewrite ?(tally_insert _ _ _ _ _ Hl); cbn; settled Fd.
    + constructor; cbn; settled Fd.
  - (* the send *)
    unfold send in H.
    destruct (closed (widgetChannel s));
      [|destruct (Z.of_nat (length (buf (widgetChannel s))) <? cap (widgetChannel s))];
      try discriminate; injection H as <-.
    + constructor; cbn; settled Fd.
    + erewrite set_producer_eq by (cbn; exact Hl).
      constructor; cbn; rewrite ?(tally_insert _ _ _ _ _ Hl); cbn; settled Fd.
  - discriminate.
Qed.

Theorem exec_fifo (s s' : State) (a : Action) :
  Inv cfg s -> Fifo cfg s -> exec env cfg s a = Some s' -> Fifo cfg s'.
Proof.
  intros I F H. unfold exec in H. destruct (over s); [discriminate|].
  destruct a as [| | |p|c|p c].
  - exact (main_step_fifo s s' F H).
  - exact (productionLine_step_fifo s s' I F H).
  - exact (consumptionLine_step_fifo s s' F H).
  - exact (producer_step_fifo p s s' I F H).
  - exact (consumer_step_fifo c s s' F H).
  - exact (handoff_step_fifo p c s s' F H).
Qed.

Theorem run_fifo (schedule : list Action) :
  forall s s' : State,
    Inv cfg s -> Fifo cfg s -> run env cfg s schedule = Some s' -> Fifo cfg s'.
Proof.
  induction schedule as [|a rest IH]; intros s s' I F H; cbn in H.
  - injection H as <-. exact F.
  - destruct (exec env cfg s a) as [s1|] eqn:Hstep; [|discriminate].
    apply (IH s1 s'); [| |exact H].
    + exact (exec_inv env cfg s s1 a I Hstep).
    + exact (exec_fifo s s1 a I F Hstep).
Qed.

(** When [main] has returned in a run with a defect index within the
    range, at most one slot per other producer is missing below it. *)
Lemma finished_lower_bound (s : State) :
  Inv cfg s -> Fifo cfg s -> mainPC s = MReturned ->
  1 <= numKth cfg <= numWidgets cfg -> 1 <= numProducers cfg ->
  numKth cfg - (numProducers cfg - 1) <= units_produced s.
Proof.
  intros I [Fj Fs Fb Fd] Hpc Hk HP.
  destruct (finished_with_defect cfg s I Hpc Hk) as (_ & _ & Hslot & _).
  destruct (finished_lines cfg s I Hpc) as (Hpl & _).
  pose proof (length_producerTable cfg) as HlenP.
  open_inv I. rewrite Hpl in Ipl. destruct Ipl as (_ & Hplive & _).
  nonnegs. b2z_bounds.
  assert (tally (fun i => i =? numKth cfg) (buf (jobChannel s)) = 0) as Hclaimed by lia.
  destruct (Fd Hk) as [Hq|Hdrop]; [lia|].
  destruct Fj as (c & Hc & Hseq). rewrite Hseq in Hclaimed, Fb.
  rewrite tally_seqZ_eq in Hclaimed by lia. rewrite tally_seqZ_lt in Fb by lia.
  assert (numKth cfg <= c) as Hkc.
  { destruct (Z.leb_spec (c + 1) (numKth cfg)),
      (Z.ltb_spec (numKth cfg) (c + 1 + (numWidgets cfg - c))); cbn in Hclaimed; lia. }
  pose proof (tally_mono (p_holds_below (numKth cfg)) p_live (producers s)) as M1.
  specialize (M1 ltac:(intros [? []]; cbn; congruence)).
  pose proof (tally_disjoint (is_produced_below (numKth cfg))
                (is_produced_slot (numKth cfg)) is_produced (trace s)) as M2.
  specialize (M2 ltac:(intros []; cbn; congruence) ltac:(intros []; cbn; congruence)).
  assert (tally (is_produced_below (numKth cfg)) (trace s)
          + tally (is_produced_slot (numKth cfg)) (trace s)
          <= tally is_produced (trace s)) as Hsum.
  { apply M2. intros [? i ?| | | |]; cbn; try congruence.
    intros Hlt. apply Z.ltb_lt in Hlt. apply Z.eqb_neq. lia. }
  pose proof (tally_nonneg (p_holds_below (numKth cfg)) (producers s)).
  pose proof (tally_nonneg (p_selects_below (numKth cfg)) (producers s)).
  pose proof (tally_nonneg (is_dropped_below (numKth cfg)) (trace s)).
  pose proof (tally_nonneg (is_produced_below (numKth cfg)) (trace s)).
  lia.
Qed.

End Preservation.

End SlotOrder.

(** ** The slot-based version: no widgets without workers *)

Module SlotStaff.
Import Go SlotBased Tally SlotInv SlotSteps SlotRuns.

(** Widgets are made by producers and reports printed by consumers: a run
    whose table of producers is empty has produced nothing, and one whose
    table of consumers is empty has consumed nothing. *)
Definition Staffed (s : State) : Prop :=
  (producers s = [] -> units_produced s = 0) /\
  (consumers s = [] -> units_consumed s = 0).

Lemma init_staffed (cfg : Config) (s : State) :
  WidgetProductionConsumptionLine_init cfg = Started s -> Staffed s.
Proof.
  intros Hs. destruct (init_start_state cfg s Hs) as (-> & _). split; reflexivity.
Qed.

Ltac unpack H :=
  repeat match type of H with
    | context [match ?x with _ => _ end] => destruct x eqn:?
    | context [if ?x then _ else _] => destruct x eqn:?
    end;
  try discriminate; try (injection H as <-);
  repeat match goal with
    | E : (if ?b then _ else _) = _ |- _ => destruct b eqn:?; try discriminate E
    | E : match ?x with _ => _ end = _ |- _ => destruct x eqn:?; try discriminate E
    | E : Some _ = Some _ |- _ => injection E as <-
    | E : RecvOk _ _ = RecvOk _ _ |- _ => injection E as <- <-
    | E : SendOk _ = SendOk _ |- _ => injection E as <-
    | E : (_, _) = (_, _) |- _ => injection E; clear E; intros; subst
    end.

Ltac simpl_state :=
  unfold panic, emit, set_producer, set_consumer; cbn;
  repeat (match goal with
          | H : ?l !! ?p = Some _ |- context [?l !! ?p] => rewrite H
          end; cbn).

Lemma insert_not_nil {A} (l : list A) (j : nat) (x y : A) :
  l !! j = Some x -> <[j := y]> l <> [].
Proof.
  intros Hl Hnil. apply (f_equal length) in Hnil. rewrite length_insert in Hnil.
  apply lookup_lt_Some in Hl. cbn in Hnil. lia.
Qed.

Ltac settle S :=
  destruct S as (SP & SC); unfold units_produced, units_consumed in *;
  split; intros Hnil; cbn in *;
  repeat match goal with
    | Hl : ?l !! ?j = Some _, Hn : <[?j := _]> ?l = [] |- _ =>
        exfalso; exact (insert_not_nil _ _ _ _ Hl Hn)
    | Hl : ?l !! ?j = Some _, Hn : ?l = [] |- _ =>
        rewrite Hn in Hl; discriminate Hl
    end;
  try solve [ auto | exact (SP Hnil) | exact (SC Hnil) ].

Section Preservation.
Variable env : Env.
Variable cfg : Config.

Theorem exec_staffed (s s' : State) (a : Action) :
  Inv cfg s -> Staffed s -> exec env cfg s a = Some s' -> Staffed s'.
Proof.
  intros I S H. unfold exec in H. destruct (over s); [discriminate|].
  destruct a.
  - unfold main_step, recv, close, wg_wait in H. unpack H; simpl_state; settle S.
  - pose proof (inv_prodline cfg s I) as Ipl.
    unfold productionLine_step, close, wg_wait, wg_done, wg_add in H.
    unpack H; simpl_state; settle S.
    destruct Ipl as (Hnone & _). exact (SP Hnone).
  - pose proof (inv_consline cfg s I) as Icl.
    unfold consumptionLine_step, close, wg_wait, wg_done, wg_add in H.
    unpack H; simpl_state; settle S.
    destruct Icl as (Hnone & _). exact (SC Hnone).
  - unfold producer_step, producer_return, recv, send, ready, recv, wg_done, wg_add in H.
    unpack H; simpl_state; settle S.
  - unfold consumer_step, consumer_return, consume, Since, recv, close, ready, recv,
      wg_done, wg_add, Now in H.
    unpack H; simpl_state; settle S.
  - unfold handoff_step in H. unpack H; simpl_state; settle S.
Qed.

Theorem run_staffed (schedule : list Action) :
  forall s s' : State,
    Inv cfg s -> Staffed s -> run env cfg s schedule = Some s' -> Staffed s'.
Proof.
  induction schedule as [|a rest IH]; intros s s' I S H; cbn in H.
  - injection H as <-. exact S.
  - destruct (exec env cfg s a) as [s1|] eqn:Hstep; [|discriminate].
    apply (IH s1 s'); [| |exact H].
    + exact (exec_inv env cfg s s1 a I Hstep).
    + exact (exec_staffed s s1 a I S Hstep).
Qed.

End Preservation.

(** What a run without a defect has made when [main] returns: every slot
    when there is a producer, and a report for each widget when there is a
    consumer as well. *)
Lemma finished_counts (cfg : Config) (s : State) :
  Inv cfg s -> Staffed s -> mainPC s = MReturned ->
  ~ (1 <= numKth cfg <= numWidgets cfg) ->
  units_produced s = (if 1 <=? numProducers cfg then numWidgets cfg else 0) /\
  units_consumed s =
    (if (1 <=? numProducers cfg) && (1 <=? numConsumers cfg) then numWidgets cfg else 0) /\
  broken_reports s = 0.
Proof.
  intros I (SP & SC) Hpc Hk.
  destruct (Z.leb_spec 1 (numProducers cfg)) as [HP|HP];
    destruct (Z.leb_spec 1 (numConsumers cfg)) as [HC|HC]; cbn [andb].
  - exact (finished_without_defect cfg s I Hpc Hk HP HC).
  - (* producers, no consumer *)
    destruct (finished_lines cfg s I Hpc) as (Hpl & Hcl).
    destruct (no_defect_no_broken cfg s I Hk) as (Hbr & Hr & Hb & Hq & Hd & _).
    pose proof (length_producerTable cfg). pose proof (length_consumerTable cfg).
    assert (consumers s = []) as Hnone.
    { pose proof (inv_consline cfg s I) as Icl. rewrite Hcl in Icl.
      destruct Icl as (_ & Hlen). destruct (consumers s); [reflexivity|cbn in Hlen; lia]. }
    specialize (SC Hnone).
    open_inv I. rewrite Hpl in Ipl. destruct Ipl as (Hwch & Hplive & Hplen).
    specialize (Inodrop Hq). specialize (Ijd Hq ltac:(lia)).
    rewrite Ijd in Islots. cbn [length] in Islots.
    pose proof (tally_mono p_holds p_live (producers s)) as M1.
    specialize (M1 ltac:(intros [? []]; cbn; congruence)).
    nonnegs. repeat split; lia.
  - (* no producer *)
    destruct (finished_lines cfg s I Hpc) as (Hpl & Hcl).
    destruct (no_defect_no_broken cfg s I Hk) as (Hbr & _).
    pose proof (length_producerTable cfg).
    assert (producers s = []) as Hnone.
    { pose proof (inv_prodline cfg s I) as Ipl. rewrite Hpl in Ipl.
      destruct Ipl as (_ & _ & Hlen). destruct (producers s); [reflexivity|cbn in Hlen; lia]. }
    specialize (SP Hnone).
    open_inv I. rewrite Hnone in Iwid. cbn in Iwid. nonnegs. repeat split; lia.
  - destruct (finished_lines cfg s I Hpc) as (Hpl & Hcl).
    destruct (no_defect_no_broken cfg s I Hk) as (Hbr & _).
    pose proof (length_producerTable cfg).
    assert (producers s = []) as Hnone.
    { pose proof (inv_prodline cfg s I) as Ipl. rewrite Hpl in Ipl.
      destruct Ipl as (_ & _ & Hlen). destruct (producers s); [reflexivity|cbn in Hlen; lia]. }
    specialize (SP Hnone).
    open_inv I. rewrite Hnone in Iwid. cbn in Iwid. nonnegs. repeat split; lia.
Qed.

End SlotStaff.

(** ** The slot-based version: the properties of the specification *)

Module SlotClaims.
Import Go SlotBased Tally SlotInv SlotSteps SlotRuns SlotOrder SlotStaff.

(** A world for the runs shown below: every call of [rand.Intn] returns 0
    and the clock counts its readings. *)
Definition quiet : Env := mkEnv (fun _ => 0) (fun n => Z.of_nat n).

Lemma reachable_inv (env : Env) (cfg : Config) (s0 s : State) (schedule : list Action) :
  WidgetProductionConsumptionLine_init cfg = Started s0 ->
  run env cfg s0 schedule = Some s ->
  Inv cfg s /\ Fifo cfg s.
Proof.
  intros H0 Hrun. pose proof (init_inv cfg s0 H0) as I0. split.
  - exact (run_inv env cfg schedule s0 s I0 Hrun).
  - exact (run_fifo env cfg schedule s0 s I0 (init_fifo cfg s0 H0) Hrun).
Qed.

Lemma reachable_staffed (env : Env) (cfg : Config) (s0 s : State)
      (schedule : list Action) :
  WidgetProductionConsumptionLine_init cfg = Started s0 ->
  run env cfg s0 schedule = Some s ->
  Staffed s.
Proof.
  intros H0 Hrun.
  exact (run_staffed env cfg schedule s0 s (init_inv cfg s0 H0) (init_staffed cfg s0 H0) Hrun).
Qed.

(** *** C1 *)

(** C1: in every run, whatever the schedule, a widget produced from job
    slot [i] has a slot between 1 and [numWidgets], and it is broken exactly
    when [i] is the defect index [numKth]. *)
Theorem broken_iff_defect_slot (env : Env) (cfg : Config) (s0 s : State)
    (schedule : list Action) (p : nat) (i : Z) (wid : Widget) :
  WidgetProductionConsumptionLine_init cfg = Started s0 ->
  run env cfg s0 schedule = Some s ->
  In (Produced p i wid) (trace s) ->
  1 <= i <= numWidgets cfg /\ (broken wid = true <-> i = numKth cfg).
Proof.
  intros H0 Hrun Hin.
  destruct (reachable_inv env cfg s0 s schedule H0 Hrun) as (I & _).
  pose proof (inv_flag cfg s I) as Hflag.
  rewrite Forall_forall in Hflag.
  specialize (Hflag (Produced p i wid) ltac:(apply list_elem_of_In; exact Hin)).
  cbn in Hflag. destruct Hflag as (Hb & Hrange). split; [exact Hrange|].
  rewrite Hb. split; intros H.
  - apply Z.eqb_eq in H. lia.
  - apply Z.eqb_eq. lia.
Qed.

(** Two producers, two slots, the second one broken: a run to the end in
    which producer 0 takes slot 1 and is then overtaken by producer 1. *)
Definition overtaking : Config := mkConfig 2 2 1 2.

Definition overtaking_schedule : list Action :=
  [RunMain; RunProductionLine; RunConsumptionLine;
   RunProducer 0; RunProducer 1; RunProducer 1; RunProducer 1; RunProducer 1;
   RunConsumer 0; RunConsumer 0; RunConsumer 0; RunConsumer 0; RunConsumer 0;
   RunMain; RunMain; RunMain;
   RunProducer 0; RunProducer 1;
   RunProductionLine; RunProductionLine; RunProductionLine;
   RunConsumptionLine; RunConsumptionLine; RunMain].

Definition end_of (cfg : Config) (schedule : list Action) : State :=
  match run quiet cfg (start_state cfg) schedule with
  | Some s => s
  | None => start_state cfg
  end.

Definition overtaking_widget : Widget :=
  mkWidget "aaaaaaaaaaaaaaaa-aaaaaaaaaaaaaaa" "producer_1" 0 true.

Lemma broken_iff_defect_slot_witness :
  1 <= 2 <= numWidgets overtaking /\
  (broken overtaking_widget = true <-> 2 = numKth overtaking).
Proof.
  apply (broken_iff_defect_slot quiet overtaking (start_state overtaking)
           (end_of overtaking overtaking_schedule) overtaking_schedule 1%nat 2
           overtaking_widget).
  - vm_compute. reflexivity.
  - vm_compute. reflexivity.
  - vm_compute. tauto.
Defined.

(** *** C2 *)

(** C2, as the code has it.  Take a run that has started (the buffers
    of [numWidgets] elements were allocated, so [numWidgets >= 0]) with a
    defect index [numKth <= 0] and fewer than [2^31] producers and
    consumers (the wait groups of the library count in 32 bits).  Every
    schedule is finite (bounded by the measure of the start), no goroutine
    panics, a state in which the process is not over always has a next step
    (no deadlock), some schedule reaches the return of [main], and whenever
    [main] has returned no widget was reported broken, exactly [numWidgets]
    widgets were produced if there is a producer and none otherwise, and
    exactly [numWidgets] were consumed if there is a producer and a consumer
    and none otherwise. *)
Theorem no_defect_run_completes (env : Env) (cfg : Config) (s0 : State) :
  numKth cfg <= 0 ->
  numProducers cfg < 2147483648 -> numConsumers cfg < 2147483648 ->
  WidgetProductionConsumptionLine_init cfg = Started s0 ->
  (forall (schedule : list Action) (s : State),
      run env cfg s0 schedule = Some s ->
      Z.of_nat (length schedule) <= measure cfg s0 /\
      fault s = None /\
      (over s = false -> exists a s', exec env cfg s a = Some s') /\
      (mainPC s = MReturned ->
       units_produced s = (if 1 <=? numProducers cfg then numWidgets cfg else 0) /\
       units_consumed s =
         (if (1 <=? numProducers cfg) && (1 <=? numConsumers cfg)
          then numWidgets cfg else 0) /\
       broken_reports s = 0)) /\
  (exists (schedule : list Action) (s : State),
      run env cfg s0 schedule = Some s /\ finished s).
Proof.
  intros Hk _ _ H0.
  destruct (init_start_state cfg s0 H0) as (Hs0 & Hn).
  assert (well_configured cfg) as Hcfg by (left; exact Hk).
  split.
  - intros schedule s Hrun.
    destruct (reachable_inv env cfg _ s schedule H0 Hrun) as (I & _).
    pose proof (reachable_staffed env cfg _ s schedule H0 Hrun) as S.
    pose proof (run_length env cfg schedule _ s Hrun).
    pose proof (measure_nonneg cfg s).
    split; [lia|]. split; [exact (inv_fault cfg s I)|]. split.
    + exact (progress env cfg s I Hcfg).
    + intros Hpc. apply (finished_counts cfg s I S Hpc); lia.
  - pose proof (measure_nonneg cfg s0) as Hm.
    apply (reaches_end env cfg (Z.to_nat (measure cfg s0)));
      [exact (init_inv cfg _ H0)|exact Hcfg|lia].
Qed.

Definition plain : Config := mkConfig 1 1 1 (-1).

Lemma no_defect_run_completes_witness :
  (forall (schedule : list Action) (s : State),
      run quiet plain (start_state plain) schedule = Some s ->
      Z.of_nat (length schedule) <= measure plain (start_state plain) /\
      fault s = None /\
      (over s = false -> exists a s', exec quiet plain s a = Some s') /\
      (mainPC s = MReturned ->
       units_produced s = (if 1 <=? numProducers plain then numWidgets plain else 0) /\
       units_consumed s =
         (if (1 <=? numProducers plain) && (1 <=? numConsumers plain)
          then numWidgets plain else 0) /\
       broken_reports s = 0)) /\
  (exists (schedule : list Action) (s : State),
      run quiet plain (start_state plain) schedule = Some s /\ finished s).
Proof.
  apply (no_defect_run_completes quiet plain (start_state plain)).
  - vm_compute. congruence.
  - vm_compute. reflexivity.
  - vm_compute. reflexivity.
  - vm_compute. reflexivity.
Defined.

(** C2 as the specification words it fails without a producer: the run
    with [-n 1 -p 0 -c 1 -k -1] returns from [main] having produced and
    consumed nothing. *)
Definition no_producer : Config := mkConfig 1 0 1 (-1).

Definition no_producer_schedule : list Action :=
  [RunMain; RunProductionLine; RunProductionLine; RunProductionLine;
   RunProductionLine; RunConsumptionLine; RunConsumer 0; RunConsumptionLine;
   RunConsumptionLine; RunMain].

Lemma no_producer_nothing_produced :
  exists s0 s : State,
    0 <= numWidgets no_producer /\ numKth no_producer <= 0 /\
    WidgetProductionConsumptionLine_init no_producer = Started s0 /\
    run quiet no_producer s0 no_producer_schedule = Some s /\
    finished s /\
    units_produced s = 0 /\ units_consumed s = 0 /\ numWidgets no_producer = 1.
Proof.
  eexists _, _. split; [vm_compute; congruence|]. split; [vm_compute; congruence|].
  split; [vm_compute; reflexivity|]. split; [vm_compute; reflexivity|].
  repeat split.
Qed.

(** Without a consumer the widgets are produced and stay in the channel. *)
Definition no_consumer : Config := mkConfig 1 1 0 (-1).

Example no_consumer_nothing_consumed :
  exists s0 s : State,
    WidgetProductionConsumptionLine_init no_consumer = Started s0 /\
    run quiet no_consumer s0
      [RunMain; RunProductionLine; RunConsumptionLine; RunConsumptionLine;
       RunConsumptionLine; RunProducer 0; RunProducer 0; RunProducer 0;
       RunProducer 0; RunProducer 0; RunProductionLine; RunProductionLine;
       RunProductionLine; RunMain] = Some s /\
    finished s /\ units_produced s = 1 /\ units_consumed s = 0.
Proof.
  eexists _, _. split; [vm_compute; reflexivity|]. split; [vm_compute; reflexivity|].
  repeat split.
Qed.

(** *** C3 *)

(** C3, as the code has it.  Take a run that has started, with a defect
    index within [1, numWidgets] and at least one and fewer than [2^31]
    producers and consumers.  Every schedule is finite, no goroutine panics,
    the broken-widget channel is closed at most once, there is no deadlock,
    some schedule reaches the return of [main], and whenever [main] has
    returned the channel was closed exactly once, one broken widget was
    reported, and the number of widgets produced is at most [numWidgets],
    at least 1, and at least [numKth - (numProducers - 1)]: each producer
    other than the one that took the defect slot may have walked away from
    one slot below it. *)
Theorem defect_run_stops (env : Env) (cfg : Config) (s0 : State) :
  1 <= numKth cfg <= numWidgets cfg ->
  1 <= numProducers cfg < 2147483648 -> 1 <= numConsumers cfg < 2147483648 ->
  WidgetProductionConsumptionLine_init cfg = Started s0 ->
  (forall (schedule : list Action) (s : State),
      run env cfg s0 schedule = Some s ->
      Z.of_nat (length schedule) <= measure cfg s0 /\
      fault s = None /\
      signal_raised s <= 1 /\
      (over s = false -> exists a s', exec env cfg s a = Some s') /\
      (mainPC s = MReturned ->
       signal_raised s = 1 /\ broken_reports s = 1 /\
       units_produced s <= numWidgets cfg /\
       1 <= units_produced s /\
       numKth cfg - (numProducers cfg - 1) <= units_produced s)) /\
  (exists (schedule : list Action) (s : State),
      run env cfg s0 schedule = Some s /\ finished s).
Proof.
  intros Hk (HP & _) (HC & _) H0.
  assert (well_configured cfg) as Hcfg by (right; auto).
  split.
  - intros schedule s Hrun.
    destruct (reachable_inv env cfg _ s schedule H0 Hrun) as (I & F).
    pose proof (run_length env cfg schedule _ s Hrun).
    pose proof (measure_nonneg cfg s).
    split; [lia|]. split; [exact (inv_fault cfg s I)|].
    split; [apply (raised_at_most_once cfg s I)|]. split.
    + exact (progress env cfg s I Hcfg).
    + intros Hpc.
      destruct (finished_with_defect cfg s I Hpc Hk) as (Hr & Hb & _ & Hlo & Hhi).
      pose proof (finished_lower_bound cfg s I F Hpc Hk HP).
      repeat split; assumption.
  - pose proof (measure_nonneg cfg s0) as Hm.
    apply (reaches_end env cfg (Z.to_nat (measure cfg s0)));
      [exact (init_inv cfg _ H0)|exact Hcfg|lia].
Qed.

Lemma defect_run_stops_witness :
  (forall (schedule : list Action) (s : State),
      run quiet overtaking (start_state overtaking) schedule = Some s ->
      Z.of_nat (length schedule) <= measure overtaking (start_state overtaking) /\
      fault s = None /\
      signal_raised s <= 1 /\
      (over s = false -> exists a s', exec quiet overtaking s a = Some s') /\
      (mainPC s = MReturned ->
       signal_raised s = 1 /\ broken_reports s = 1 /\
       units_produced s <= numWidgets overtaking /\
       1 <= units_produced s /\
       numKth overtaking - (numProducers overtaking - 1) <= units_produced s)) /\
  (exists (schedule : list Action) (s : State),
      run quiet overtaking (start_state overtaking) schedule = Some s /\ finished s).
Proof.
  apply (defect_run_stops quiet overtaking (start_state overtaking)).
  - vm_compute. split; congruence.
  - vm_compute. split; [congruence|reflexivity].
  - vm_compute. split; [congruence|reflexivity].
  - vm_compute. reflexivity.
Defined.

(** C3 as the specification words it fails with two producers: in the run
    with [-n 2 -p 2 -c 1 -k 2] shown above, [main] returns after a single
    widget was produced, fewer than the defect index. *)
Lemma overtaking_produces_fewer :
  exists s0 s : State,
    1 <= numKth overtaking <= numWidgets overtaking /\
    WidgetProductionConsumptionLine_init overtaking = Started s0 /\
    run quiet overtaking s0 overtaking_schedule = Some s /\
    finished s /\ signal_raised s = 1 /\
    units_produced s = 1 /\ units_produced s < numKth overtaking.
Proof.
  eexists _, _. split; [vm_compute; split; congruence|].
  split; [vm_compute; reflexivity|]. split; [vm_compute; reflexivity|].
  repeat split.
Qed.

(** *** C4 and C6: a defect index beyond the last slot *)

(** With [numKth > 0] the main goroutine waits for the broken-widget
    channel to be closed; when no slot carries the defect index nobody
    closes it, so [main] never returns. *)
Lemma beyond_range_never_returns (env : Env) (cfg : Config) (s0 s : State)
    (schedule : list Action) :
  WidgetProductionConsumptionLine_init cfg = Started s0 ->
  run env cfg s0 schedule = Some s ->
  numWidgets cfg < numKth cfg -> 0 < numKth cfg ->
  mainPC s <> MReturned /\ broken_reports s = 0 /\
  tally (is_produced_slot (numKth cfg)) (trace s) = 0.
Proof.
  intros H0 Hrun Hk Hpos.
  destruct (reachable_inv env cfg s0 s schedule H0 Hrun) as (I & _).
  destruct (no_defect_no_broken cfg s I ltac:(lia)) as (Hbr & _ & _ & Hq & _ & Hslot).
  split; [|split; assumption].
  intros Hpc. pose proof (inv_main cfg s I) as Imain. rewrite Hpc in Imain.
  destruct Imain as (_ & Hkq & _). specialize (Hkq Hpos). congruence.
Qed.

Lemma stuck_with_one_worker_each (env : Env) (cfg : Config) (s : State) :
  over s = false ->
  main_step cfg s = None -> productionLine_step cfg s = None ->
  consumptionLine_step cfg s = None ->
  length (producers s) = 1%nat -> length (consumers s) = 1%nat ->
  producer_step env cfg 0 s = None -> consumer_step env 0 s = None ->
  handoff_step 0 0 s = None ->
  deadlocked env cfg s.
Proof.
  intros Hover Hm Hpl Hcl Hp Hc Hp0 Hc0 Hh. split; [exact Hover|].
  intros a. unfold exec. rewrite Hover.
  destruct (producers s) as [|x [|]] eqn:Eqp; try discriminate.
  destruct (consumers s) as [|y [|]] eqn:Eqc; try discriminate.
  destruct a as [| | |[|p]|[|c]|[|p] [|c]]; try assumption.
  - unfold producer_step. rewrite Eqp. reflexivity.
  - unfold consumer_step. rewrite Eqc. reflexivity.
  - unfold handoff_step. rewrite Eqp, Eqc. cbn. destruct x as [? []]; reflexivity.
  - unfold handoff_step. rewrite Eqp. reflexivity.
  - unfold handoff_step. rewrite Eqp. reflexivity.
Qed.

(** A defect index one past the only slot. *)
Definition beyond : Config := mkConfig 1 1 1 2.

Definition beyond_schedule : list Action :=
  [RunMain; RunProductionLine; RunConsumptionLine;
   RunProducer 0; RunProducer 0; RunProducer 0; RunProducer 0; RunProducer 0;
   RunProductionLine; RunProductionLine; RunProductionLine;
   RunConsumer 0; RunConsumer 0; RunConsumer 0; RunConsumer 0;
   RunConsumptionLine; RunConsumptionLine].

(** C4, where the code departs from it: at [-n 1 -p 1 -c 1 -k 2] the one
    widget is produced and consumed, it is not broken, both lines return,
    and the process is deadlocked with [main] waiting for the broken-widget
    channel; it does not end as a run with [numKth <= 0] does. *)
Theorem defect_beyond_range_deadlocks :
  exists s0 s : State,
    numWidgets beyond < numKth beyond /\
    WidgetProductionConsumptionLine_init beyond = Started s0 /\
    run quiet beyond s0 beyond_schedule = Some s /\
    deadlocked quiet beyond s /\ mainPC s = MRecvBroken /\
    prodLinePC s = PLReturned /\ consLinePC s = CLReturned /\
    units_produced s = 1 /\ units_consumed s = 1 /\ broken_reports s = 0.
Proof.
  eexists _, _. split; [vm_compute; reflexivity|].
  split; [vm_compute; reflexivity|]. split; [vm_compute; reflexivity|].
  split; [apply stuck_with_one_worker_each; vm_compute; reflexivity|].
  repeat split.
Qed.

Lemma beyond_range_never_returns_witness :
  mainPC (end_of beyond beyond_schedule) <> MReturned /\
  broken_reports (end_of beyond beyond_schedule) = 0 /\
  tally (is_produced_slot (numKth beyond)) (trace (end_of beyond beyond_schedule)) = 0.
Proof.
  apply (beyond_range_never_returns quiet beyond (start_state beyond)
           (end_of beyond beyond_schedule) beyond_schedule).
  - vm_compute. reflexivity.
  - vm_compute. reflexivity.
  - vm_compute. reflexivity.
  - vm_compute. reflexivity.
Defined.

(** No slot at all, and a positive defect index. *)
Definition empty_with_defect : Config := mkConfig 0 1 1 1.

Definition empty_schedule : list Action :=
  [RunMain; RunProductionLine; RunConsumptionLine; RunProducer 0;
   RunProductionLine; RunProductionLine; RunProductionLine;
   RunConsumer 0; RunConsumptionLine; RunConsumptionLine].

(** C6, where the code departs from it: at [-n 0 -p 1 -c 1 -k 1] nothing
    is produced, consumed or printed and both lines return, but the process
    is deadlocked with [main] waiting for the broken-widget channel. *)
Theorem zero_units_with_defect_deadlocks :
  exists s0 s : State,
    numWidgets empty_with_defect = 0 /\
    WidgetProductionConsumptionLine_init empty_with_defect = Started s0 /\
    run quiet empty_with_defect s0 empty_schedule = Some s /\
    deadlocked quiet empty_with_defect s /\ mainPC s = MRecvBroken /\
    prodLinePC s = PLReturned /\ consLinePC s = CLReturned /\
    units_produced s = 0 /\ units_consumed s = 0 /\ stdout s = [].
Proof.
  eexists _, _. split; [reflexivity|].
  split; [vm_compute; reflexivity|]. split; [vm_compute; reflexivity|].
  split; [apply stuck_with_one_worker_each; vm_compute; reflexivity|].
  repeat split.
Qed.

(** *** C5 *)



(** *** C7 *)





(** *** C10 *)

(** C10: with a negative [numWidgets] the first [make] panics; the program
    never reaches its [go] statements, so there is no state of a running
    pipeline at all. *)
Theorem negative_count_panics (cfg : Config) :
  numWidgets cfg < 0 ->
  WidgetProductionConsumptionLine_init cfg = Panicked MakechanSizeOutOfRange /\
  forall s : State, WidgetProductionConsumptionLine_init cfg <> Started s.
Proof.
  intros Hn. rewrite (init_panics cfg Hn). split; [reflexivity|]. discriminate.
Qed.

Lemma negative_count_panics_witness :
  WidgetProductionConsumptionLine_init (mkConfig (-1) 1 1 (-1))
  = Panicked MakechanSizeOutOfRange /\
  forall s : State,
    WidgetProductionConsumptionLine_init (mkConfig (-1) 1 1 (-1)) <> Started s.
Proof.
  apply (negative_count_panics (mkConfig (-1) 1 1 (-1))). vm_compute. reflexivity.
Defined.

End SlotClaims.

(** ** The counter-based version: production is in lock step with the manager *)

Module CounterInv.
Import Go CounterBased Tally.

(** *** Where the workers stand *)

Definition p_produces (x : producer * ProducerPC) : bool :=
  match x.2 with PProduce _ => true | _ => false end.
Definition p_produces_broken (x : producer * ProducerPC) : bool :=
  match x.2 with PProduce b => b | _ => false end.
Definition p_counts (x : producer * ProducerPC) : bool :=
  match x.2 with PSendCount _ => true | _ => false end.
Definition p_hands (x : producer * ProducerPC) : bool :=
  match x.2 with PSendWidget _ => true | _ => false end.
Definition p_holds_broken (x : producer * ProducerPC) : bool :=
  match x.2 with PSendCount wid | PSendWidget wid => broken wid | _ => false end.

Definition c_took (x : consumer * ConsumerPC) : bool :=
  match x.2 with CPrintName _ | CPrintVerb _ => true | _ => false end.
Definition c_took_broken (x : consumer * ConsumerPC) : bool :=
  match x.2 with CPrintName wid | CPrintVerb wid => broken wid | _ => false end.
Definition c_reported (x : consumer * ConsumerPC) : bool :=
  match x.2 with CPrintWidget _ | CPrintTail _ => true | _ => false end.
Definition c_reported_broken (x : consumer * ConsumerPC) : bool :=
  match x.2 with CPrintWidget wid | CPrintTail wid => broken wid | _ => false end.
Definition c_counts (x : consumer * ConsumerPC) : bool :=
  match x.2 with CSendCount => true | _ => false end.

Definition init_pending (pc : InitPC) : bool :=
  match pc with IGAdd | IGSend => true | _ => false end.

Definition stopped (pc : ManagerPC) : bool :=
  match pc with
  | MgrRecvProd | MgrRecvCons | MgrCheck | MgrSendFlag => false
  | _ => true
  end.

Definition mgr_checks (pc : ManagerPC) : bool :=
  match pc with MgrCheck => true | _ => false end.
Definition mgr_offers (pc : ManagerPC) : bool :=
  match pc with MgrSendFlag => true | _ => false end.

(** *** What has been produced and reported *)

(** The verbs of the reports on standard output, oldest first: [true] for
    "found a broken widget". *)
Definition verb_of (f : Fragment) : option bool :=
  match f with
  | FConsumes => Some false
  | FFoundBroken => Some true
  | _ => None
  end.

Definition verbs (out : list Fragment) : list bool := omap verb_of out.
Global Arguments verbs : simpl never.

(** In a list of flags, oldest first, the one at position [k'] (from zero)
    is set and no other. *)
Definition only_at {A : Type} (flag : A -> bool) (k' : Z) (l : list A) : Prop :=
  forall (m : nat) (x : A), l !! m = Some x -> flag x = (Z.of_nat m =? k').

Lemma only_at_nil {A} (flag : A -> bool) (k' : Z) : only_at flag k' [].
Proof. intros m x H. discriminate. Qed.

Lemma only_at_snoc {A} (flag : A -> bool) (k' : Z) (l : list A) (x : A) :
  only_at flag k' l -> flag x = (Z.of_nat (length l) =? k') ->
  only_at flag k' (l ++ [x]).
Proof.
  intros Hl Hx m y Hm.
  destruct (decide (m < length l)%nat) as [Hlt|Hge].
  - rewrite lookup_app_l in Hm by exact Hlt. exact (Hl m y Hm).
  - rewrite lookup_app_r in Hm by lia.
    destruct (m - length l)%nat eqn:E; cbn in Hm; [|discriminate].
    injection Hm as <-. replace m with (length l) by lia. exact Hx.
Qed.

Lemma verbs_snoc (out : list Fragment) (f : Fragment) :
  verbs (out ++ [f]) = verbs out ++ match verb_of f with Some b => [b] | None => [] end.
Proof. unfold verbs. rewrite omap_app. cbn. destruct (verb_of f); reflexivity. Qed.

Section Invariant.
Variable args : Config.

Definition made (s : State) : Z := Z.of_nat (length (widgetTable s)).
Definition reported (s : State) : Z := Z.of_nat (length (verbs (stdout s))).

(** While the manager is in its loop exactly one party is active: the
    first goroutine before its flag is taken, one producer between the
    flag and the hand-over of the widget, one consumer between the
    hand-over and the report to the manager, or the manager between that
    report and the next flag.  The counters follow. *)
Record Running (s : State) : Prop := mkRunning {
  run_token :
    tally p_produces (producers s) + tally p_counts (producers s)
    + tally p_hands (producers s) + tally c_took (consumers s)
    + tally c_reported (consumers s) + tally c_counts (consumers s)
    + Z.b2z (init_pending (initPC s)) + Z.b2z (mgr_checks (managerPC s))
    + Z.b2z (mgr_offers (managerPC s)) = 1;
  run_recv_prod :
    managerPC s = MgrRecvProd ->
    tally p_hands (producers s) + tally c_took (consumers s)
    + tally c_reported (consumers s) + tally c_counts (consumers s) = 0;
  run_recv_cons :
    managerPC s = MgrRecvCons ->
    tally p_produces (producers s) + tally p_counts (producers s)
    + Z.b2z (init_pending (initPC s)) = 0;
  run_made : made s = productionCounter s + tally p_counts (producers s);
  run_produced :
    productionCounter s =
    consumptionCounter s + tally p_hands (producers s) + tally c_took (consumers s)
    + tally c_reported (consumers s) + tally c_counts (consumers s);
  run_reported :
    reported s =
    consumptionCounter s + tally c_reported (consumers s) + tally c_counts (consumers s);
  run_first : Z.b2z (init_pending (initPC s)) = 1 -> made s = 0;
  run_flag :
    (made s = numKth args ->
     tally p_produces_broken (producers s) = tally p_produces (producers s)) /\
    (made s <> numKth args -> tally p_produces_broken (producers s) = 0);
  run_held :
    (reported s = numKth args ->
     tally p_holds_broken (producers s) + tally c_took_broken (consumers s)
     = tally p_counts (producers s) + tally p_hands (producers s)
       + tally c_took (consumers s)) /\
    (reported s <> numKth args ->
     tally p_holds_broken (producers s) + tally c_took_broken (consumers s) = 0);
  run_reported_broken :
    (reported s - 1 = numKth args ->
     tally c_reported_broken (consumers s) = tally c_reported (consumers s)) /\
    (reported s - 1 <> numKth args -> tally c_reported_broken (consumers s) = 0);
  run_consumed :
    Z.b2z (brokenWidgetConsumed s) = 1 <->
    reported s - 1 = numKth args /\
    1 <= tally c_counts (consumers s) + Z.b2z (mgr_checks (managerPC s));
  run_open :
    closed (brokenWidgetChannel s) = false /\
    closed (productionCounterChannel s) = false /\
    closed (consumptionCounterChannel s) = false /\
    closed (widgetChannel s) = false
}.

(** Once the manager has left its loop the defect position is behind:
    whatever is produced or reported from then on is not broken. *)
Record Stopping (s : State) : Prop := mkStopping {
  stop_made : numKth args < made s;
  stop_reported : numKth args < reported s;
  stop_init : Z.b2z (init_pending (initPC s)) = 0;
  stop_flag : tally p_produces_broken (producers s) = 0;
  stop_held :
    tally p_holds_broken (producers s) + tally c_took_broken (consumers s) = 0;
  stop_reported_broken : tally c_reported_broken (consumers s) = 0
}.

Record Inv (s : State) : Prop := mkInv {
  inv_table : only_at broken (numKth args) (widgetTable s);
  inv_verbs : only_at (fun b : bool => b) (numKth args) (verbs (stdout s));
  inv_unbuffered :
    (buf (brokenWidgetChannel s) = [] /\ cap (brokenWidgetChannel s) = 0) /\
    (buf (productionCounterChannel s) = [] /\ cap (productionCounterChannel s) = 0) /\
    (buf (consumptionCounterChannel s) = [] /\ cap (consumptionCounterChannel s) = 0) /\
    (buf (widgetChannel s) = [] /\ cap (widgetChannel s) = 0);
  inv_phase : if stopped (managerPC s) then Stopping s else Running s
}.

Lemma counter_init_inv : Inv (widgetProductionLine_init args).
Proof.
  constructor; cbn.
  - apply only_at_nil.
  - apply only_at_nil.
  - repeat split; reflexivity.
  - constructor; unfold made, reported; cbn;
      rewrite ?(tally_fmap _ (fun prod => (prod, PSelect))),
              ?(tally_fmap _ (fun con => (con, CSelect)));
      cbn; rewrite ?tally_none by reflexivity;
      first [ reflexivity | lia | discriminate | repeat split; reflexivity ].
Qed.

End Invariant.

End CounterInv.

(** ** The counter-based version: every step keeps the invariant *)

Module CounterSteps.
Import Go CounterBased Tally CounterInv.

Lemma counter_set_producer_eq (j : nat) (pc pc0 : ProducerPC) (prod : producer) (s : State) :
  producers s !! j = Some (prod, pc0) ->
  set_producer j pc s = set_producers (<[j := (prod, pc)]> (producers s)) s.
Proof. intros H. unfold set_producer. rewrite H. reflexivity. Qed.

Lemma counter_set_consumer_eq (k : nat) (pc pc0 : ConsumerPC) (con : consumer) (s : State) :
  consumers s !! k = Some (con, pc0) ->
  set_consumer k pc s = set_consumers (<[k := (con, pc)]> (consumers s)) s.
Proof. intros H. unfold set_consumer. rewrite H. reflexivity. Qed.

Lemma counter_produce_spec (env : Env) (prod : producer) (b : bool) (w : World) :
  exists wid w', produce env prod b w = Some (wid, w') /\ broken wid = b.
Proof.
  unfold produce. destruct (Identifier.idMaker_built env w) as ([token w1] & -> & _).
  cbn. eexists _, _. split; reflexivity.
Qed.

Lemma length_append_one {A} (l : list A) (x : A) :
  Z.of_nat (length (l ++ [x])) = Z.of_nat (length l) + 1.
Proof. rewrite length_app. cbn. lia. Qed.

Lemma unbuffered_send {A} (c : Chan A) (x : A) :
  buf c = [] -> cap c = 0 ->
  send c x = if closed c then SendPanics else SendBlocks.
Proof. intros Hb Hc. unfold send. rewrite Hb, Hc. reflexivity. Qed.

Lemma unbuffered_recv {A} (c : Chan A) :
  buf c = [] -> recv c = if closed c then RecvClosed else RecvBlocks.
Proof. intros Hb. unfold recv. rewrite Hb. reflexivity. Qed.

Ltac open_inv I :=
  destruct I as [Itable Iverbs ((Hbb & Hbc) & (Hpb & Hpc) & (Hcb & Hcc) & (Hwb & Hwc)) Iphase].

Ltac open_running R :=
  destruct R as [Rtoken Rprod Rcons Rmade Rproduced Rreported Rfirst Rflag Rheld
                 Rrb Rconsumed (Ob & Op & Oc & Ow)].

Ltac open_stopping S :=
  destruct S as [Smade Sreported Sinit Sflag Sheld Srb].

Lemma produces_broken_le (l : list (producer * ProducerPC)) :
  0 <= tally p_produces_broken l <= tally p_produces l.
Proof.
  split; [apply tally_nonneg|]. apply tally_mono. intros [? []]; cbn; congruence.
Qed.

Lemma holds_broken_le (l : list (producer * ProducerPC)) :
  0 <= tally p_holds_broken l <= tally p_counts l + tally p_hands l.
Proof.
  split; [apply tally_nonneg|]. apply tally_le_sum. intros [? []]; cbn; auto.
Qed.

Lemma producers_nonneg (l : list (producer * ProducerPC)) :
  0 <= tally p_produces l /\ 0 <= tally p_counts l /\ 0 <= tally p_hands l.
Proof. repeat split; apply tally_nonneg. Qed.

Lemma took_broken_le (l : list (consumer * ConsumerPC)) :
  0 <= tally c_took_broken l <= tally c_took l.
Proof.
  split; [apply tally_nonneg|]. apply tally_mono. intros [? []]; cbn; congruence.
Qed.

Lemma reported_broken_le (l : list (consumer * ConsumerPC)) :
  0 <= tally c_reported_broken l <= tally c_reported l.
Proof.
  split; [apply tally_nonneg|]. apply tally_mono. intros [? []]; cbn; congruence.
Qed.

Lemma consumers_nonneg (l : list (consumer * ConsumerPC)) :
  0 <= tally c_took l /\ 0 <= tally c_reported l /\ 0 <= tally c_counts l.
Proof. repeat split; apply tally_nonneg. Qed.

Ltac bounds_p L :=
  pose proof (produces_broken_le L); pose proof (holds_broken_le L);
  pose proof (producers_nonneg L).

Ltac bounds_c L :=
  pose proof (took_broken_le L); pose proof (reported_broken_le L);
  pose proof (consumers_nonneg L).

Ltac split_in Hsplit l :=
  repeat match goal with
    | H : context [tally ?f l] |- _ => rewrite (Hsplit f) in H
    end.

Ltac b2z_bounds :=
  repeat match goal with
    | H : context [Z.b2z ?b] |- _ =>
        lazymatch b with
        | true => fail
        | false => fail
        | _ =>
          lazymatch goal with
          | _ : 0 <= Z.b2z b <= 1 |- _ => fail
          | _ => assert (0 <= Z.b2z b <= 1) by (destruct b; cbn; lia)
          end
        end
    | |- context [Z.b2z ?b] =>
        lazymatch b with
        | true => fail
        | false => fail
        | _ =>
          lazymatch goal with
          | _ : 0 <= Z.b2z b <= 1 |- _ => fail
          | _ => assert (0 <= Z.b2z b <= 1) by (destruct b; cbn; lia)
          end
        end
    end.

Ltac leaf := first [assumption | reflexivity | lia | congruence | discriminate].

(** Linear arithmetic from the facts at hand, leaving the conditional
    clauses of the invariant aside. *)
Ltac plain_lia :=
  repeat match goal with
    | H : _ -> ?Q |- _ => lazymatch Q with False => fail | _ => clear H end
    end;
  lia.

(** Settles every conditional clause whose condition the facts decide, and
    splits on the conditions they leave open. *)
Ltac propagate :=
  repeat match goal with
    | H : _ /\ _ |- _ => destruct H
    | H : _ <-> _ |- _ => destruct H
    | H : ?P -> _, HP : ?P |- _ => specialize (H HP)
    | H : ?P -> ?Q |- _ =>
        lazymatch Q with False => fail | _ => idtac end;
        first [ let HP := fresh in
                assert (HP : P) by plain_lia; specialize (H HP); clear HP
              | let HN := fresh in
                assert (HN : ~ P) by plain_lia; clear H HN ]
    end.

Ltac split_open :=
  repeat match goal with
    | H : ?P -> ?Q |- _ =>
        lazymatch Q with False => fail | _ => idtac end;
        let D := fresh in
        assert (D : P \/ ~ P) by (clear; lia);
        destruct D; propagate
    end.

Ltac split_tests :=
  repeat match goal with
    | |- context [Z.b2z (?a =? ?b)] => destruct (Z.eqb_spec a b)
    | H : context [Z.b2z (?a =? ?b)] |- _ => destruct (Z.eqb_spec a b)
    end.

Ltac known_flags :=
  repeat match goal with
    | E : broken ?w = _ |- context [broken ?w] => rewrite E
    | E : ?b = true |- context [Z.b2z ?b] => rewrite E
    | E : ?b = false |- context [Z.b2z ?b] => rewrite E
    | E : ?b = true, H : context [Z.b2z ?b] |- _ => rewrite E in H
    | E : ?b = false, H : context [Z.b2z ?b] |- _ => rewrite E in H
    end.

Ltac finish :=
  intros; subst; try congruence; cbn in *; known_flags; split_tests; cbn in *;
  b2z_bounds;
  propagate; repeat split; intros; try congruence; known_flags; cbn in *;
  propagate; split_open; try leaf.

(** The flag of the element appended to a list that is [only_at]. *)
Ltac flag_at :=
  unfold made, reported in *; cbn in *; b2z_bounds;
  repeat match goal with
    | |- context [broken ?w] =>
        let E := fresh in destruct (broken w) eqn:E; rewrite ?E in *
    | |- context [?a =? ?b] => destruct (Z.eqb_spec a b)
    end;
  subst; cbn in *; first [reflexivity | exfalso; lia].

Section Preservation.
Variable env : Env.
Variable args : Config.
Hypothesis defect_within : numKth args < numWidgets args.

Ltac producer_moves Hl s j :=
  erewrite counter_set_producer_eq by (cbn; exact Hl);
  pose proof (tally_split _ _ _ Hl) as Hsplit;
  split_in Hsplit (producers s); clear Hsplit;
  cbn in *; bounds_p (delete j (producers s)).

Ltac consumer_moves Hl s k :=
  erewrite counter_set_consumer_eq by (cbn; exact Hl);
  pose proof (tally_split _ _ _ Hl) as Hsplit;
  split_in Hsplit (consumers s); clear Hsplit;
  cbn in *; bounds_c (delete k (consumers s)).

Ltac goal_tallies :=
  unfold made, reported in *; cbn;
  repeat match goal with
    | Hl : _ !! _ = Some _ |- _ => rewrite !(tally_insert_split _ _ _ _ Hl)
    end;
  rewrite ?length_append_one, ?verbs_snoc; cbn;
  rewrite ?app_nil_r, ?length_append_one.

(** The pieces of a state the invariant reads. *)
Lemma frame (s s' : State) :
  widgetTable s' = widgetTable s -> stdout s' = stdout s ->
  brokenWidgetChannel s' = brokenWidgetChannel s ->
  productionCounterChannel s' = productionCounterChannel s ->
  consumptionCounterChannel s' = consumptionCounterChannel s ->
  widgetChannel s' = widgetChannel s ->
  managerPC s' = managerPC s -> initPC s' = initPC s ->
  producers s' = producers s -> consumers s' = consumers s ->
  productionCounter s' = productionCounter s ->
  consumptionCounter s' = consumptionCounter s ->
  brokenWidgetConsumed s' = brokenWidgetConsumed s ->
  Inv args s -> Inv args s'.
Proof.
  intros E1 E2 E3 E4 E5 E6 E7 E8 E9 E10 E11 E12 E13 [It Iv Iu Ip].
  constructor; rewrite ?E1, ?E2, ?E3, ?E4, ?E5, ?E6, ?E7; try assumption.
  destruct (stopped (managerPC s)).
  - destruct Ip. constructor; unfold made, reported in *;
      rewrite ?E1, ?E2, ?E8, ?E9, ?E10; assumption.
  - destruct Ip. constructor; unfold made, reported in *;
      rewrite ?E1, ?E2, ?E3, ?E4, ?E5, ?E6, ?E7, ?E8, ?E9, ?E10, ?E11, ?E12, ?E13;
      assumption.
Qed.

Ltac framed :=
  apply frame; unfold set_producer, set_consumer, panic; cbn;
  repeat match goal with
    | |- context [match ?x with _ => _ end] => destruct x
    end;
  reflexivity.

(** Finishes the proof of one transition: the table and the verbs are as
    before or one longer, the channels are unbuffered as before, and the
    phase is read off the new program counter of the manager. *)
Ltac settle Hst :=
  constructor; cbn; rewrite ?Hst;
  [ first [ assumption | apply only_at_snoc; [assumption|]; flag_at ]
  | first [ assumption
          | rewrite verbs_snoc; cbn; rewrite ?app_nil_r;
            first [ assumption | apply only_at_snoc; [assumption|]; flag_at ] ]
  | repeat split; assumption
  | constructor; goal_tallies; finish ].

Lemma counter_producer_step_inv (j : nat) (s s' : State) :
  Inv args s -> producer_step env j s = Some s' -> Inv args s'.
Proof.
  intros I H. unfold producer_step in H.
  destruct (producers s !! j) as [[prod pc]|] eqn:Hl; [|discriminate].
  pose proof I as I0. open_inv I.
  destruct pc as [|b|wid|wid|].
  - destruct (ready (quitChannel s) || flag_ready s); [discriminate|].
    injection H as <-. exact I0.
  - destruct (counter_produce_spec env prod b (world s)) as (wid & w' & Hmade & Hb).
    rewrite Hmade in H. injection H as <-.
    destruct (stopped (managerPC s)) eqn:Hst.
    + open_stopping Iphase. producer_moves Hl s j. bounds_c (consumers s).
      settle Hst.
    + open_running Iphase. producer_moves Hl s j. bounds_c (consumers s).
      settle Hst.
  - rewrite unbuffered_send in H by assumption.
    destruct (closed (productionCounterChannel s)); [|discriminate].
    injection H as <-. revert I0. framed.
  - rewrite unbuffered_send in H by assumption.
    destruct (closed (widgetChannel s)); [|discriminate].
    injection H as <-. revert I0. framed.
  - discriminate.
Qed.

Lemma worker_return_inv (s : State) : Inv args s -> Inv args (worker_return s).
Proof. unfold worker_return. destruct (wg_done (wg s)); framed. Qed.

Lemma producer_quits_inv (j : nat) (s s' : State) :
  Inv args s -> producer_quits j s = Some s' -> Inv args s'.
Proof.
  intros I H. unfold producer_quits in H.
  destruct (producers s !! j) as [[prod [| | | |]]|] eqn:Hl; try discriminate.
  assert (Inv args (set_producer j PReturned s)) as I1.
  { open_inv I.
    destruct (stopped (managerPC s)) eqn:Hst.
    + open_stopping Iphase. producer_moves Hl s j. bounds_c (consumers s). settle Hst.
    + open_running Iphase. producer_moves Hl s j. bounds_c (consumers s). settle Hst. }
  destruct (recv (quitChannel s)); try discriminate; injection H as <-.
  - apply worker_return_inv. revert I1. framed.
  - apply worker_return_inv. exact I1.
Qed.

Lemma init_step_inv (s s' : State) :
  Inv args s -> init_step args s = Some s' -> Inv args s'.
Proof.
  intros I H. unfold init_step in H. pose proof I as I0. open_inv I.
  destruct (initPC s) eqn:Hmpc.
  - destruct (wg_add (wg s) 1); injection H as <-; [|revert I0; framed].
    destruct (stopped (managerPC s)) eqn:Hst.
    + open_stopping Iphase. rewrite Hmpc in *. discriminate.
    + open_running Iphase. rewrite Hmpc in *.
      bounds_p (producers s). bounds_c (consumers s). settle Hst.
  - rewrite unbuffered_send in H by assumption.
    destruct (closed (brokenWidgetChannel s)); [|discriminate].
    injection H as <-. revert I0. framed.
  - destruct (wg_done (wg s)); injection H as <-; [|revert I0; framed].
    destruct (stopped (managerPC s)) eqn:Hst.
    + open_stopping Iphase. rewrite Hmpc in *.
      bounds_p (producers s). bounds_c (consumers s). settle Hst.
    + open_running Iphase. rewrite Hmpc in *.
      bounds_p (producers s). bounds_c (consumers s). settle Hst.
  - discriminate.
Qed.

Lemma flag_from_init_inv (j : nat) (s s' : State) :
  Inv args s -> flag_from_init args j s = Some s' -> Inv args s'.
Proof.
  intros I H. unfold flag_from_init in H.
  destruct (producers s !! j) as [[prod [| | | |]]|] eqn:Hl; try discriminate.
  destruct (initPC s) eqn:Hmpc; try discriminate.
  destruct (closed (brokenWidgetChannel s)) eqn:Hclosed; [discriminate|].
  injection H as <-. open_inv I.
  destruct (stopped (managerPC s)) eqn:Hst.
  - open_stopping Iphase. rewrite Hmpc in *. discriminate.
  - open_running Iphase. rewrite Hmpc in *.
    producer_moves Hl s j. bounds_c (consumers s). settle Hst.
Qed.

Lemma flag_from_manager_inv (j : nat) (s s' : State) :
  Inv args s -> flag_from_manager args j s = Some s' -> Inv args s'.
Proof.
  intros I H. unfold flag_from_manager in H.
  destruct (producers s !! j) as [[prod [| | | |]]|] eqn:Hl; try discriminate.
  destruct (managerPC s) eqn:Hmpc; try discriminate.
  destruct (closed (brokenWidgetChannel s)) eqn:Hclosed; [discriminate|].
  injection H as <-. open_inv I. rewrite Hmpc in Iphase. cbn in Iphase.
  open_running Iphase. rewrite ?Hmpc in *.
  producer_moves Hl s j. bounds_c (consumers s). settle Hmpc.
Qed.

Lemma flag_from_closed_inv (j : nat) (s s' : State) :
  Inv args s -> flag_from_closed j s = Some s' -> Inv args s'.
Proof.
  intros I H. unfold flag_from_closed in H.
  destruct (producers s !! j) as [[prod [| | | |]]|] eqn:Hl; try discriminate.
  destruct (closed (brokenWidgetChannel s)) eqn:Hclosed; [|discriminate].
  injection H as <-. open_inv I.
  destruct (stopped (managerPC s)) eqn:Hst.
  - open_stopping Iphase. producer_moves Hl s j. bounds_c (consumers s). settle Hst.
  - open_running Iphase. congruence.
Qed.

Lemma count_production_inv (j : nat) (s s' : State) :
  Inv args s -> count_production j s = Some s' -> Inv args s'.
Proof.
  intros I H. unfold count_production in H.
  destruct (producers s !! j) as [[prod [| |wid| |]]|] eqn:Hl; try discriminate.
  destruct (managerPC s) eqn:Hmpc; try discriminate.
  destruct (closed (productionCounterChannel s)) eqn:Hclosed; [discriminate|].
  injection H as <-. open_inv I. rewrite Hmpc in Iphase. cbn in Iphase.
  open_running Iphase. rewrite ?Hmpc in *.
  producer_moves Hl s j. bounds_c (consumers s). settle Hmpc.
Qed.

Lemma widget_to_inv (j k : nat) (s s' : State) :
  Inv args s -> widget_to j k s = Some s' -> Inv args s'.
Proof.
  intros I H. unfold widget_to in H.
  destruct (producers s !! j) as [[prod [| | |wid|]]|] eqn:Hl; try discriminate.
  destruct (consumers s !! k) as [[con [| | | | | |]]|] eqn:Hc; try discriminate.
  destruct (closed (widgetChannel s)) eqn:Hclosed; [discriminate|].
  injection H as <-. open_inv I.
  destruct (stopped (managerPC s)) eqn:Hst.
  - open_stopping Iphase. producer_moves Hl s j.
    erewrite counter_set_consumer_eq by (cbn; exact Hc).
    pose proof (tally_split _ _ _ Hc) as Hsplit.
    split_in Hsplit (consumers s). clear Hsplit.
    bounds_c (delete k (consumers s)). settle Hst.
  - open_running Iphase. producer_moves Hl s j.
    erewrite counter_set_consumer_eq by (cbn; exact Hc).
    pose proof (tally_split _ _ _ Hc) as Hsplit.
    split_in Hsplit (consumers s). clear Hsplit.
    bounds_c (delete k (consumers s)). settle Hst.
Qed.

Lemma widget_from_closed_inv (k : nat) (s s' : State) :
  Inv args s -> widget_from_closed k s = Some s' -> Inv args s'.
Proof.
  intros I H. unfold widget_from_closed in H.
  destruct (consumers s !! k) as [[con [| | | | | |]]|] eqn:Hl; try discriminate.
  destruct (closed (widgetChannel s)) eqn:Hclosed; [|discriminate].
  injection H as <-. open_inv I.
  destruct (stopped (managerPC s)) eqn:Hst.
  - open_stopping Iphase. consumer_moves Hl s k. bounds_p (producers s). settle Hst.
  - open_running Iphase. congruence.
Qed.

Lemma count_consumption_inv (k : nat) (s s' : State) :
  Inv args s -> count_consumption k s = Some s' -> Inv args s'.
Proof.
  intros I H. unfold count_consumption in H.
  destruct (consumers s !! k) as [[con [| | | | | |]]|] eqn:Hl; try discriminate.
  destruct (managerPC s) eqn:Hmpc; try discriminate.
  destruct (closed (consumptionCounterChannel s)) eqn:Hclosed; [discriminate|].
  injection H as <-. open_inv I. rewrite Hmpc in Iphase. cbn in Iphase.
  open_running Iphase. rewrite ?Hmpc in *.
  consumer_moves Hl s k. bounds_p (producers s). settle Hmpc.
Qed.

Lemma consumer_quits_inv (k : nat) (s s' : State) :
  Inv args s -> consumer_quits k s = Some s' -> Inv args s'.
Proof.
  intros I H. unfold consumer_quits in H.
  destruct (consumers s !! k) as [[con [| | | | | |]]|] eqn:Hl; try discriminate.
  assert (Inv args (set_consumer k CReturned s)) as I1.
  { open_inv I.
    destruct (stopped (managerPC s)) eqn:Hst.
    + open_stopping Iphase. consumer_moves Hl s k. bounds_p (producers s). settle Hst.
    + open_running Iphase. consumer_moves Hl s k. bounds_p (producers s). settle Hst. }
  destruct (recv (quitChannel s)); try discriminate; injection H as <-.
  - apply worker_return_inv. revert I1. framed.
  - apply worker_return_inv. exact I1.
Qed.

Lemma counter_consumer_step_inv (k : nat) (s s' : State) :
  Inv args s -> consumer_step env k s = Some s' -> Inv args s'.
Proof.
  intros I H. unfold consumer_step in H.
  destruct (consumers s !! k) as [[con pc]|] eqn:Hl; [|discriminate].
  pose proof I as I0. open_inv I.
  destruct pc as [|wid|wid|wid|wid| |].
  - destruct (ready (quitChannel s) || widget_ready s); [discriminate|].
    injection H as <-. exact I0.
  - injection H as <-.
    destruct (stopped (managerPC s)) eqn:Hst.
    + open_stopping Iphase. consumer_moves Hl s k. bounds_p (producers s). settle Hst.
    + open_running Iphase. consumer_moves Hl s k. bounds_p (producers s). settle Hst.
  - injection H as <-.
    destruct (stopped (managerPC s)) eqn:Hst.
    + open_stopping Iphase. consumer_moves Hl s k. bounds_p (producers s).
      destruct (broken wid) eqn:Hbroken; rewrite ?Hbroken in *; cbn in *; settle Hst.
    + open_running Iphase. consumer_moves Hl s k. bounds_p (producers s).
      destruct (broken wid) eqn:Hbroken; rewrite ?Hbroken in *; cbn in *; settle Hst.
  - injection H as <-.
    destruct (stopped (managerPC s)) eqn:Hst.
    + open_stopping Iphase. consumer_moves Hl s k. bounds_p (producers s). settle Hst.
    + open_running Iphase. consumer_moves Hl s k. bounds_p (producers s). settle Hst.
  - cbv zeta in H. unfold Now in H.
    destruct (broken wid) eqn:Hbroken; cbn in H; injection H as <-;
      (destruct (stopped (managerPC s)) eqn:Hst;
       [open_stopping Iphase|open_running Iphase];
       consumer_moves Hl s k; bounds_p (producers s);
       rewrite ?Hbroken in *; cbn in *; settle Hst).
  - rewrite unbuffered_send in H by assumption.
    destruct (closed (consumptionCounterChannel s)); [|discriminate].
    injection H as <-. revert I0. framed.
  - discriminate.
Qed.

Lemma manager_step_inv (s s' : State) :
  Inv args s -> manager_step args s = Some s' -> Inv args s'.
Proof.
  intros I H. unfold manager_step in H. pose proof I as I0. open_inv I.
  bounds_p (producers s). bounds_c (consumers s).
  destruct (managerPC s) eqn:Hmpc; cbn in Iphase.
  - (* waiting for a production count *)
    rewrite unbuffered_recv in H by assumption. open_running Iphase.
    rewrite Op in H. discriminate.
  - rewrite unbuffered_recv in H by assumption. open_running Iphase.
    rewrite Oc in H. discriminate.
  - (* stop or go on *)
    open_running Iphase. rewrite ?Hmpc in *.
    destruct (brokenWidgetConsumed s) eqn:Hconsumed; cbn [orb] in H.
    + injection H as <-. settle Hmpc.
    + destruct ((productionCounter s =? numWidgets args)
                && (consumptionCounter s =? numWidgets args)) eqn:Hcount;
        injection H as <-.
      * apply andb_true_iff in Hcount. destruct Hcount as (Hp & Hc).
        apply Z.eqb_eq in Hp. apply Z.eqb_eq in Hc. settle Hmpc.
      * settle Hmpc.
  - (* the quit tokens *)
    open_stopping Iphase.
    destruct (i <? _); [destruct (send _ _)|]; try discriminate; injection H as <-.
    + settle Hmpc.
    + revert I0. framed.
    + settle Hmpc.
  - injection H as <-. open_stopping Iphase. settle Hmpc.
  - open_stopping Iphase. destruct (close _) eqn:Hclose; injection H as <-;
      [|revert I0; framed].
    unfold close in Hclose. destruct (closed _); [discriminate|].
    injection Hclose as <-. settle Hmpc.
  - open_stopping Iphase. destruct (close _) eqn:Hclose; injection H as <-;
      [|revert I0; framed].
    unfold close in Hclose. destruct (closed _); [discriminate|].
    injection Hclose as <-. settle Hmpc.
  - open_stopping Iphase. destruct (close _) eqn:Hclose; injection H as <-;
      [|revert I0; framed].
    unfold close in Hclose. destruct (closed _); [discriminate|].
    injection Hclose as <-. settle Hmpc.
  - open_stopping Iphase. destruct (close _) eqn:Hclose; injection H as <-;
      [|revert I0; framed].
    unfold close in Hclose. destruct (closed _); [discriminate|].
    injection Hclose as <-. settle Hmpc.
  - rewrite unbuffered_send in H by assumption. open_running Iphase.
    rewrite Ob in H. discriminate.
  - open_stopping Iphase. destruct (wg_wait _); [|discriminate].
    injection H as <-. settle Hmpc.
  - discriminate.
Qed.

Theorem counter_exec_inv (s s' : State) (a : Action) :
  Inv args s -> exec env args s a = Some s' -> Inv args s'.
Proof.
  intros I H. unfold exec in H. destruct (over s); [discriminate|].
  destruct a.
  - exact (init_step_inv s s' I H).
  - exact (manager_step_inv s s' I H).
  - exact (counter_producer_step_inv j s s' I H).
  - exact (counter_consumer_step_inv k s s' I H).
  - exact (producer_quits_inv j s s' I H).
  - exact (consumer_quits_inv k s s' I H).
  - exact (flag_from_init_inv j s s' I H).
  - exact (flag_from_manager_inv j s s' I H).
  - exact (flag_from_closed_inv j s s' I H).
  - exact (count_production_inv j s s' I H).
  - exact (widget_to_inv j k s s' I H).
  - exact (widget_from_closed_inv k s s' I H).
  - exact (count_consumption_inv k s s' I H).
Qed.

Theorem counter_run_inv (schedule : list Action) :
  forall s s' : State,
    Inv args s -> run env args s schedule = Some s' -> Inv args s'.
Proof.
  induction schedule as [|a rest IH]; intros s s' I H; cbn in H.
  - injection H as <-. exact I.
  - destruct (exec env args s a) as [s1|] eqn:Hstep; [|discriminate].
    apply (IH s1 s'); [|exact H]. exact (counter_exec_inv s s1 a I Hstep).
Qed.

End Preservation.

End CounterSteps.


(** * The two versions compared

    [src/main.go] hands out one flag at a time: the manager waits for the
    production count and the consumption count of a widget before it offers the
    flag of the next one, so the widgets are made one after the other and the
    running counter is the position of the widget in [widgetTable].  The later
    version hands out slot numbers, which several producers can hold at once. *)

Module Comparison.
Import Go.

Definition counter_start (flags : Config) : CounterBased.State :=
  CounterBased.widgetProductionLine_init (CounterBased.main_args flags).

(** A run of [main] of [src/main.go] with the given flags. *)
Definition counter_run (env : Env) (flags : Config)
           (schedule : list CounterBased.Action) : option CounterBased.State :=
  CounterBased.run env (CounterBased.main_args flags) (counter_start flags) schedule.

Definition counter_end (flags : Config) (schedule : list CounterBased.Action) :
  CounterBased.State :=
  match counter_run SlotClaims.quiet flags schedule with
  | Some s => s
  | None => counter_start flags
  end.

(** The [m]-th widget appended to [widgetTable] (counting from one) is broken
    exactly when [m] is the [-k] flag, and so is the [m]-th report printed. *)
Definition marks_kth (flags : Config) (s : CounterBased.State) : Prop :=
  (forall (m : nat) (w : Widget),
      CounterBased.widgetTable s !! m = Some w ->
      (broken w = true <-> Z.of_nat m + 1 = numKth flags)) /\
  (forall (m : nat) (b : bool),
      CounterInv.verbs (CounterBased.stdout s) !! m = Some b ->
      (b = true <-> Z.of_nat m + 1 = numKth flags)).

(** What C9 says of [src/main.go]: some run marks a widget that is not the
    [-k]-th one made. *)
Definition counter_marks_another : Prop :=
  exists (env : Env) (flags : Config) (schedule : list CounterBased.Action)
         (s : CounterBased.State) (m : nat) (w : Widget),
    1 <= numKth flags <= numWidgets flags /\
    counter_run env flags schedule = Some s /\
    CounterBased.widgetTable s !! m = Some w /\
    broken w = true /\
    Z.of_nat m + 1 <> numKth flags.

(** A run of the later version with [-n 2 -p 2 -c 1 -k 2] that returns after
    one report, the one of the broken widget of slot 2. *)
Definition slot_reports_broken_first : Prop :=
  exists (schedule : list SlotBased.Action) (s : SlotBased.State),
    SlotBased.run SlotClaims.quiet SlotClaims.overtaking
                  (SlotInv.start_state SlotClaims.overtaking) schedule = Some s /\
    SlotInv.finished s /\
    SlotInv.stdout s =
      [SlotBased.LFoundBroken "consumer_0" SlotClaims.overtaking_widget;
       SlotBased.LExecutionStops].

Definition counter_schedule : list CounterBased.Action :=
  let report := [CounterBased.RunConsumer 0; CounterBased.RunConsumer 0;
                 CounterBased.RunConsumer 0; CounterBased.RunConsumer 0;
                 CounterBased.CountConsumption 0] in
  [CounterBased.RunInit; CounterBased.FlagFromInit 0; CounterBased.RunProducer 0;
   CounterBased.CountProduction 0; CounterBased.WidgetTo 0 0] ++ report ++
  [CounterBased.RunManager; CounterBased.FlagFromManager 1;
   CounterBased.RunProducer 1; CounterBased.CountProduction 1;
   CounterBased.WidgetTo 1 0] ++ report ++
  [CounterBased.RunManager; CounterBased.RunManager; CounterBased.RunManager;
   CounterBased.RunManager; CounterBased.RunManager; CounterBased.RunManager;
   CounterBased.ProducerQuits 0; CounterBased.ProducerQuits 1;
   CounterBased.ConsumerQuits 0;
   CounterBased.RunManager; CounterBased.RunManager; CounterBased.RunManager;
   CounterBased.RunManager; CounterBased.RunInit; CounterBased.RunManager].

Lemma counter_inv (env : Env) (flags : Config)
      (schedule : list CounterBased.Action) (s : CounterBased.State) :
  numKth flags <= numWidgets flags ->
  counter_run env flags schedule = Some s ->
  CounterInv.Inv (CounterBased.main_args flags) s.
Proof.
  intros Hk Hrun.
  assert (Hwithin : numKth (CounterBased.main_args flags)
                    < numWidgets (CounterBased.main_args flags)) by (cbn; lia).
  apply (CounterSteps.counter_run_inv env _ Hwithin schedule (counter_start flags) s);
    [|exact Hrun].
  exact (CounterInv.counter_init_inv (CounterBased.main_args flags)).
Qed.

Lemma counter_marks (env : Env) (flags : Config)
      (schedule : list CounterBased.Action) (s : CounterBased.State) :
  numKth flags <= numWidgets flags ->
  counter_run env flags schedule = Some s ->
  marks_kth flags s.
Proof.
  intros Hk Hrun.
  pose proof (counter_inv env flags schedule s Hk Hrun) as I.
  split; intros m x Hm.
  - rewrite (CounterInv.inv_table _ _ I m x Hm). cbn.
    destruct (Z.eqb_spec (Z.of_nat m) (numKth flags - 1)); split; intros; (lia || congruence).
  - rewrite (CounterInv.inv_verbs _ _ I m x Hm). cbn.
    destruct (Z.eqb_spec (Z.of_nat m) (numKth flags - 1)); split; intros; (lia || congruence).
Qed.

Lemma slot_run_reports_broken_first : slot_reports_broken_first.
Proof.
  exists SlotClaims.overtaking_schedule. eexists. split; [vm_compute; reflexivity|].
  split; [|vm_compute; reflexivity].
  unfold SlotInv.finished. vm_compute. repeat split.
Qed.

(** C9, corrected.  In [src/main.go], for every flags with
    [1 <= k <= n] and every interleaving, the widget marked broken is the
    [k]-th one appended to [widgetTable] and no other, and the report that
    says "found a broken widget" is the [k]-th report: which widget is marked
    does not depend on the interleaving.  The two versions are not equivalent
    all the same, since the later one can report the broken widget of slot 2
    first. *)
Theorem counter_marks_kth_made (env : Env) (flags : Config)
        (schedule : list CounterBased.Action) (s : CounterBased.State) :
  1 <= numKth flags <= numWidgets flags ->
  counter_run env flags schedule = Some s ->
  marks_kth flags s /\ slot_reports_broken_first.
Proof.
  intros Hk Hrun. split.
  - apply (counter_marks env flags schedule s); [lia|exact Hrun].
  - exact slot_run_reports_broken_first.
Qed.

Lemma counter_marks_kth_made_witness :
  CounterBased.managerPC (counter_end SlotClaims.overtaking counter_schedule)
    = CounterBased.MgrReturned /\
  broken <$> CounterBased.widgetTable (counter_end SlotClaims.overtaking counter_schedule)
    = [false; true] /\
  marks_kth SlotClaims.overtaking (counter_end SlotClaims.overtaking counter_schedule) /\
  slot_reports_broken_first.
Proof.
  split; [vm_compute; reflexivity|]. split; [vm_compute; reflexivity|].
  apply (counter_marks_kth_made SlotClaims.quiet SlotClaims.overtaking counter_schedule).
  - vm_compute. split; congruence.
  - vm_compute. reflexivity.
Defined.

(** C9 as the specification words it: no run of [src/main.go] with
    [1 <= k <= n] marks a widget other than the [k]-th one made. *)
Lemma counter_never_marks_another : ~ counter_marks_another.
Proof.
  intros (env & flags & schedule & s & m & w & Hk & Hrun & Hm & Hb & Hne).
  destruct (counter_marks env flags schedule s ltac:(lia) Hrun) as (Htable & _).
  apply Hne, (Htable m w Hm), Hb.
Qed.

(** The end of a run of [src/main.go] is racy.  Once the manager has put
    the quit tokens in the channel and closed the other channels, a worker's
    [select] has two cases that can proceed, and the one on the closed flag
    channel reads [false]: with [-n 1 -p 1 -c 1] the producer can then make a
    second widget and panic on its send to the closed counter channel. *)
Definition single : Config := mkConfig 1 1 1 (-1).

Definition late_flag_schedule : list CounterBased.Action :=
  [CounterBased.RunInit; CounterBased.FlagFromInit 0; CounterBased.RunProducer 0;
   CounterBased.CountProduction 0; CounterBased.WidgetTo 0 0;
   CounterBased.RunConsumer 0; CounterBased.RunConsumer 0;
   CounterBased.RunConsumer 0; CounterBased.RunConsumer 0;
   CounterBased.CountConsumption 0;
   CounterBased.RunManager; CounterBased.RunManager; CounterBased.RunManager;
   CounterBased.RunManager; CounterBased.RunManager; CounterBased.RunManager;
   CounterBased.RunManager; CounterBased.RunManager;
   CounterBased.FlagFromClosed 0; CounterBased.RunProducer 0;
   CounterBased.RunProducer 0].

Example counter_panics_after_close :
  exists s : CounterBased.State,
    counter_run SlotClaims.quiet single late_flag_schedule = Some s /\
    CounterBased.productionCounter s = numWidgets single /\
    CounterBased.consumptionCounter s = numWidgets single /\
    length (CounterBased.widgetTable s) = 2%nat /\
    CounterBased.fault s = Some SendOnClosedChannel.
Proof.
  eexists. split; [vm_compute; reflexivity|]. repeat split.
Qed.

End Comparison.


(** * Further properties of the code *)

(** ** Identifiers, widgets and the worker tables *)

Module WidgetFacts.
Import Go Identifier.

(** The call of [rand.Intn], counted from the start of [idMaker], that
    decides the character at index [n] of a token: the separator at index
    16 uses none. *)
Definition draw_of (n : nat) : nat := if (16 <? n)%nat then (n - 1)%nat else n.

(** The character [idMaker] writes when the environment has [r] for the
    call: the one of [ASCII] at the index [rand.Intn] returns. *)
Definition char_of (r : Z) : option ascii := String.get (Z.to_nat (r mod 35)) ASCII.

(** After [i] iterations every character but the separator is the one its
    call selects. *)
Definition drawn (env : Env) (w0 : World) (i : Z) (st : string * World) : Prop :=
  built w0 i st /\
  forall n : nat,
    Z.of_nat n < i -> n <> 16%nat ->
    String.get n st.1 = char_of (intn_outcome env (intn_calls w0 + draw_of n)).

Lemma get_old (s : string) (c : ascii) (n : nat) :
  (n < String.length s)%nat ->
  String.get n (s +:+ String c EmptyString) = String.get n s.
Proof.
  revert n. induction s as [|a s IH]; intros n Hn; cbn in Hn; [lia|].
  rewrite app_cons. destruct n as [|n]; cbn; [reflexivity|]. apply IH. lia.
Qed.

Lemma idMaker_body_drawn (env : Env) (w0 : World) (j : Z) (st : string * World) :
  0 <= j < 32 -> drawn env w0 j st ->
  exists st', idMaker_body env j st = Some st' /\ drawn env w0 (j + 1) st'.
Proof.
  intros Hj (Hb & Hd).
  destruct (idMaker_body_built env w0 j st Hj Hb) as (st' & Hstep & Hb').
  exists st'. split; [exact Hstep|]. split; [exact Hb'|].
  destruct Hb as (Hlen & Hpos & _). destruct st as [buffer w]. cbn [fst snd] in *.
  unfold idMaker_body in Hstep. change (ID_LENGTH / 2) with 16 in Hstep.
  destruct (Z.eqb_spec j 16) as [->|Hne].
  - injection Hstep as <-. cbn [fst]. intros n Hn Hn16.
    rewrite get_old by lia. apply Hd; lia.
  - unfold Intn in Hstep. change (Z.of_nat (String.length ASCII)) with 35 in Hstep.
    change (35 <=? 0) with false in Hstep. cbv iota in Hstep.
    destruct (String.get (Z.to_nat (intn_outcome env (intn_calls w) mod 35)) ASCII)
      as [c|] eqn:Hc; [|discriminate].
    injection Hstep as <-. cbn [fst]. intros n Hn Hn16.
    destruct (decide (Z.of_nat n = j)) as [Heq|Hlt].
    + replace n with (String.length buffer) by lia. rewrite get_snoc_new.
      unfold char_of. rewrite <- Hc.
      replace (intn_calls w0 + draw_of (String.length buffer))%nat with (intn_calls w);
        [reflexivity|].
      unfold draw_of. destruct (Nat.ltb_spec 16 (String.length buffer)),
        (Z.ltb_spec 16 j); lia.
    + rewrite get_old by lia. apply Hd; lia.
Qed.

(** [idMaker] returns, 31 calls of [rand.Intn] on. *)
Lemma idMaker_drawn (env : Env) (w : World) :
  exists token : string,
    idMaker env w = Some (token, mkWorld (intn_calls w + 31) (ticks w)) /\
    drawn env w 32 (token, mkWorld (intn_calls w + 31) (ticks w)).
Proof.
  unfold idMaker. change (Z.to_nat ID_LENGTH) with 32%nat.
  destruct (for_loop_invariant (drawn env w) (idMaker_body env) 32 0 (EmptyString, w))
    as ([token w'] & Hrun & Hd).
  - intros j st Hj Hb. apply idMaker_body_drawn; [lia|exact Hb].
  - split; [|intros n Hn; lia].
    unfold built. cbn. repeat split; try lia. all: destruct n; discriminate.
  - exists token.
    assert (w' = mkWorld (intn_calls w + 31) (ticks w)) as <-; [|split; assumption].
    destruct Hd as ((_ & Hpos & Htk & _) & _). cbn [fst snd] in *.
    change (16 <? 0 + Z.of_nat 32) with true in Hpos.
    destruct w' as [rp tk]. cbn in *. f_equal; lia.
Qed.

(** [idMaker] as a function of what [rand.Intn] returns: it calls
    [rand.Intn(35)] exactly 31 times and never reads the clock, and the
    character at index [n] (the separator apart) is the character of
    [ASCII] at the index that call number [draw_of n] returned. *)
Theorem idMaker_chars (env : Env) (w : World) :
  exists token : string,
    idMaker env w = Some (token, mkWorld (intn_calls w + 31) (ticks w)) /\
    String.length token = 32%nat /\
    String.get 16 token = Some "-"%char /\
    forall n : nat,
      (n < 32)%nat -> n <> 16%nat ->
      exists (r : Z) (w' : World),
        Intn env (Z.of_nat (String.length ASCII))
             (mkWorld (intn_calls w + draw_of n) (ticks w)) = Some (r, w') /\
        0 <= r < 35 /\
        String.get n token = String.get (Z.to_nat r) ASCII.
Proof.
  destruct (idMaker_drawn env w) as (token & Hrun & (Hlen & _ & _ & Hsep & _) & Hd).
  cbn [fst snd] in *. exists token. repeat split.
  - exact Hrun.
  - lia.
  - apply Hsep. lia.
  - intros n Hn Hn16. eexists _, _. split; [reflexivity|]. cbn [intn_calls].
    split; [apply Z.mod_pos_bound; lia|]. apply Hd; lia.
Qed.

(** The names a table loop builds from a prefix. *)
Lemma worker_names (prefix : string) (count : Z) :
  let names := (fun i : Z => prefix +:+ pretty i) <$> seqZ 0 count in
  length names = Z.to_nat count /\
  (forall j : nat, (j < Z.to_nat count)%nat ->
                   names !! j = Some (prefix +:+ pretty (Z.of_nat j))) /\
  NoDup names.
Proof.
  cbn. split; [|split].
  - rewrite length_fmap. apply length_seqZ.
  - intros j Hj. rewrite list_lookup_fmap, lookup_seqZ_lt by lia. cbn.
    do 2 f_equal; lia.
  - apply NoDup_fmap_2; [|apply NoDup_seqZ].
    intros x y Heq. apply (inj pretty).
    revert Heq. generalize (pretty x), (pretty y).
    induction prefix as [|a prefix IH]; intros s t Heq.
    + exact Heq.
    + rewrite !app_cons in Heq. injection Heq as Heq. apply IH. exact Heq.
Qed.

(** The tables of workers: [numProducers] entries (none for a flag that
    is not positive), entry [j] named ["producer_"] followed by [j] in
    decimal, and no two entries with the same name; likewise for the
    consumers.  The two versions build the same names. *)
Theorem tables_named (cfg : Config) :
  let producerNames := SlotBased.producer_name <$> SlotBased.make_producerTable cfg in
  let consumerNames := SlotBased.consumer_name <$> SlotBased.make_consumerTable cfg in
  length producerNames = Z.to_nat (numProducers cfg) /\
  length consumerNames = Z.to_nat (numConsumers cfg) /\
  (forall j : nat, (j < Z.to_nat (numProducers cfg))%nat ->
                   producerNames !! j = Some ("producer_" +:+ pretty (Z.of_nat j))) /\
  (forall j : nat, (j < Z.to_nat (numConsumers cfg))%nat ->
                   consumerNames !! j = Some ("consumer_" +:+ pretty (Z.of_nat j))) /\
  NoDup producerNames /\ NoDup consumerNames /\
  CounterBased.name <$> CounterBased.make_producerTable (numProducers cfg) = producerNames /\
  CounterBased.consumer_name <$> CounterBased.make_consumerTable (numConsumers cfg)
  = consumerNames.
Proof.
  cbn zeta. unfold SlotBased.make_producerTable, SlotBased.make_consumerTable,
    CounterBased.make_producerTable, CounterBased.make_consumerTable.
  rewrite <- !list_fmap_compose.
  destruct (worker_names "producer_" (numProducers cfg)) as (Hl1 & Hn1 & Hd1).
  destruct (worker_names "consumer_" (numConsumers cfg)) as (Hl2 & Hn2 & Hd2).
  repeat split; assumption.
Qed.

End WidgetFacts.


(** ** The slot-based version: slots and widgets are accounted for *)

Module SlotAccounts.
Import Go SlotBased Tally SlotInv SlotSteps SlotRuns.

(** The end of the run in which producer 1 overtakes producer 0. *)
Definition overtaken : State :=
  SlotClaims.end_of SlotClaims.overtaking SlotClaims.overtaking_schedule.

Definition is_produced_broken (e : Event) : bool :=
  match e with Produced _ _ wid => broken wid | _ => false end.

Lemma tally_agree {A} (f g : A -> bool) (l : list A) :
  Forall (fun x => f x = g x) l -> tally f l = tally g l.
Proof.
  induction 1 as [|x l Hx _ IH]; cbn; [reflexivity|]. rewrite Hx, IH. reflexivity.
Qed.

Lemma returned_workers (cfg : Config) (s : State) :
  Inv cfg s -> mainPC s = MReturned ->
  tally p_live (producers s) = 0 /\ tally c_live (consumers s) = 0.
Proof.
  intros I Hpc. destruct (finished_lines cfg s I Hpc) as (Hpl & Hcl).
  pose proof (inv_prodline cfg s I) as Ipl. pose proof (inv_consline cfg s I) as Icl.
  rewrite Hpl in Ipl. rewrite Hcl in Icl. tauto.
Qed.

(** Every job slot is accounted for at every moment of every run: it is
    still queued, held by a producer, turned into a widget, or dropped by
    a producer that was told to quit; nothing is dropped before [main] has
    closed the quit channel, and once [main] has returned no producer
    holds a slot. *)
Theorem slots_accounted (env : Env) (cfg : Config) (s0 s : State)
    (schedule : list Action) :
  WidgetProductionConsumptionLine_init cfg = Started s0 ->
  run env cfg s0 schedule = Some s ->
  Z.of_nat (length (buf (jobChannel s))) + tally p_holds (producers s)
  + units_produced s + units_dropped s = numWidgets cfg /\
  (closed (quitChannel s) = false -> units_dropped s = 0) /\
  (mainPC s = MReturned -> tally p_holds (producers s) = 0).
Proof.
  intros H0 Hrun.
  destruct (SlotClaims.reachable_inv env cfg s0 s schedule H0 Hrun) as (I & _).
  split; [exact (inv_slots cfg s I)|]. split; [exact (inv_no_drop cfg s I)|].
  intros Hpc. destruct (returned_workers cfg s I Hpc) as (Hp & _).
  pose proof (tally_mono p_holds p_live (producers s)) as Hle.
  pose proof (tally_nonneg p_holds (producers s)).
  assert (tally p_holds (producers s) <= tally p_live (producers s)); [|lia].
  apply Hle. intros [? []]; cbn; congruence.
Qed.

Lemma slots_accounted_witness :
  Z.of_nat (length (buf (jobChannel overtaken))) + tally p_holds (producers overtaken)
  + units_produced overtaken + units_dropped overtaken = numWidgets SlotClaims.overtaking /\
  (closed (quitChannel overtaken) = false -> units_dropped overtaken = 0) /\
  (mainPC overtaken = MReturned -> tally p_holds (producers overtaken) = 0).
Proof.
  apply (slots_accounted SlotClaims.quiet SlotClaims.overtaking
           (start_state SlotClaims.overtaking) overtaken
           SlotClaims.overtaking_schedule).
  - vm_compute. reflexivity.
  - vm_compute. reflexivity.
Defined.

(** Every widget is accounted for at every moment of every run: the
    widgets produced are those a producer is sending, those queued in the
    widget channel, those a consumer holds, those reported, and those a
    consumer discarded after the done channel was closed.  Once [main] has
    returned, a widget was reported, discarded, or is left in the channel. *)
Theorem widgets_accounted (env : Env) (cfg : Config) (s0 s : State)
    (schedule : list Action) :
  WidgetProductionConsumptionLine_init cfg = Started s0 ->
  run env cfg s0 schedule = Some s ->
  units_produced s =
    tally p_sends (producers s) + Z.of_nat (length (buf (widgetChannel s)))
    + tally c_has (consumers s) + units_consumed s + units_discarded s /\
  (closed (doneChannel s) = false -> units_discarded s = 0) /\
  (mainPC s = MReturned ->
   units_produced s =
     Z.of_nat (length (buf (widgetChannel s))) + units_consumed s + units_discarded s).
Proof.
  intros H0 Hrun.
  destruct (SlotClaims.reachable_inv env cfg s0 s schedule H0 Hrun) as (I & _).
  pose proof (inv_widgets cfg s I) as Hw.
  split; [exact Hw|]. split; [exact (inv_no_discard cfg s I)|].
  intros Hpc. destruct (returned_workers cfg s I Hpc) as (Hp & Hc).
  assert (tally p_sends (producers s) <= tally p_live (producers s))
    by (apply tally_mono; intros [? []]; cbn; congruence).
  assert (tally c_has (consumers s) <= tally c_live (consumers s))
    by (apply tally_mono; intros [? []]; cbn; congruence).
  pose proof (tally_nonneg p_sends (producers s)).
  pose proof (tally_nonneg c_has (consumers s)). lia.
Qed.

Lemma widgets_accounted_witness :
  units_produced overtaken =
    tally p_sends (producers overtaken) + Z.of_nat (length (buf (widgetChannel overtaken)))
    + tally c_has (consumers overtaken) + units_consumed overtaken
    + units_discarded overtaken /\
  (closed (doneChannel overtaken) = false -> units_discarded overtaken = 0) /\
  (mainPC overtaken = MReturned ->
   units_produced overtaken =
     Z.of_nat (length (buf (widgetChannel overtaken))) + units_consumed overtaken
     + units_discarded overtaken).
Proof.
  apply (widgets_accounted SlotClaims.quiet SlotClaims.overtaking
           (start_state SlotClaims.overtaking) overtaken
           SlotClaims.overtaking_schedule).
  - vm_compute. reflexivity.
  - vm_compute. reflexivity.
Defined.

(** In every run at most one broken widget is ever produced, and none when
    [numKth] is not one of the slots [1..numWidgets]; at most one report
    finds a broken widget. *)
Theorem at_most_one_broken (env : Env) (cfg : Config) (s0 s : State)
    (schedule : list Action) :
  WidgetProductionConsumptionLine_init cfg = Started s0 ->
  run env cfg s0 schedule = Some s ->
  0 <= broken_reports s <= tally is_produced_broken (trace s) /\
  tally is_produced_broken (trace s) <= 1 /\
  (numKth cfg < 1 \/ numWidgets cfg < numKth cfg ->
   tally is_produced_broken (trace s) = 0).
Proof.
  intros H0 Hrun.
  destruct (SlotClaims.reachable_inv env cfg s0 s schedule H0 Hrun) as (I & _).
  assert (tally is_produced_broken (trace s)
          = tally (is_produced_slot (numKth cfg)) (trace s)) as ->.
  { apply tally_agree. pose proof (inv_flag cfg s I) as Hflag.
    apply (Forall_impl _ _ _ Hflag). intros [p i wid| | | |]; cbn; try reflexivity.
    intros (-> & _). apply Z.eqb_sym. }
  open_inv I. nonnegs.
  destruct (Z.leb_spec 1 (numKth cfg)), (Z.leb_spec (numKth cfg) (numWidgets cfg));
    cbn in Ik; repeat split; lia.
Qed.

Lemma at_most_one_broken_witness :
  0 <= broken_reports overtaken <= tally is_produced_broken (trace overtaken) /\
  tally is_produced_broken (trace overtaken) <= 1 /\
  (numKth SlotClaims.overtaking < 1 \/
   numWidgets SlotClaims.overtaking < numKth SlotClaims.overtaking ->
   tally is_produced_broken (trace overtaken) = 0).
Proof.
  apply (at_most_one_broken SlotClaims.quiet SlotClaims.overtaking
           (start_state SlotClaims.overtaking) overtaken
           SlotClaims.overtaking_schedule).
  - vm_compute. reflexivity.
  - vm_compute. reflexivity.
Defined.

End SlotAccounts.


(** ** The slot-based version: where widgets and reports come from *)

Module SlotProvenance.
Import Go SlotBased Tally SlotInv.

(** Some producer made the widget. *)
Definition was_produced (tr : list Event) (wid : Widget) : Prop :=
  exists (p : nat) (i : Z), In (Produced p i wid) tr.

Definition producer_named (cfg : Config) (p : nat) (name : string) : Prop :=
  Z.of_nat p < numProducers cfg /\ name = "producer_" +:+ pretty (Z.of_nat p).

Definition consumer_named (cfg : Config) (name : string) : Prop :=
  exists c : nat, Z.of_nat c < numConsumers cfg /\ name = "consumer_" +:+ pretty (Z.of_nat c).

(** What an event says about its widget, [now] readings of the clock into
    the run: a widget is stamped with the name of its producer and an
    earlier reading of the clock; a report names a consumer, and the
    duration it prints is the difference of a later reading and the stamp,
    as [time.Since] computes it; which of the two reports is printed goes
    by the flag. *)
Definition event_ok (env : Env) (cfg : Config) (now : nat) (e : Event) : Prop :=
  match e with
  | Produced p _ wid =>
      producer_named cfg p (source wid) /\
      exists t : nat, (t < now)%nat /\ time wid = clock env t
  | Printed (LConsumes con wid since) =>
      consumer_named cfg con /\ broken wid = false /\
      exists t0 t : nat,
        (t0 < t < now)%nat /\ time wid = clock env t0 /\
        since = Sub (clock env t) (clock env t0)
  | Printed (LFoundBroken con wid) => consumer_named cfg con /\ broken wid = true
  | _ => True
  end.

(** The widget an event reports or discards. *)
Definition widget_of (e : Event) : option Widget :=
  match e with
  | Printed (LConsumes _ wid _) | Printed (LFoundBroken _ wid) | Discarded _ wid => Some wid
  | _ => None
  end.

Definition sent_by (x : Producer * ProducerPC) : option Widget :=
  match x.2 with PSend _ wid => Some wid | _ => None end.

Definition held_by (x : Consumer * ConsumerPC) : option Widget :=
  match x.2 with CSelect wid | CConsume wid => Some wid | _ => None end.

Record Prov (env : Env) (cfg : Config) (s : State) : Prop := mkProv {
  prov_producers :
    forall (p : nat) (x : Producer * ProducerPC),
      producers s !! p = Some x -> make_producerTable cfg !! p = Some x.1;
  prov_consumers :
    forall (c : nat) (x : Consumer * ConsumerPC),
      consumers s !! c = Some x -> make_consumerTable cfg !! c = Some x.1;
  prov_events : Forall (event_ok env cfg (ticks (world s))) (trace s);
  prov_sent :
    forall (p : nat) (x : Producer * ProducerPC) (wid : Widget),
      producers s !! p = Some x -> sent_by x = Some wid -> was_produced (trace s) wid;
  prov_queued : Forall (was_produced (trace s)) (buf (widgetChannel s));
  prov_held :
    forall (c : nat) (x : Consumer * ConsumerPC) (wid : Widget),
      consumers s !! c = Some x -> held_by x = Some wid -> was_produced (trace s) wid;
  prov_reported :
    forall (e : Event) (wid : Widget),
      In e (trace s) -> widget_of e = Some wid -> was_produced (trace s) wid
}.

Lemma was_produced_cons (e : Event) (tr : list Event) (wid : Widget) :
  was_produced tr wid -> was_produced (e :: tr) wid.
Proof. intros (p & i & H). exists p, i. right. exact H. Qed.

Lemma was_produced_new (p : nat) (i : Z) (wid : Widget) (tr : list Event) :
  was_produced (Produced p i wid :: tr) wid.
Proof. exists p, i. left. reflexivity. Qed.

Lemma event_ok_later (env : Env) (cfg : Config) (now now' : nat) (e : Event) :
  (now <= now')%nat -> event_ok env cfg now e -> event_ok env cfg now' e.
Proof.
  intros Hle. destruct e as [p i wid| | |[con wid since|con wid|]|]; cbn; try tauto.
  - intros (Hn & t & Ht & Hw). split; [exact Hn|]. exists t. split; [lia|exact Hw].
  - intros (Hn & Hb & t0 & t & Ht & Hw). split; [exact Hn|]. split; [exact Hb|].
    exists t0, t. split; [lia|exact Hw].
Qed.

Lemma producerTable_lookup (cfg : Config) (p : nat) (prod : Producer) :
  make_producerTable cfg !! p = Some prod -> producer_named cfg p (producer_name prod).
Proof.
  unfold make_producerTable. rewrite list_lookup_fmap.
  destruct (seqZ 0 (numProducers cfg) !! p) as [i|] eqn:Hi; [|discriminate].
  cbn. intros [= <-]. apply lookup_seqZ in Hi. destruct Hi as (-> & Hp).
  split; [lia|]. cbn. do 2 f_equal; lia.
Qed.

Lemma consumerTable_lookup (cfg : Config) (c : nat) (con : Consumer) :
  make_consumerTable cfg !! c = Some con -> consumer_named cfg (consumer_name con).
Proof.
  unfold make_consumerTable. rewrite list_lookup_fmap.
  destruct (seqZ 0 (numConsumers cfg) !! c) as [i|] eqn:Hi; [|discriminate].
  cbn. intros [= <-]. apply lookup_seqZ in Hi. destruct Hi as (-> & Hc).
  exists c. split; [lia|]. cbn. do 2 f_equal; lia.
Qed.

(** What [produce] stamps on a widget. *)
Lemma produce_stamp (env : Env) (prod : Producer) (flag : bool) (w w' : World)
      (wid : Widget) :
  produce env prod flag w = Some (wid, w') ->
  source wid = producer_name prod /\ time wid = clock env (ticks w) /\
  ticks w' = S (ticks w).
Proof.
  unfold produce.
  destruct (Identifier.idMaker_built env w) as ([token w1] & -> & _ & _ & Htk & _).
  cbn in *. intros [= <- <-]. cbn. rewrite Htk. repeat split.
Qed.

Lemma init_prov (env : Env) (cfg : Config) (s : State) :
  WidgetProductionConsumptionLine_init cfg = Started s -> Prov env cfg s.
Proof.
  intros Hs.
  destruct (init_start_state cfg s Hs) as (-> & Hpos).
  constructor; cbn; try constructor; intros; try discriminate; contradiction.
Qed.

Lemma produced_stamp (env : Env) (cfg : Config) (now : nat) (tr : list Event)
      (wid : Widget) :
  Forall (event_ok env cfg now) tr -> was_produced tr wid ->
  exists t0 : nat, (t0 < now)%nat /\ time wid = clock env t0.
Proof.
  intros Hev (p & i & Hin). rewrite Forall_forall in Hev.
  apply (Hev (Produced p i wid)). apply list_elem_of_In. exact Hin.
Qed.

Ltac unpack H :=
  repeat match type of H with
    | context [match ?x with _ => _ end] => destruct x eqn:?
    | context [if ?x then _ else _] => destruct x eqn:?
    end;
  try discriminate; try (injection H as <-);
  repeat match goal with
    | E : (if ?b then _ else _) = _ |- _ => destruct b eqn:?; try discriminate E
    | E : match ?x with _ => _ end = _ |- _ => destruct x eqn:?; try discriminate E
    | E : Some _ = Some _ |- _ => injection E as <-
    | E : RecvOk _ _ = RecvOk _ _ |- _ => injection E as <- <-
    | E : SendOk _ = SendOk _ |- _ => injection E as <-
    | E : (_, _) = (_, _) |- _ => injection E; clear E; intros; subst
    end.

Ltac simpl_state :=
  unfold panic, emit, set_producer, set_consumer; cbn;
  repeat (match goal with
          | H : ?l !! ?p = Some _ |- context [?l !! ?p] => rewrite H
          end; cbn).

Ltac open_prov P :=
  destruct P as [Pprod Pcons Pev Psent Pqueued Pheld Prep].

Ltac split_lookup H :=
  apply list_lookup_insert_Some in H;
  destruct H as [(? & ? & ?)|(? & H)]; subst; cbn in *.

Ltac weaken :=
  repeat first
    [ assumption
    | apply was_produced_new
    | apply was_produced_cons
    | match goal with
      | |- Forall _ (_ :: _) => apply Forall_cons; split
      | |- Forall _ (_ ++ _) => apply Forall_app; split
      | |- Forall _ [] => apply Forall_nil_2
      | H : Forall _ (_ :: _) |- _ => apply Forall_cons in H; destruct H
      | H : Forall ?P ?l |- Forall ?Q ?l =>
          apply (Forall_impl _ _ _ H); clear H; intros
      end ].

Ltac learn H :=
  let T := type of H in
  lazymatch goal with
  | _ : T |- _ => fail
  | _ => pose proof H
  end.

(** What the invariant says of the workers whose state is known. *)
Ltac saturate Pprod Pcons Psent Pheld :=
  repeat match goal with
    | Hl : producers _ !! _ = Some (_, PSend _ _) |- _ =>
        progress (learn (Pprod _ _ Hl); learn (Psent _ _ _ Hl eq_refl))
    | Hl : producers _ !! _ = Some (_, _) |- _ => progress (learn (Pprod _ _ Hl))
    | Hl : consumers _ !! _ = Some (_, CSelect _) |- _ =>
        progress (learn (Pcons _ _ Hl); learn (Pheld _ _ _ Hl eq_refl))
    | Hl : consumers _ !! _ = Some (_, CConsume _) |- _ =>
        progress (learn (Pcons _ _ Hl); learn (Pheld _ _ _ Hl eq_refl))
    | Hl : consumers _ !! _ = Some (_, _) |- _ => progress (learn (Pcons _ _ Hl))
    end;
  cbn [fst snd] in *.

Ltac cases :=
  repeat match goal with
    | H : <[_ := _]> _ !! _ = Some _ |- _ => split_lookup H
    | H : (_ <$> _) !! _ = Some _ |- _ =>
        rewrite list_lookup_fmap in H;
        let E := fresh "E" in
        destruct (_ !! _) eqn:E in H; [|discriminate H]; cbn in H
    | H : Some _ = Some _ |- _ => injection H as <-
    | H : _ = _ \/ In _ _ |- _ => destruct H as [<-|H]; cbn in *
    | H : In _ (_ :: _) |- _ => destruct H as [<-|H]; cbn in *
    end; try discriminate.

Ltac settle :=
  constructor; cbn; intros; cases;
  repeat match goal with
    | H : buf ?c = _ |- context [buf ?c] => rewrite H
    end;
  try solve [eauto | weaken; cbn; eauto | weaken; cbn; exact I].

Section Preservation.
Variable env : Env.
Variable cfg : Config.

Lemma producer_step_prov (p : nat) (s s' : State) :
  Prov env cfg s -> producer_step env cfg p s = Some s' -> Prov env cfg s'.
Proof.
  intros P H. open_prov P.
  unfold producer_step, producer_return, recv, send, ready, recv, wg_done, wg_add in H.
  unpack H; saturate Pprod Pcons Psent Pheld; simpl_state; settle.
  all: match goal with
       | Hp : produce _ _ _ _ = Some _ |- _ =>
           destruct (produce_stamp _ _ _ _ _ _ Hp) as (Hsrc & Htime & Htick)
       end.
  all: apply Forall_cons; split;
    [|apply (Forall_impl _ _ _ Pev); intros e; apply event_ok_later; lia].
  all: cbn; split;
    [rewrite Hsrc; apply producerTable_lookup; assumption
    |exists (ticks (world s)); split; [lia|assumption]].
Qed.

Lemma main_step_prov (s s' : State) :
  Prov env cfg s -> main_step cfg s = Some s' -> Prov env cfg s'.
Proof.
  intros P H. open_prov P. unfold main_step, recv, close, wg_wait in H.
  unpack H; simpl_state; settle.
Qed.

Lemma productionLine_step_prov (s s' : State) :
  Prov env cfg s -> productionLine_step cfg s = Some s' -> Prov env cfg s'.
Proof.
  intros P H. open_prov P.
  unfold productionLine_step, close, wg_wait, wg_done, wg_add in H.
  unpack H; simpl_state; settle.
Qed.

Lemma consumptionLine_step_prov (s s' : State) :
  Prov env cfg s -> consumptionLine_step cfg s = Some s' -> Prov env cfg s'.
Proof.
  intros P H. open_prov P.
  unfold consumptionLine_step, close, wg_wait, wg_done, wg_add in H.
  unpack H; simpl_state; settle.
Qed.

Lemma handoff_step_prov (p c : nat) (s s' : State) :
  Prov env cfg s -> handoff_step p c s = Some s' -> Prov env cfg s'.
Proof.
  intros P H. open_prov P. unfold handoff_step in H.
  unpack H; saturate Pprod Pcons Psent Pheld; simpl_state; settle.
Qed.

Lemma consumer_step_prov (c : nat) (s s' : State) :
  Prov env cfg s -> consumer_step env c s = Some s' -> Prov env cfg s'.
Proof.
  intros P H. open_prov P.
  unfold consumer_step, consumer_return, consume, Since, recv, close, ready, recv,
    wg_done, wg_add, Now in H.
  unpack H; saturate Pprod Pcons Psent Pheld; simpl_state; settle.
  all: apply Forall_cons; split;
    [|apply (Forall_impl _ _ _ Pev); intros e; apply event_ok_later; lia].
  all: cbn; split; [eapply consumerTable_lookup; eassumption|].
  all: try solve [destruct (broken wid); cbn in *; congruence].
  all: split; [destruct (broken wid); cbn in *; congruence|].
  all: match goal with
       | Hw : was_produced _ ?wid |- _ =>
           destruct (produced_stamp _ _ _ _ _ Pev Hw) as (t0 & Ht0 & Htime)
       end.
  all: eexists t0, _; rewrite Htime; repeat split; [exact Ht0|lia].
Qed.

Theorem exec_prov (s s' : State) (a : Action) :
  Prov env cfg s -> exec env cfg s a = Some s' -> Prov env cfg s'.
Proof.
  intros P H. unfold exec in H. destruct (over s); [discriminate|].
  destruct a.
  - exact (main_step_prov s s' P H).
  - exact (productionLine_step_prov s s' P H).
  - exact (consumptionLine_step_prov s s' P H).
  - exact (producer_step_prov p s s' P H).
  - exact (consumer_step_prov c s s' P H).
  - exact (handoff_step_prov p c s s' P H).
Qed.

Theorem run_prov (schedule : list Action) :
  forall s s' : State,
    Prov env cfg s -> run env cfg s schedule = Some s' -> Prov env cfg s'.
Proof.
  induction schedule as [|a rest IH]; intros s s' P H; cbn in H.
  - injection H as <-. exact P.
  - destruct (exec env cfg s a) as [s1|] eqn:Hstep; [|discriminate].
    apply (IH s1 s'); [|exact H]. exact (exec_prov s s1 a P Hstep).
Qed.

End Preservation.

Lemma reachable_prov (env : Env) (cfg : Config) (s0 s : State) (schedule : list Action) :
  WidgetProductionConsumptionLine_init cfg = Started s0 ->
  run env cfg s0 schedule = Some s ->
  Prov env cfg s.
Proof.
  intros H0 Hrun.
  exact (run_prov env cfg schedule s0 s (init_prov env cfg s0 H0) Hrun).
Qed.

Lemma in_trace (env : Env) (cfg : Config) (s : State) (e : Event) :
  Prov env cfg s -> In e (trace s) -> event_ok env cfg (ticks (world s)) e.
Proof.
  intros P Hin. pose proof (prov_events _ _ _ P) as Hev.
  rewrite Forall_forall in Hev. apply Hev, list_elem_of_In, Hin.
Qed.

(** The slot a widget of the trace was made from decides its flag. *)
Lemma slot_of_flag (cfg : Config) (s : State) (p : nat) (i : Z) (wid : Widget) :
  Inv cfg s -> In (Produced p i wid) (trace s) ->
  broken wid = true <-> i = numKth cfg.
Proof.
  intros I Hin. pose proof (inv_flag cfg s I) as Hflag.
  rewrite Forall_forall in Hflag.
  destruct (Hflag (Produced p i wid) ltac:(apply list_elem_of_In; exact Hin)) as (Hb & _).
  rewrite Hb. destruct (Z.eqb_spec (numKth cfg) i); split; intros; (lia || congruence).
Qed.

(** A finished run of [-n 1 -p 1 -c 1]: one widget, produced and consumed. *)
Definition plain_schedule : list Action :=
  [RunMain; RunProductionLine; RunConsumptionLine;
   RunProducer 0; RunProducer 0; RunProducer 0; RunProducer 0;
   RunConsumer 0; RunConsumer 0; RunConsumer 0;
   RunProducer 0; RunProductionLine; RunProductionLine; RunProductionLine;
   RunConsumer 0; RunConsumptionLine; RunConsumptionLine; RunMain].

Definition plain_widget : Widget :=
  mkWidget "aaaaaaaaaaaaaaaa-aaaaaaaaaaaaaaa" "producer_0" 0 false.

(** In every run, a widget made by producer [p] carries the name
    ["producer_p"] of an entry of the producer table and, as its time, a
    reading of the clock taken earlier in the run. *)
Theorem widget_names_its_producer (env : Env) (cfg : Config) (s0 s : State)
    (schedule : list Action) (p : nat) (i : Z) (wid : Widget) :
  WidgetProductionConsumptionLine_init cfg = Started s0 ->
  run env cfg s0 schedule = Some s ->
  In (Produced p i wid) (trace s) ->
  Z.of_nat p < numProducers cfg /\
  source wid = "producer_" +:+ pretty (Z.of_nat p) /\
  exists t : nat, (t < ticks (world s))%nat /\ time wid = clock env t.
Proof.
  intros H0 Hrun Hin.
  pose proof (reachable_prov env cfg s0 s schedule H0 Hrun) as P.
  destruct (in_trace env cfg s _ P Hin) as ((Hp & Hname) & Hstamp).
  split; [exact Hp|]. split; [exact Hname|exact Hstamp].
Qed.

Lemma widget_names_its_producer_witness :
  Z.of_nat 1 < numProducers SlotClaims.overtaking /\
  source SlotClaims.overtaking_widget = "producer_" +:+ pretty (Z.of_nat 1) /\
  exists t : nat,
    (t < ticks (world (SlotClaims.end_of SlotClaims.overtaking
                         SlotClaims.overtaking_schedule)))%nat /\
    time SlotClaims.overtaking_widget = clock SlotClaims.quiet t.
Proof.
  apply (widget_names_its_producer SlotClaims.quiet SlotClaims.overtaking
           (start_state SlotClaims.overtaking)
           (SlotClaims.end_of SlotClaims.overtaking SlotClaims.overtaking_schedule)
           SlotClaims.overtaking_schedule 1%nat 2 SlotClaims.overtaking_widget).
  - vm_compute. reflexivity.
  - vm_compute. reflexivity.
  - vm_compute. tauto.
Defined.

(** In every run, a report names a consumer of the table and is about a
    widget some producer made: the widget found broken was made from the
    slot [numKth], a widget reported as consumed from another slot.
    Consumers never report a widget nobody produced. *)
Theorem report_of_produced_widget (env : Env) (cfg : Config) (s0 s : State)
    (schedule : list Action) (l : Line) :
  WidgetProductionConsumptionLine_init cfg = Started s0 ->
  run env cfg s0 schedule = Some s ->
  In (Printed l) (trace s) ->
  match l with
  | LConsumes con wid _ =>
      consumer_named cfg con /\
      exists (p : nat) (i : Z), In (Produced p i wid) (trace s) /\ i <> numKth cfg
  | LFoundBroken con wid =>
      consumer_named cfg con /\
      exists p : nat, In (Produced p (numKth cfg) wid) (trace s)
  | LExecutionStops => True
  end.
Proof.
  intros H0 Hrun Hin.
  pose proof (reachable_prov env cfg s0 s schedule H0 Hrun) as P.
  destruct (SlotClaims.reachable_inv env cfg s0 s schedule H0 Hrun) as (I & _).
  pose proof (in_trace env cfg s _ P Hin) as Hok.
  destruct l as [con wid since|con wid|]; [| |exact Logic.I].
  - destruct Hok as (Hn & Hb & _). split; [exact Hn|].
    destruct (prov_reported _ _ _ P _ wid Hin eq_refl) as (p & i & Hp).
    exists p, i. split; [exact Hp|].
    intros Hi. apply (slot_of_flag cfg s p i wid I Hp) in Hi. congruence.
  - destruct Hok as (Hn & Hb). split; [exact Hn|].
    destruct (prov_reported _ _ _ P _ wid Hin eq_refl) as (p & i & Hp).
    exists p. apply (slot_of_flag cfg s p i wid I Hp) in Hb. subst i. exact Hp.
Qed.

Lemma report_of_produced_widget_witness :
  consumer_named SlotClaims.overtaking "consumer_0" /\
  exists p : nat,
    In (Produced p (numKth SlotClaims.overtaking) SlotClaims.overtaking_widget)
       (trace (SlotClaims.end_of SlotClaims.overtaking SlotClaims.overtaking_schedule)).
Proof.
  apply (report_of_produced_widget SlotClaims.quiet SlotClaims.overtaking
           (start_state SlotClaims.overtaking)
           (SlotClaims.end_of SlotClaims.overtaking SlotClaims.overtaking_schedule)
           SlotClaims.overtaking_schedule
           (LFoundBroken "consumer_0" SlotClaims.overtaking_widget)).
  - vm_compute. reflexivity.
  - vm_compute. reflexivity.
  - vm_compute. tauto.
Defined.

(** The duration a consumption report prints is the difference of two
    readings of the clock, the later one taken by the consumer: with a
    clock that does not run backwards it is never negative. *)
Theorem consumption_time_nonneg (env : Env) (cfg : Config) (s0 s : State)
    (schedule : list Action) (con : string) (wid : Widget) (since : Z) :
  (forall a b : nat, (a <= b)%nat -> clock env a <= clock env b) ->
  WidgetProductionConsumptionLine_init cfg = Started s0 ->
  run env cfg s0 schedule = Some s ->
  In (Printed (LConsumes con wid since)) (trace s) ->
  0 <= since.
Proof.
  intros Hclock H0 Hrun Hin.
  pose proof (reachable_prov env cfg s0 s schedule H0 Hrun) as P.
  destruct (in_trace env cfg s _ P Hin) as (_ & _ & t0 & t & Ht & _ & ->).
  pose proof (Hclock t0 t ltac:(lia)).
  unfold Sub, minDuration, maxDuration. lia.
Qed.

Lemma consumption_time_nonneg_witness : 0 <= 1.
Proof.
  apply (consumption_time_nonneg SlotClaims.quiet SlotClaims.plain
           (start_state SlotClaims.plain)
           (SlotClaims.end_of SlotClaims.plain plain_schedule)
           plain_schedule "consumer_0" plain_widget 1).
  - intros a b Hab. cbn. lia.
  - vm_compute. reflexivity.
  - vm_compute. reflexivity.
  - vm_compute. tauto.
Defined.


End SlotProvenance.


(** ** The slot-based version: how a run ends is decided by the flags *)

Module SlotEnds.
Import Go SlotBased Tally SlotInv SlotSteps SlotRuns SlotProvenance.

(** The actions that can execute in a state are among these: a worker
    outside the tables has no step. *)
Definition candidates (s : State) : list Action :=
  [RunMain; RunProductionLine; RunConsumptionLine]
  ++ (RunProducer <$> seq 0 (length (producers s)))
  ++ (RunConsumer <$> seq 0 (length (consumers s)))
  ++ (p ← seq 0 (length (producers s));
      c ← seq 0 (length (consumers s)); [Handoff p c]).

(** The first action of a list that executes, with the state it leads to. *)
Fixpoint first_step (env : Env) (cfg : Config) (s : State) (l : list Action)
    : option (Action * State) :=
  match l with
  | [] => None
  | a :: rest =>
      match exec env cfg s a with
      | Some s' => Some (a, s')
      | None => first_step env cfg s rest
      end
  end.


Section Ends.
Variable env : Env.
Variable cfg : Config.

Lemma exec_candidates (s s' : State) (a : Action) :
  exec env cfg s a = Some s' -> a ∈ candidates s.
Proof.
  unfold exec, candidates. destruct (over s); [discriminate|].
  destruct a as [| | |p|c|p c]; intros H.
  - repeat constructor.
  - repeat constructor.
  - repeat constructor.
  - unfold producer_step in H.
    destruct (producers s !! p) eqn:Hl; [|discriminate].
    apply lookup_lt_Some in Hl.
    do 3 right. apply elem_of_app. left.
    apply list_elem_of_fmap. exists p. split; [reflexivity|].
    apply elem_of_seq. lia.
  - unfold consumer_step in H.
    destruct (consumers s !! c) eqn:Hl; [|discriminate].
    apply lookup_lt_Some in Hl.
    do 3 right. apply elem_of_app. right. apply elem_of_app. left.
    apply list_elem_of_fmap. exists c. split; [reflexivity|].
    apply elem_of_seq. lia.
  - unfold handoff_step in H.
    destruct (producers s !! p) eqn:Hp; [|discriminate].
    destruct (consumers s !! c) eqn:Hc; [|destruct p0 as [? []]; discriminate].
    apply lookup_lt_Some in Hp. apply lookup_lt_Some in Hc.
    do 3 right. apply elem_of_app. right. apply elem_of_app. right.
    apply list_elem_of_bind. exists p. split; [|apply elem_of_seq; lia].
    apply list_elem_of_bind. exists c. split; [|apply elem_of_seq; lia].
    apply list_elem_of_singleton. reflexivity.
Qed.

Lemma first_step_some (s s' : State) (l : list Action) (a : Action) :
  first_step env cfg s l = Some (a, s') -> exec env cfg s a = Some s'.
Proof.
  induction l as [|b l IH]; cbn; [discriminate|].
  destruct (exec env cfg s b) eqn:Hb; [|exact IH].
  intros [= <- <-]. exact Hb.
Qed.

Lemma first_step_none (s : State) (l : list Action) (a : Action) :
  first_step env cfg s l = None -> a ∈ l -> exec env cfg s a = None.
Proof.
  induction l as [|b l IH]; cbn; intros Hnone Hin.
  - apply elem_of_nil in Hin. contradiction.
  - destruct (exec env cfg s b) eqn:Hb; [discriminate|].
    apply elem_of_cons in Hin. destruct Hin as [->|Hin]; [exact Hb|].
    exact (IH Hnone Hin).
Qed.

(** In every state either some action executes or none does. *)
Lemma halted_or_step (s : State) :
  (exists a s', exec env cfg s a = Some s') \/ (forall a, exec env cfg s a = None).
Proof.
  destruct (first_step env cfg s (candidates s)) as [[a s']|] eqn:Hf.
  - left. exists a, s'. exact (first_step_some s s' _ a Hf).
  - right. intros a. destruct (exec env cfg s a) as [s'|] eqn:Ha; [|reflexivity].
    rewrite <- Ha. apply (first_step_none s (candidates s) a Hf).
    exact (exec_candidates s s' a Ha).
Qed.



Lemma tally_pos_in {A} (f : A -> bool) (l : list A) :
  1 <= tally f l -> exists x, In x l /\ f x = true.
Proof.
  induction l as [|a l IH]; cbn; [lia|].
  destruct (f a) eqn:E; cbn.
  - intros _. exists a. split; [left; reflexivity|exact E].
  - intros H. destruct (IH H) as (x & Hin & Hx). exists x. split; [right|]; assumption.
Qed.

(** [main] returns only if the flags allow it: with a positive defect
    index, some consumer must have reported the broken widget, which some
    producer made from the slot [numKth]. *)
Lemma returned_well_configured (s : State) :
  Inv cfg s -> Prov env cfg s -> mainPC s = MReturned -> well_configured cfg.
Proof.
  intros I P Hpc. unfold well_configured.
  destruct (Z.leb_spec (numKth cfg) 0) as [Hk|Hk]; [left; exact Hk|right].
  pose proof (inv_main cfg s I) as Imain. rewrite Hpc in Imain.
  destruct Imain as (Hqb & Hkq & _).
  pose proof (inv_raised cfg s I) as Hr. rewrite (Hqb (Hkq Hk)) in Hr.
  pose proof (inv_found cfg s I) as Hf.
  pose proof (tally_nonneg c_closes_broken (consumers s)).
  destruct (tally_pos_in is_broken_report (trace s)) as (e & Hin & He).
  { unfold broken_reports, signal_raised in *. cbn in Hr. lia. }
  destruct e as [| | |[|con wid|]|]; try discriminate.
  pose proof (prov_events _ _ _ P) as Hev. rewrite Forall_forall in Hev.
  destruct (Hev _ ltac:(apply list_elem_of_In; exact Hin)) as ((c & Hc & _) & Hb).
  destruct (prov_reported _ _ _ P _ wid Hin eq_refl) as (p & i & Hp).
  destruct (Hev _ ltac:(apply list_elem_of_In; exact Hp)) as ((Hlt & _) & _).
  pose proof (inv_flag cfg s I) as Hflag. rewrite Forall_forall in Hflag.
  destruct (Hflag _ ltac:(apply list_elem_of_In; exact Hp)) as (Hbi & Hrange).
  rewrite Hb in Hbi. symmetry in Hbi. apply Z.eqb_eq in Hbi.
  unfold slot_in_range in Hrange. lia.
Qed.

End Ends.

(** In every run, [main] returns only if the defect index is not positive,
    or it is one of the slots [1..numWidgets] and there is at least one
    producer and one consumer. *)
Theorem returns_only_if (env : Env) (cfg : Config) (s0 s : State)
    (schedule : list Action) :
  WidgetProductionConsumptionLine_init cfg = Started s0 ->
  run env cfg s0 schedule = Some s ->
  mainPC s = MReturned ->
  numKth cfg <= 0 \/
  (1 <= numKth cfg <= numWidgets cfg /\ 1 <= numProducers cfg /\ 1 <= numConsumers cfg).
Proof.
  intros H0 Hrun Hpc.
  destruct (SlotClaims.reachable_inv env cfg s0 s schedule H0 Hrun) as (I & _).
  pose proof (reachable_prov env cfg s0 s schedule H0 Hrun) as P.
  exact (returned_well_configured env cfg s I P Hpc).
Qed.

Lemma returns_only_if_witness :
  numKth SlotClaims.overtaking <= 0 \/
  (1 <= numKth SlotClaims.overtaking <= numWidgets SlotClaims.overtaking /\
   1 <= numProducers SlotClaims.overtaking /\ 1 <= numConsumers SlotClaims.overtaking).
Proof.
  apply (returns_only_if SlotClaims.quiet SlotClaims.overtaking
           (start_state SlotClaims.overtaking)
           (SlotClaims.end_of SlotClaims.overtaking SlotClaims.overtaking_schedule)
           SlotClaims.overtaking_schedule).
  - vm_compute. reflexivity.
  - vm_compute. reflexivity.
  - vm_compute. reflexivity.
Defined.




End SlotEnds.


(** ** The counter-based version: how the manager's loop can end *)

Module CounterEnds.
Import Go CounterBased Tally CounterInv CounterSteps.

Definition p_live (x : producer * ProducerPC) : bool :=
  match x.2 with PReturned => false | _ => true end.
Definition c_live (x : consumer * ConsumerPC) : bool :=
  match x.2 with CReturned => false | _ => true end.

(** The first goroutine has called [wg.Add(1)] and not yet [wg.Done()]. *)
Definition init_counted (pc : InitPC) : bool :=
  match pc with IGSend | IGDone => true | _ => false end.

(** Where the manager stands relative to its four [close] statements. *)
Definition closed_prod (pc : ManagerPC) : bool :=
  match pc with
  | MgrCloseCons | MgrCloseBroken | MgrCloseWidget | MgrWgWait | MgrReturned => true
  | _ => false
  end.
Definition closed_cons (pc : ManagerPC) : bool :=
  match pc with
  | MgrCloseBroken | MgrCloseWidget | MgrWgWait | MgrReturned => true
  | _ => false
  end.
Definition closed_broken (pc : ManagerPC) : bool :=
  match pc with MgrCloseWidget | MgrWgWait | MgrReturned => true | _ => false end.
Definition closed_widget (pc : ManagerPC) : bool :=
  match pc with MgrWgWait | MgrReturned => true | _ => false end.

(** The manager has received a production count, a consumption count. *)
Definition counted_prod (pc : ManagerPC) : bool :=
  match pc with MgrRecvProd => false | _ => true end.
Definition counted_cons (pc : ManagerPC) : bool :=
  match pc with MgrRecvProd | MgrRecvCons => false | _ => true end.

Record Ends (args : Config) (s : State) : Prop := mkEnds {
  ends_fault :
    forall p : Panic,
      fault s = Some p ->
      p = SendOnClosedChannel /\ closed (productionCounterChannel s) = true;
  ends_wg :
    wg s = tally p_live (producers s) + tally c_live (consumers s)
           + Z.b2z (init_counted (initPC s));
  ends_closed :
    closed (productionCounterChannel s) = closed_prod (managerPC s) /\
    closed (consumptionCounterChannel s) = closed_cons (managerPC s) /\
    closed (brokenWidgetChannel s) = closed_broken (managerPC s) /\
    closed (widgetChannel s) = closed_widget (managerPC s) /\
    closed (quitChannel s) = false;
  ends_counters :
    Z.b2z (counted_prod (managerPC s)) <= productionCounter s /\
    Z.b2z (counted_cons (managerPC s)) <= consumptionCounter s;
  ends_workers :
    (1 <= productionCounter s -> 1 <= numProducers args) /\
    (1 <= consumptionCounter s -> 1 <= numConsumers args);
  ends_tables :
    length (producers s) = Z.to_nat (numProducers args) /\
    length (consumers s) = Z.to_nat (numConsumers args);
  ends_stop :
    stopped (managerPC s) = true ->
    brokenWidgetConsumed s = true \/
    (productionCounter s = numWidgets args /\ consumptionCounter s = numWidgets args);
  ends_consumed : brokenWidgetConsumed s = true -> 0 <= numKth args;
  ends_returned : managerPC s = MgrReturned -> wg s = 0 /\ fault s = None
}.

Lemma init_ends (args : Config) : Ends args (widgetProductionLine_init args).
Proof.
  constructor; cbn; try discriminate.
  - rewrite ?length_fmap.
    rewrite !(tally_fmap _ (fun x => (x, PSelect))), !(tally_fmap _ (fun x => (x, CSelect))).
    cbn. rewrite !tally_all by reflexivity. lia.
  - repeat split; reflexivity.
  - lia.
  - lia.
  - unfold make_producerTable, make_consumerTable.
    rewrite !length_fmap, !length_seqZ. split; reflexivity.
Qed.

Ltac unpack H :=
  repeat first
    [ rewrite unbuffered_send in H by assumption
    | rewrite unbuffered_recv in H by assumption
    | match type of H with
      | context [produce ?e ?p ?b ?w] =>
          let Hp := fresh "Hp" in
          destruct (counter_produce_spec e p b w) as (? & ? & Hp & _);
          rewrite Hp in H; clear Hp
      end
    | match type of H with
      | context [match ?x with _ => _ end] => destruct x eqn:?
      | context [if ?x then _ else _] => destruct x eqn:?
      end ];
  try discriminate; try (injection H as <-);
  repeat match goal with
    | E : (if ?b then _ else _) = _ |- _ => destruct b eqn:?; try discriminate E
    | E : match ?x with _ => _ end = _ |- _ => destruct x eqn:?; try discriminate E
    | E : Some _ = Some _ |- _ => injection E as <-
    | E : RecvOk _ _ = RecvOk _ _ |- _ => injection E as <- <-
    | E : SendOk _ = SendOk _ |- _ => injection E as <-
    | E : (_, _) = (_, _) |- _ => injection E; clear E; intros; subst
    end.

Ltac simpl_state :=
  unfold worker_return, wg_done, wg_add, panic, print, set_producer, set_consumer; cbn;
  repeat (match goal with
          | H : ?l !! ?p = Some _ |- context [?l !! ?p] => rewrite H
          end; cbn).

Ltac open_ends E :=
  destruct E as [Efault Ewg (Ecp & Ecc & Ecb & Ecw & Ecq) (Epc & Ecs) (Ewp & Ewc)
                 (Elp & Elc) Estop Econsumed Ereturned].

(** A worker whose state is known counts in the tallies. *)
Ltac count_workers :=
  repeat match goal with
    | Hl : producers ?s !! _ = Some (_, ?pc) |- _ =>
        lazymatch goal with
        | _ : 1 <= tally p_live (producers s) |- _ => fail
        | _ => lazymatch pc with
               | PReturned => fail
               | _ => pose proof (tally_lookup p_live _ _ _ Hl eq_refl)
               end
        end
    | Hl : consumers ?s !! _ = Some (_, ?pc) |- _ =>
        lazymatch goal with
        | _ : 1 <= tally c_live (consumers s) |- _ => fail
        | _ => lazymatch pc with
               | CReturned => fail
               | _ => pose proof (tally_lookup c_live _ _ _ Hl eq_refl)
               end
        end
    end.

Ltac in_table :=
  repeat match goal with
    | Hl : ?l !! ?j = Some _ |- _ =>
        lazymatch goal with
        | _ : (j < length l)%nat |- _ => fail
        | _ => pose proof (lookup_lt_Some _ _ _ Hl)
        end
    end.

Ltac nonnegs :=
  repeat match goal with
    | |- context [tally ?f ?l] =>
        lazymatch goal with
        | _ : 0 <= tally f l |- _ => fail
        | _ => pose proof (tally_nonneg f l)
        end
    | H : context [tally ?f ?l] |- _ =>
        lazymatch goal with
        | _ : 0 <= tally f l |- _ => fail
        | _ => pose proof (tally_nonneg f l)
        end
    end.

Ltac settle :=
  repeat match goal with
    | |- context [if ?b then _ else _] => destruct b eqn:?
    end;
  repeat match goal with
    | Heq : managerPC ?s = _ |- _ => rewrite Heq in *
    | Heq : initPC ?s = _ |- _ => rewrite Heq in *
    end;
  constructor; cbn in *;
  repeat match goal with
    | Hl : ?l !! ?j = Some _ |- context [tally _ (<[?j := _]> ?l)] =>
        rewrite !(tally_insert _ _ _ _ _ Hl)
    end;
  rewrite ?length_insert; cbn;
  repeat match goal with
    | H : closed ?c = _ |- context [closed ?c] => rewrite H
    end;
  intros; nonnegs; b2z_bounds;
  repeat match goal with
    | H : _ || _ = true |- _ => apply orb_true_iff in H; destruct H
    | H : _ && _ = true |- _ => apply andb_true_iff in H; destruct H
    | H : (_ =? _) = true |- _ => apply Z.eqb_eq in H
    | H : (_ <? _) = true |- _ => apply Z.ltb_lt in H
    | H : (_ <? _) = false |- _ => apply Z.ltb_ge in H
    end;
  try solve [ discriminate | congruence | lia | tauto
            | repeat split; first [assumption | reflexivity | congruence | lia] ].

(** What is left goes by the phase the manager is in. *)
Ltac by_phase Iphase :=
  repeat match goal with
    | Heq : initPC ?s = _ |- _ => rewrite Heq in *
    end;
  match goal with
  | s : State |- _ =>
      destruct (managerPC s) eqn:?; cbn in *; try discriminate; try congruence;
      lazymatch type of Iphase with
      | Running _ _ =>
          destruct Iphase as [Rtoken Rprod Rcons Rmade Rproduced Rreported Rfirst
                              Rflag Rheld Rrb Rconsumed (Ob & Op & Oc & Ow)]
      | Stopping _ _ => destruct Iphase as [Smade Sreported Sinit Sflag Sheld Srb]
      end;
      repeat match goal with
        | Heq : initPC ?s = _ |- _ => rewrite Heq in *
        end;
      unfold made, reported in *; cbn in *; nonnegs; b2z_bounds;
      try solve [ discriminate | congruence | lia | tauto
                | repeat split; first [assumption | reflexivity | congruence | lia] ]
  end.

Lemma counter_over_false (s : State) :
  over s = false -> fault s = None /\ managerPC s <> MgrReturned.
Proof. unfold over. destruct (fault s), (managerPC s); intros H; split; congruence. Qed.

Section Preservation.
Variable env : Env.
Variable args : Config.

Lemma init_step_ends (s s' : State) :
  over s = false ->
  Inv args s -> Ends args s -> init_step args s = Some s' -> Ends args s'.
Proof.
  intros Hover I E H. destruct (counter_over_false s Hover) as (Hfault & Hmgr).
  open_inv I. open_ends E. unfold init_step in H.
  rewrite ?unbuffered_send in H by assumption. unfold wg_add, wg_done, wg_add in H.
  unpack H; count_workers; in_table; simpl_state; settle.
  all: try by_phase Iphase.
Qed.

Lemma manager_step_ends (s s' : State) :
  over s = false ->
  Inv args s -> Ends args s -> manager_step args s = Some s' -> Ends args s'.
Proof.
  intros Hover I E H. destruct (counter_over_false s Hover) as (Hfault & Hmgr).
  open_inv I. open_ends E. unfold manager_step in H.
  rewrite ?unbuffered_send, ?unbuffered_recv in H by assumption.
  unfold close, wg_wait, send in H.
  unpack H; count_workers; in_table; simpl_state; settle.
  all: try by_phase Iphase.
Qed.

Lemma producer_step_ends (j : nat) (s s' : State) :
  over s = false ->
  Inv args s -> Ends args s -> producer_step env j s = Some s' -> Ends args s'.
Proof.
  intros Hover I E H. destruct (counter_over_false s Hover) as (Hfault & Hmgr).
  open_inv I. open_ends E. unfold producer_step in H.
  unfold recv in H.
  unpack H; count_workers; in_table; simpl_state; settle.
  all: try by_phase Iphase.
Qed.

Lemma producer_quits_ends (j : nat) (s s' : State) :
  over s = false ->
  Inv args s -> Ends args s -> producer_quits j s = Some s' -> Ends args s'.
Proof.
  intros Hover I E H. destruct (counter_over_false s Hover) as (Hfault & Hmgr).
  open_inv I. open_ends E. unfold producer_quits in H.
  unfold recv in H.
  unpack H; count_workers; in_table; simpl_state; settle.
  all: try by_phase Iphase.
Qed.

Lemma flag_from_init_ends (j : nat) (s s' : State) :
  over s = false ->
  Inv args s -> Ends args s -> flag_from_init args j s = Some s' -> Ends args s'.
Proof.
  intros Hover I E H. destruct (counter_over_false s Hover) as (Hfault & Hmgr).
  open_inv I. open_ends E. unfold flag_from_init in H.
  unfold recv in H.
  unpack H; count_workers; in_table; simpl_state; settle.
  all: try by_phase Iphase.
Qed.

Lemma flag_from_manager_ends (j : nat) (s s' : State) :
  over s = false ->
  Inv args s -> Ends args s -> flag_from_manager args j s = Some s' -> Ends args s'.
Proof.
  intros Hover I E H. destruct (counter_over_false s Hover) as (Hfault & Hmgr).
  open_inv I. open_ends E. unfold flag_from_manager in H.
  unfold recv in H.
  unpack H; count_workers; in_table; simpl_state; settle.
  all: try by_phase Iphase.
Qed.

Lemma flag_from_closed_ends (j : nat) (s s' : State) :
  over s = false ->
  Inv args s -> Ends args s -> flag_from_closed j s = Some s' -> Ends args s'.
Proof.
  intros Hover I E H. destruct (counter_over_false s Hover) as (Hfault & Hmgr).
  open_inv I. open_ends E. unfold flag_from_closed in H.
  unfold recv in H.
  unpack H; count_workers; in_table; simpl_state; settle.
  all: try by_phase Iphase.
Qed.

Lemma count_production_ends (j : nat) (s s' : State) :
  over s = false ->
  Inv args s -> Ends args s -> count_production j s = Some s' -> Ends args s'.
Proof.
  intros Hover I E H. destruct (counter_over_false s Hover) as (Hfault & Hmgr).
  open_inv I. open_ends E. unfold count_production in H.
  unfold recv in H.
  unpack H; count_workers; in_table; simpl_state; settle.
  all: try by_phase Iphase.
Qed.

Lemma consumer_step_ends (k : nat) (s s' : State) :
  over s = false ->
  Inv args s -> Ends args s -> consumer_step env k s = Some s' -> Ends args s'.
Proof.
  intros Hover I E H. destruct (counter_over_false s Hover) as (Hfault & Hmgr).
  open_inv I. open_ends E. unfold consumer_step, Since, Now in H.
  unfold recv in H.
  unpack H; count_workers; in_table;
    try match goal with
        | Hl : consumers _ !! _ = Some (_, CPrintTail ?wid), Hb : broken ?wid = true |- _ =>
            pose proof (tally_lookup c_reported_broken _ _ _ Hl Hb);
            pose proof (tally_lookup c_reported _ _ _ Hl eq_refl)
        end;
    simpl_state; settle.
  all: try by_phase Iphase.
Qed.

Lemma consumer_quits_ends (k : nat) (s s' : State) :
  over s = false ->
  Inv args s -> Ends args s -> consumer_quits k s = Some s' -> Ends args s'.
Proof.
  intros Hover I E H. destruct (counter_over_false s Hover) as (Hfault & Hmgr).
  open_inv I. open_ends E. unfold consumer_quits in H.
  unfold recv in H.
  unpack H; count_workers; in_table; simpl_state; settle.
  all: try by_phase Iphase.
Qed.

Lemma widget_to_ends (j k : nat) (s s' : State) :
  over s = false ->
  Inv args s -> Ends args s -> widget_to j k s = Some s' -> Ends args s'.
Proof.
  intros Hover I E H. destruct (counter_over_false s Hover) as (Hfault & Hmgr).
  open_inv I. open_ends E. unfold widget_to in H.
  unfold recv in H.
  unpack H; count_workers; in_table; simpl_state; settle.
  all: try by_phase Iphase.
Qed.

Lemma widget_from_closed_ends (k : nat) (s s' : State) :
  over s = false ->
  Inv args s -> Ends args s -> widget_from_closed k s = Some s' -> Ends args s'.
Proof.
  intros Hover I E H. destruct (counter_over_false s Hover) as (Hfault & Hmgr).
  open_inv I. open_ends E. unfold widget_from_closed in H.
  unfold recv in H.
  unpack H; count_workers; in_table; simpl_state; settle.
  all: try by_phase Iphase.
Qed.

Lemma count_consumption_ends (k : nat) (s s' : State) :
  over s = false ->
  Inv args s -> Ends args s -> count_consumption k s = Some s' -> Ends args s'.
Proof.
  intros Hover I E H. destruct (counter_over_false s Hover) as (Hfault & Hmgr).
  open_inv I. open_ends E. unfold count_consumption in H.
  unfold recv in H.
  unpack H; count_workers; in_table; simpl_state; settle.
  all: try by_phase Iphase.
Qed.

Theorem exec_ends (s s' : State) (a : Action) :
  Inv args s -> Ends args s -> exec env args s a = Some s' -> Ends args s'.
Proof.
  intros I E H. unfold exec in H. destruct (over s) eqn:Hover; [discriminate|].
  destruct a.
  - exact (init_step_ends s s' Hover I E H).
  - exact (manager_step_ends s s' Hover I E H).
  - exact (producer_step_ends j s s' Hover I E H).
  - exact (consumer_step_ends k s s' Hover I E H).
  - exact (producer_quits_ends j s s' Hover I E H).
  - exact (consumer_quits_ends k s s' Hover I E H).
  - exact (flag_from_init_ends j s s' Hover I E H).
  - exact (flag_from_manager_ends j s s' Hover I E H).
  - exact (flag_from_closed_ends j s s' Hover I E H).
  - exact (count_production_ends j s s' Hover I E H).
  - exact (widget_to_ends j k s s' Hover I E H).
  - exact (widget_from_closed_ends k s s' Hover I E H).
  - exact (count_consumption_ends k s s' Hover I E H).
Qed.

Hypothesis defect_within : numKth args < numWidgets args.

Theorem run_ends (schedule : list Action) :
  forall s s' : State,
    Inv args s -> Ends args s -> run env args s schedule = Some s' ->
    Inv args s' /\ Ends args s'.
Proof.
  induction schedule as [|a rest IH]; intros s s' I E H; cbn in H.
  - injection H as <-. split; assumption.
  - destruct (exec env args s a) as [s1|] eqn:Hstep; [|discriminate].
    apply (IH s1 s'); [| |exact H].
    + exact (counter_exec_inv env args defect_within s s1 a I Hstep).
    + exact (exec_ends s s1 a I E Hstep).
Qed.

End Preservation.

Lemma reachable_ends (env : Env) (flags : Config) (schedule : list Action) (s : State) :
  numKth flags <= numWidgets flags ->
  Comparison.counter_run env flags schedule = Some s ->
  Inv (main_args flags) s /\ Ends (main_args flags) s.
Proof.
  intros Hk Hrun.
  assert (Hwithin : numKth (main_args flags) < numWidgets (main_args flags))
    by (cbn; lia).
  apply (run_ends env _ Hwithin schedule (Comparison.counter_start flags) s);
    [| |exact Hrun].
  - exact (counter_init_inv (main_args flags)).
  - exact (init_ends (main_args flags)).
Qed.

(** A worker that is handling a widget. *)
Definition p_busy (x : producer * ProducerPC) : bool :=
  match x.2 with PProduce _ | PSendCount _ | PSendWidget _ => true | _ => false end.
Definition c_busy (x : consumer * ConsumerPC) : bool :=
  match x.2 with CSelect | CReturned => false | _ => true end.

Lemma busy_producers (l : list (producer * ProducerPC)) :
  tally p_busy l = tally p_produces l + tally p_counts l + tally p_hands l.
Proof.
  induction l as [|[prod pc] l IH]; [reflexivity|].
  cbn [tally]. rewrite IH. destruct pc; cbn; lia.
Qed.

Lemma busy_consumers (l : list (consumer * ConsumerPC)) :
  tally c_busy l = tally c_took l + tally c_reported l + tally c_counts l.
Proof.
  induction l as [|[con pc] l IH]; [reflexivity|].
  cbn [tally]. rewrite IH. destruct pc; cbn; lia.
Qed.

(** The first three steps of a run: the first widget has been made. *)
Definition first_widget_schedule : list Action :=
  [RunInit; FlagFromInit 0; RunProducer 0].

(** The goroutines of [src/main.go] give no parallelism.  For flags with
    [k <= n] and in every run, as long as the manager is in its loop at
    most one worker is handling a widget, the production count is the
    consumption count or one more, and the widget table holds as many
    widgets as were counted or one more. *)
Theorem counter_lock_step (env : Env) (flags : Config) (schedule : list Action)
    (s : State) :
  numKth flags <= numWidgets flags ->
  Comparison.counter_run env flags schedule = Some s ->
  stopped (managerPC s) = false ->
  0 <= tally p_busy (producers s) + tally c_busy (consumers s) <= 1 /\
  0 <= consumptionCounter s <= productionCounter s /\
  productionCounter s <= consumptionCounter s + 1 /\
  productionCounter s <= Z.of_nat (length (widgetTable s)) <= productionCounter s + 1.
Proof.
  intros Hk Hrun Hloop.
  destruct (reachable_ends env flags schedule s Hk Hrun) as (I & E).
  pose proof (inv_phase _ _ I) as Iphase. rewrite Hloop in Iphase.
  destruct Iphase as [Rtoken _ _ Rmade Rproduced _ _ _ _ _ _ _].
  destruct E as [_ _ _ (Epc & Ecs) _ _ _ _ _].
  rewrite busy_producers, busy_consumers. unfold made in Rmade.
  nonnegs. b2z_bounds. lia.
Qed.

Lemma counter_lock_step_witness :
  0 <= tally p_busy (producers (Comparison.counter_end SlotClaims.overtaking
                                  first_widget_schedule))
       + tally c_busy (consumers (Comparison.counter_end SlotClaims.overtaking
                                    first_widget_schedule)) <= 1 /\
  0 <= consumptionCounter (Comparison.counter_end SlotClaims.overtaking
                             first_widget_schedule)
    <= productionCounter (Comparison.counter_end SlotClaims.overtaking
                            first_widget_schedule) /\
  productionCounter (Comparison.counter_end SlotClaims.overtaking first_widget_schedule)
  <= consumptionCounter (Comparison.counter_end SlotClaims.overtaking
                           first_widget_schedule) + 1 /\
  productionCounter (Comparison.counter_end SlotClaims.overtaking first_widget_schedule)
  <= Z.of_nat (length (widgetTable (Comparison.counter_end SlotClaims.overtaking
                                      first_widget_schedule)))
  <= productionCounter (Comparison.counter_end SlotClaims.overtaking
                          first_widget_schedule) + 1.
Proof.
  apply (counter_lock_step SlotClaims.quiet SlotClaims.overtaking first_widget_schedule).
  - vm_compute. congruence.
  - vm_compute. reflexivity.
  - vm_compute. reflexivity.
Defined.

(** For flags with [k <= n] and in every run, the only panic is a send on
    a closed channel, and it happens only after the manager has left its
    loop and closed the production counter channel: no [close] is repeated,
    the wait group never goes negative, [idMaker] never fails. *)
Theorem counter_panics_only_after_close (env : Env) (flags : Config)
    (schedule : list Action) (s : State) (p : Panic) :
  numKth flags <= numWidgets flags ->
  Comparison.counter_run env flags schedule = Some s ->
  fault s = Some p ->
  p = SendOnClosedChannel /\
  closed (productionCounterChannel s) = true /\
  stopped (managerPC s) = true.
Proof.
  intros Hk Hrun Hfault.
  destruct (reachable_ends env flags schedule s Hk Hrun) as (_ & E).
  destruct (ends_fault _ _ E p Hfault) as (-> & Hclosed).
  split; [reflexivity|]. split; [exact Hclosed|].
  destruct (ends_closed _ _ E) as (Hcp & _). rewrite Hclosed in Hcp.
  destruct (managerPC s); cbn in *; congruence.
Qed.

Lemma counter_panics_only_after_close_witness :
  SendOnClosedChannel = SendOnClosedChannel /\
  closed (productionCounterChannel
            (Comparison.counter_end Comparison.single Comparison.late_flag_schedule))
  = true /\
  stopped (managerPC (Comparison.counter_end Comparison.single
                        Comparison.late_flag_schedule)) = true.
Proof.
  apply (counter_panics_only_after_close SlotClaims.quiet Comparison.single
           Comparison.late_flag_schedule).
  - vm_compute. congruence.
  - vm_compute. reflexivity.
  - vm_compute. reflexivity.
Defined.

(** When the manager of [src/main.go] leaves its loop.  For flags with
    [k <= n] and in every run, once the manager has left its loop there is
    at least one producer and one consumer, at least one widget was counted
    as produced and as consumed, and either a consumer has reported the
    broken widget (and [k >= 1]) or both counters equal [n].  So with
    [-n 0] and no defect, or without a producer or a consumer, the manager
    never leaves its loop and [main] never returns. *)
Theorem counter_stops_only_if (env : Env) (flags : Config) (schedule : list Action)
    (s : State) :
  numKth flags <= numWidgets flags ->
  Comparison.counter_run env flags schedule = Some s ->
  stopped (managerPC s) = true ->
  1 <= numProducers flags /\ 1 <= numConsumers flags /\
  1 <= productionCounter s /\ 1 <= consumptionCounter s /\
  ((brokenWidgetConsumed s = true /\ 1 <= numKth flags) \/
   (productionCounter s = numWidgets flags /\ consumptionCounter s = numWidgets flags)).
Proof.
  intros Hk Hrun Hstop.
  destruct (reachable_ends env flags schedule s Hk Hrun) as (_ & E).
  destruct E as [_ _ _ (Epc & Ecs) (Ewp & Ewc) _ Estop Econsumed _].
  cbn in Ewp, Ewc, Estop, Econsumed.
  assert (1 <= productionCounter s /\ 1 <= consumptionCounter s) as (Hp & Hc).
  { destruct (managerPC s); cbn in *; try discriminate; split; lia. }
  split; [exact (Ewp Hp)|]. split; [exact (Ewc Hc)|].
  split; [exact Hp|]. split; [exact Hc|].
  destruct (Estop Hstop) as [Hb|Hn]; [left|right; exact Hn].
  split; [exact Hb|]. specialize (Econsumed Hb). lia.
Qed.

Lemma counter_stops_only_if_witness :
  1 <= numProducers SlotClaims.overtaking /\ 1 <= numConsumers SlotClaims.overtaking /\
  1 <= productionCounter (Comparison.counter_end SlotClaims.overtaking
                            Comparison.counter_schedule) /\
  1 <= consumptionCounter (Comparison.counter_end SlotClaims.overtaking
                             Comparison.counter_schedule) /\
  ((brokenWidgetConsumed (Comparison.counter_end SlotClaims.overtaking
                            Comparison.counter_schedule) = true /\
    1 <= numKth SlotClaims.overtaking) \/
   (productionCounter (Comparison.counter_end SlotClaims.overtaking
                         Comparison.counter_schedule)
    = numWidgets SlotClaims.overtaking /\
    consumptionCounter (Comparison.counter_end SlotClaims.overtaking
                          Comparison.counter_schedule)
    = numWidgets SlotClaims.overtaking)).
Proof.
  apply (counter_stops_only_if SlotClaims.quiet SlotClaims.overtaking
           Comparison.counter_schedule).
  - vm_compute. congruence.
  - vm_compute. reflexivity.
  - vm_compute. reflexivity.
Defined.

(** For flags with [k <= n] and in every run, when [main] of
    [src/main.go] has returned from [wg.Wait()] every producer, every
    consumer and the first goroutine have returned, and nothing has
    panicked. *)
Theorem counter_returns_after_workers (env : Env) (flags : Config)
    (schedule : list Action) (s : State) :
  numKth flags <= numWidgets flags ->
  Comparison.counter_run env flags schedule = Some s ->
  managerPC s = MgrReturned ->
  (forall (j : nat) (x : producer * ProducerPC),
      producers s !! j = Some x -> x.2 = PReturned) /\
  (forall (k : nat) (x : consumer * ConsumerPC),
      consumers s !! k = Some x -> x.2 = CReturned) /\
  initPC s = IGReturned /\ fault s = None.
Proof.
  intros Hk Hrun Hpc.
  destruct (reachable_ends env flags schedule s Hk Hrun) as (I & E).
  pose proof (inv_phase _ _ I) as Iphase. rewrite Hpc in Iphase. cbn in Iphase.
  destruct Iphase as [_ _ Sinit _ _ _].
  destruct E as [_ Ewg _ _ _ _ _ _ Ereturned].
  destruct (Ereturned Hpc) as (Hwg & Hfault). rewrite Hwg in Ewg.
  pose proof (tally_nonneg p_live (producers s)).
  pose proof (tally_nonneg c_live (consumers s)).
  assert (tally p_live (producers s) = 0 /\ tally c_live (consumers s) = 0 /\
          init_counted (initPC s) = false) as (Hp & Hc & Hi).
  { destruct (init_counted (initPC s)); cbn in Ewg; repeat split; lia. }
  split; [|split; [|split; [|exact Hfault]]].
  - intros j x Hl. pose proof (tally_zero_lookup p_live _ _ _ Hp Hl) as Hx.
    destruct x as [? []]; cbn in *; congruence.
  - intros k x Hl. pose proof (tally_zero_lookup c_live _ _ _ Hc Hl) as Hx.
    destruct x as [? []]; cbn in *; congruence.
  - destruct (initPC s); cbn in *; congruence.
Qed.

Lemma counter_returns_after_workers_witness :
  (forall (j : nat) (x : producer * ProducerPC),
      producers (Comparison.counter_end SlotClaims.overtaking
                   Comparison.counter_schedule) !! j = Some x ->
      x.2 = PReturned) /\
  (forall (k : nat) (x : consumer * ConsumerPC),
      consumers (Comparison.counter_end SlotClaims.overtaking
                   Comparison.counter_schedule) !! k = Some x ->
      x.2 = CReturned) /\
  initPC (Comparison.counter_end SlotClaims.overtaking Comparison.counter_schedule)
  = IGReturned /\
  fault (Comparison.counter_end SlotClaims.overtaking Comparison.counter_schedule) = None.
Proof.
  apply (counter_returns_after_workers SlotClaims.quiet SlotClaims.overtaking
           Comparison.counter_schedule).
  - vm_compute. congruence.
  - vm_compute. reflexivity.
  - vm_compute. reflexivity.
Defined.

(** *** The race at the end of a run *)

Lemma counter_run_app (env : Env) (args : Config) (schedule1 schedule2 : list Action) (s : State) :
  run env args s (schedule1 ++ schedule2) =
  match run env args s schedule1 with
  | Some s1 => run env args s1 schedule2
  | None => None
  end.
Proof.
  revert s. induction schedule1 as [|a rest IH]; intros s; cbn; [reflexivity|].
  destruct (exec env args s a); [apply IH|reflexivity].
Qed.

Lemma set_producer_lookup (j : nat) (pc pc0 : ProducerPC) (prod : producer) (s : State) :
  producers s !! j = Some (prod, pc0) ->
  producers (set_producer j pc s) !! j = Some (prod, pc).
Proof.
  intros Hl. rewrite (counter_set_producer_eq j pc pc0 prod s Hl). cbn.
  apply list_lookup_insert_eq. exact (lookup_lt_Some _ _ _ Hl).
Qed.

Lemma set_consumer_lookup (k : nat) (pc pc0 : ConsumerPC) (con : consumer) (s : State) :
  consumers s !! k = Some (con, pc0) ->
  consumers (set_consumer k pc s) !! k = Some (con, pc).
Proof.
  intros Hl. rewrite (counter_set_consumer_eq k pc pc0 con s Hl). cbn.
  apply list_lookup_insert_eq. exact (lookup_lt_Some _ _ _ Hl).
Qed.

(** A producer that is still in its [select] when the manager has closed
    the flag channel can take the case of the closed channel rather than
    its quit token: it reads [false], makes one more widget, which is not
    broken, and panics on its send to the closed counter channel. *)
Lemma late_producer (env : Env) (args : Config) (s : State) (j : nat) (prod : producer) :
  over s = false ->
  closed (brokenWidgetChannel s) = true ->
  closed (productionCounterChannel s) = true ->
  producers s !! j = Some (prod, PSelect) ->
  exists (s' : State) (wid : widget),
    run env args s [FlagFromClosed j; RunProducer j; RunProducer j] = Some s' /\
    fault s' = Some SendOnClosedChannel /\
    widgetTable s' = widgetTable s ++ [wid] /\ broken wid = false.
Proof.
  intros Hover Hcb Hcp Hl.
  destruct (counter_produce_spec env prod false (world s)) as (wid & w' & Hp & Hb).
  cbn [run]. unfold exec at 1. rewrite Hover. unfold flag_from_closed. rewrite Hl, Hcb.
  set (s1 := set_producer j (PProduce false) s).
  assert (over s1 = false) as Hover1.
  { unfold s1. rewrite (counter_set_producer_eq _ _ _ _ _ Hl). exact Hover. }
  assert (producers s1 !! j = Some (prod, PProduce false)) as Hl1
    by exact (set_producer_lookup _ _ _ _ _ Hl).
  assert (world s1 = world s) as Hw1
    by (unfold s1; rewrite (counter_set_producer_eq _ _ _ _ _ Hl); reflexivity).
  unfold exec at 1. rewrite Hover1. unfold producer_step at 1. rewrite Hl1, Hw1, Hp.
  set (s2 := set_producer j (PSendCount wid) _).
  assert (over s2 = false) as Hover2.
  { unfold s2. erewrite counter_set_producer_eq by exact Hl1. exact Hover1. }
  assert (producers s2 !! j = Some (prod, PSendCount wid)) as Hl2.
  { unfold s2. eapply set_producer_lookup. exact Hl1. }
  assert (closed (productionCounterChannel s2) = true) as Hcp2.
  { unfold s2, s1. erewrite counter_set_producer_eq by exact Hl1. cbn.
    rewrite (counter_set_producer_eq _ _ _ _ _ Hl). exact Hcp. }
  assert (widgetTable s2 = widgetTable s ++ [wid]) as Ht2.
  { unfold s2, s1. erewrite counter_set_producer_eq by exact Hl1. cbn.
    rewrite (counter_set_producer_eq _ _ _ _ _ Hl). reflexivity. }
  unfold exec at 1. rewrite Hover2. unfold producer_step. rewrite Hl2.
  unfold send. rewrite Hcp2.
  exists (panic SendOnClosedChannel s2), wid.
  split; [reflexivity|]. split; [reflexivity|]. split; [exact Ht2|exact Hb].
Qed.

(** What one step of a consumer inside [consume] does. *)
Definition consumer_at (s : State) (k : nat) (con : consumer) (pc : ConsumerPC) : Prop :=
  over s = false /\ consumers s !! k = Some (con, pc) /\
  closed (consumptionCounterChannel s) = true.

Lemma consumer_at_set (s : State) (k : nat) (con : consumer) (pc pc' : ConsumerPC)
      (s1 : State) :
  consumer_at s k con pc ->
  fault s1 = fault s -> managerPC s1 = managerPC s -> consumers s1 = consumers s ->
  consumptionCounterChannel s1 = consumptionCounterChannel s ->
  consumer_at (set_consumer k pc' s1) k con pc' /\
  stdout (set_consumer k pc' s1) = stdout s1 /\
  world (set_consumer k pc' s1) = world s1 /\
  brokenWidgetConsumed (set_consumer k pc' s1) = brokenWidgetConsumed s1.
Proof.
  intros (Hover & Hl & Hc) Hf Hm Hcs Hch.
  assert (consumers s1 !! k = Some (con, pc)) as Hl1 by (rewrite Hcs; exact Hl).
  rewrite (counter_set_consumer_eq k pc' pc con s1 Hl1). cbn.
  repeat split.
  - unfold over in *. cbn. rewrite Hf, Hm. exact Hover.
  - cbn. apply list_lookup_insert_eq. exact (lookup_lt_Some _ _ _ Hl1).
  - cbn. rewrite Hch. exact Hc.
Qed.

(** A consumer that is still in its [select] when the manager has closed
    the widget channel can take the case of the closed channel: it reads
    the zero widget, prints a full report of a widget nobody produced, and
    panics on its send to the closed counter channel. *)
Lemma late_consumer (env : Env) (args : Config) (s : State) (k : nat) (con : consumer) :
  over s = false ->
  closed (widgetChannel s) = true ->
  closed (consumptionCounterChannel s) = true ->
  consumers s !! k = Some (con, CSelect) ->
  exists s' : State,
    run env args s
        [WidgetFromClosed k; RunConsumer k; RunConsumer k; RunConsumer k;
         RunConsumer k; RunConsumer k] = Some s' /\
    fault s' = Some SendOnClosedChannel /\
    stdout s' = stdout s ++
                [FName (consumer_name con); FConsumes; FWidget (mkWidget "" "" 0 false);
                 FTail false (Some (Sub (clock env (ticks (world s))) 0))] /\
    brokenWidgetConsumed s' = brokenWidgetConsumed s.
Proof.
  intros Hover Hcw Hcc Hl.
  assert (consumer_at s k con CSelect) as A0 by (repeat split; assumption).
  set (zero := mkWidget "" "" 0 false).
  (* the receive from the closed channel *)
  destruct (consumer_at_set s k con CSelect (CPrintName zero) s A0
              eq_refl eq_refl eq_refl eq_refl) as (A1 & Ho1 & Hw1 & Hb1).
  set (s1 := set_consumer k (CPrintName zero) s) in *.
  (* the four prints *)
  destruct (consumer_at_set s1 k con _ (CPrintVerb zero)
              (print (FName (consumer_name con)) s1) A1
              eq_refl eq_refl eq_refl eq_refl) as (A2 & Ho2 & Hw2 & Hb2).
  set (s2 := set_consumer k (CPrintVerb zero) _) in *.
  destruct (consumer_at_set s2 k con _ (CPrintWidget zero)
              (print FConsumes s2) A2
              eq_refl eq_refl eq_refl eq_refl) as (A3 & Ho3 & Hw3 & Hb3).
  set (s3 := set_consumer k (CPrintWidget zero) _) in *.
  destruct (consumer_at_set s3 k con _ (CPrintTail zero)
              (print (FWidget zero) s3) A3
              eq_refl eq_refl eq_refl eq_refl) as (A4 & Ho4 & Hw4 & Hb4).
  set (s4 := set_consumer k (CPrintTail zero) _) in *.
  destruct (consumer_at_set s4 k con _ CSendCount
              (set_world (mkWorld (intn_calls (world s4)) (S (ticks (world s4))))
                 (print (FTail false (Some (Sub (clock env (ticks (world s4))) 0))) s4)) A4
              eq_refl eq_refl eq_refl eq_refl) as (A5 & Ho5 & Hw5 & Hb5).
  set (s5 := set_consumer k CSendCount _) in *.
  exists (panic SendOnClosedChannel s5).
  split; [|split; [reflexivity|split]].
  - cbn [run].
    unfold exec at 1. rewrite Hover. unfold widget_from_closed. rewrite Hl, Hcw.
    fold zero. fold s1.
    destruct A1 as (Hover1 & Hl1 & Hc1).
    unfold exec at 1. rewrite Hover1. unfold consumer_step at 1. rewrite Hl1. fold s2.
    destruct A2 as (Hover2 & Hl2 & Hc2).
    unfold exec at 1. rewrite Hover2. unfold consumer_step at 1. rewrite Hl2.
    change (negb (broken zero)) with true. cbv iota. fold s3.
    destruct A3 as (Hover3 & Hl3 & Hc3).
    unfold exec at 1. rewrite Hover3. unfold consumer_step at 1. rewrite Hl3. fold s4.
    destruct A4 as (Hover4 & Hl4 & Hc4).
    unfold exec at 1. rewrite Hover4. unfold consumer_step at 1. rewrite Hl4.
    change (negb (broken zero)) with true. change (broken zero) with false.
    unfold Since, Now. cbv iota beta zeta. change (time zero) with 0. fold s5.
    destruct A5 as (Hover5 & Hl5 & Hc5).
    unfold exec at 1. rewrite Hover5. unfold consumer_step at 1. rewrite Hl5.
    unfold send. rewrite Hc5. reflexivity.
  - change (stdout (panic SendOnClosedChannel s5)) with (stdout s5).
    rewrite Ho5. cbn [stdout set_world print set_stdout].
    rewrite Ho4. cbn [stdout print set_stdout].
    rewrite Ho3. cbn [stdout print set_stdout].
    rewrite Ho2. cbn [stdout print set_stdout].
    rewrite Ho1, Hw4. cbn [world print set_stdout]. rewrite Hw3.
    cbn [world print set_stdout]. rewrite Hw2. cbn [world print set_stdout].
    rewrite Hw1. rewrite <- !app_assoc. reflexivity.
  - change (brokenWidgetConsumed (panic SendOnClosedChannel s5))
      with (brokenWidgetConsumed s5).
    rewrite Hb5. cbn [brokenWidgetConsumed set_world print set_stdout].
    rewrite Hb4. cbn [brokenWidgetConsumed print set_stdout].
    rewrite Hb3. cbn [brokenWidgetConsumed print set_stdout].
    rewrite Hb2. cbn [brokenWidgetConsumed print set_stdout].
    exact Hb1.
Qed.

(** A run of [-n 1 -p 1 -c 1] up to the moment the manager has closed its
    channels and waits for the workers, which are still in their [select]. *)
Definition closing_schedule : list Action :=
  take 18 Comparison.late_flag_schedule ++ [RunManager].

(** The end of a run of [src/main.go] is a race.  In every run (flags with
    [k <= n]), a producer that is in its [select] once the flag channel is
    closed can, instead of taking its quit token, read [false] from the
    closed channel, append one more widget to the table, and panic with a
    send on the closed counter channel. *)
Theorem late_producer_panics (env : Env) (flags : Config) (schedule : list Action)
    (s : State) (j : nat) (prod : producer) :
  numKth flags <= numWidgets flags ->
  Comparison.counter_run env flags schedule = Some s ->
  over s = false ->
  closed (brokenWidgetChannel s) = true ->
  producers s !! j = Some (prod, PSelect) ->
  exists (s' : State) (wid : widget),
    Comparison.counter_run env flags
      (schedule ++ [FlagFromClosed j; RunProducer j; RunProducer j]) = Some s' /\
    fault s' = Some SendOnClosedChannel /\
    widgetTable s' = widgetTable s ++ [wid] /\ broken wid = false.
Proof.
  intros Hk Hrun Hover Hcb Hl.
  destruct (reachable_ends env flags schedule s Hk Hrun) as (_ & E).
  destruct (ends_closed _ _ E) as (Hcp & _ & Hbr & _).
  assert (closed (productionCounterChannel s) = true) as Hclosed.
  { rewrite Hcp. rewrite Hcb in Hbr. destruct (managerPC s); cbn in *; congruence. }
  destruct (late_producer env (main_args flags) s j prod Hover Hcb Hclosed Hl)
    as (s' & wid & Hrun' & Hrest).
  exists s', wid. split; [|exact Hrest].
  unfold Comparison.counter_run in *. rewrite counter_run_app, Hrun. exact Hrun'.
Qed.

Lemma late_producer_panics_witness :
  exists (s' : State) (wid : widget),
    Comparison.counter_run SlotClaims.quiet Comparison.single
      (closing_schedule ++ [FlagFromClosed 0; RunProducer 0; RunProducer 0]) = Some s' /\
    fault s' = Some SendOnClosedChannel /\
    widgetTable s' =
      widgetTable (Comparison.counter_end Comparison.single closing_schedule) ++ [wid] /\
    broken wid = false.
Proof.
  apply (late_producer_panics SlotClaims.quiet Comparison.single closing_schedule
           (Comparison.counter_end Comparison.single closing_schedule) 0%nat
           (mkproducer "producer_0" 0)).
  - vm_compute. congruence.
  - vm_compute. reflexivity.
  - vm_compute. reflexivity.
  - vm_compute. reflexivity.
  - vm_compute. reflexivity.
Defined.

Definition counter_end_in (env : Env) (flags : Config) (schedule : list Action) : State :=
  match Comparison.counter_run env flags schedule with
  | Some s => s
  | None => Comparison.counter_start flags
  end.

(** A clock that reads a date of the present: about 2020 years after the
    zero value of [time.Time], in nanoseconds. *)
Definition today : Env :=
  mkEnv (fun _ => 0) (fun n => 63745000000000000000 + Z.of_nat n).

(** Likewise a consumer that is in its [select] once the widget channel is
    closed can read the zero widget from it, print a complete report of a
    widget with an empty identifier and source that nobody produced, and
    panic with a send on the closed counter channel.  The duration it
    prints is the time since the zero value of [time.Time]: the largest
    duration there is, whenever the clock reads a date that far from it (any
    date after the third century). *)
Theorem late_consumer_reports_nothing (env : Env) (flags : Config)
    (schedule : list Action) (s : State) (k : nat) (con : consumer) :
  numKth flags <= numWidgets flags ->
  Comparison.counter_run env flags schedule = Some s ->
  over s = false ->
  closed (widgetChannel s) = true ->
  consumers s !! k = Some (con, CSelect) ->
  exists (s' : State) (since : Z),
    Comparison.counter_run env flags
      (schedule ++ [WidgetFromClosed k; RunConsumer k; RunConsumer k; RunConsumer k;
                    RunConsumer k; RunConsumer k]) = Some s' /\
    fault s' = Some SendOnClosedChannel /\
    stdout s' = stdout s ++
                [FName (consumer_name con); FConsumes; FWidget (mkWidget "" "" 0 false);
                 FTail false (Some since)] /\
    since = Sub (clock env (ticks (world s))) 0 /\
    (maxDuration <= clock env (ticks (world s)) -> since = maxDuration) /\
    brokenWidgetConsumed s' = brokenWidgetConsumed s.
Proof.
  intros Hk Hrun Hover Hcw Hl.
  destruct (reachable_ends env flags schedule s Hk Hrun) as (_ & E).
  destruct (ends_closed _ _ E) as (_ & Hcc & _ & Hw & _).
  assert (closed (consumptionCounterChannel s) = true) as Hclosed.
  { rewrite Hcc. rewrite Hcw in Hw. destruct (managerPC s); cbn in *; congruence. }
  destruct (late_consumer env (main_args flags) s k con Hover Hcw Hclosed Hl)
    as (s' & Hrun' & Hfault' & Hout & Hflag).
  exists s', (Sub (clock env (ticks (world s))) 0).
  split; [|split; [exact Hfault'|split; [exact Hout|split; [reflexivity|split]]]].
  - unfold Comparison.counter_run in *. rewrite counter_run_app, Hrun. exact Hrun'.
  - intros Hlate. unfold Sub, minDuration, maxDuration in *. lia.
  - exact Hflag.
Qed.

Lemma late_consumer_reports_nothing_witness :
  exists (s' : State) (since : Z),
    Comparison.counter_run today Comparison.single
      (closing_schedule ++ [WidgetFromClosed 0; RunConsumer 0; RunConsumer 0;
                            RunConsumer 0; RunConsumer 0; RunConsumer 0]) = Some s' /\
    fault s' = Some SendOnClosedChannel /\
    stdout s' =
      stdout (counter_end_in today Comparison.single closing_schedule) ++
      [FName (consumer_name (mkconsumer "consumer_0")); FConsumes;
       FWidget (mkWidget "" "" 0 false); FTail false (Some since)] /\
    since = Sub (clock today
                   (ticks (world (counter_end_in today Comparison.single
                                    closing_schedule)))) 0 /\
    (maxDuration <= clock today
                      (ticks (world (counter_end_in today Comparison.single
                                       closing_schedule))) ->
     since = maxDuration) /\
    brokenWidgetConsumed s' =
      brokenWidgetConsumed (counter_end_in today Comparison.single closing_schedule).
Proof.
  apply (late_consumer_reports_nothing today Comparison.single closing_schedule
           (counter_end_in today Comparison.single closing_schedule) 0%nat
           (mkconsumer "consumer_0")).
  - vm_compute. congruence.
  - vm_compute. reflexivity.
  - vm_compute. reflexivity.
  - vm_compute. reflexivity.
  - vm_compute. reflexivity.
Defined.

End CounterEnds.


(** ** The slot-based version: every slot is used at most once *)

Module SlotOnce.
Import Go SlotBased Tally SlotInv SlotSteps.

(** Where slot [i] is: queued, held by a producer, turned into a widget,
    or dropped. *)
Definition slot_count (i : Z) (s : State) : Z :=
  tally (fun j => j =? i) (buf (jobChannel s)) + tally (p_holds_slot i) (producers s)
  + tally (is_produced_slot i) (trace s) + tally (is_dropped_slot i) (trace s).

Definition Once (cfg : Config) (s : State) : Prop :=
  forall i : Z, slot_count i s = Z.b2z ((1 <=? i) && (i <=? numWidgets cfg)).

Lemma init_once (cfg : Config) (s : State) :
  WidgetProductionConsumptionLine_init cfg = Started s -> Once cfg s.
Proof.
  intros Hs i.
  destruct (init_start_state cfg s Hs) as (-> & Hpos).
  unfold slot_count, start_state. cbn. rewrite tally_seqZ_eq by lia.
  destruct (Z.leb_spec 1 i), (Z.ltb_spec i (1 + numWidgets cfg)),
    (Z.leb_spec i (numWidgets cfg)); cbn; lia.
Qed.

Ltac unpack H :=
  repeat match type of H with
    | context [match ?x with _ => _ end] => destruct x eqn:?
    | context [if ?x then _ else _] => destruct x eqn:?
    end;
  try discriminate; try (injection H as <-);
  repeat match goal with
    | E : (if ?b then _ else _) = _ |- _ => destruct b eqn:?; try discriminate E
    | E : match ?x with _ => _ end = _ |- _ => destruct x eqn:?; try discriminate E
    | E : Some _ = Some _ |- _ => injection E as <-
    | E : RecvOk _ _ = RecvOk _ _ |- _ => injection E as <- <-
    | E : SendOk _ = SendOk _ |- _ => injection E as <-
    | E : (_, _) = (_, _) |- _ => injection E; clear E; intros; subst
    end.

Ltac simpl_state :=
  unfold panic, emit, set_producer, set_consumer; cbn;
  repeat (match goal with
          | H : ?l !! ?p = Some _ |- context [?l !! ?p] => rewrite H
          end; cbn).

Ltac settle O :=
  let i := fresh "i" in
  intros i; specialize (O i); unfold slot_count in *; cbn;
  repeat match goal with
    | Hl : ?l !! ?j = Some _ |- context [tally _ (<[?j := _]> ?l)] =>
        rewrite !(tally_insert _ _ _ _ _ Hl)
    end;
  repeat match goal with
    | H : buf ?c = _ |- _ => rewrite H in *
    end;
  cbn in *; try lia.

Section Preservation.
Variable env : Env.
Variable cfg : Config.

Theorem exec_once (s s' : State) (a : Action) :
  Inv cfg s -> Once cfg s -> exec env cfg s a = Some s' -> Once cfg s'.
Proof.
  intros I O H. unfold exec in H. destruct (over s); [discriminate|].
  destruct a.
  - unfold main_step, recv, close, wg_wait in H. unpack H; simpl_state; settle O.
  - pose proof (inv_prodline cfg s I) as Ipl.
    unfold productionLine_step, close, wg_wait, wg_done, wg_add in H.
    unpack H; simpl_state; settle O.
    rewrite tally_fmap. cbn in Ipl. destruct Ipl as (Hnone & _).
    rewrite Hnone in O. cbn in *.
    rewrite (tally_none _ (make_producerTable cfg)) by reflexivity. lia.
  - unfold consumptionLine_step, close, wg_wait, wg_done, wg_add in H.
    unpack H; simpl_state; settle O.
  - pose proof (inv_pwg cfg s I) as Ipwg.
    unfold producer_step, producer_return, recv, send, ready, recv, wg_done, wg_add in H.
    unpack H; simpl_state; settle O.
    all: match goal with
         | Hl : producers _ !! _ = Some (_, PSelect _) |- _ =>
             pose proof (tally_lookup p_live _ _ _ Hl eq_refl)
         end.
    all: match goal with
         | Hb : (_ <? _) = true |- _ => apply Z.ltb_lt in Hb; cbn in Hb; lia
         end.
  - unfold consumer_step, consumer_return, consume, Since, recv, close, ready, recv,
      wg_done, wg_add, Now in H.
    unpack H; simpl_state; settle O.
  - unfold handoff_step in H. unpack H; simpl_state; settle O.
Qed.

Theorem run_once (schedule : list Action) :
  forall s s' : State,
    Inv cfg s -> Once cfg s -> run env cfg s schedule = Some s' -> Once cfg s'.
Proof.
  induction schedule as [|a rest IH]; intros s s' I O H; cbn in H.
  - injection H as <-. exact O.
  - destruct (exec env cfg s a) as [s1|] eqn:Hstep; [|discriminate].
    apply (IH s1 s'); [| |exact H].
    + exact (exec_inv env cfg s s1 a I Hstep).
    + exact (exec_once s s1 a I O Hstep).
Qed.

End Preservation.

(** In every run each job slot is used at most once: for every [i], the
    widgets produced from slot [i] and the times slot [i] was dropped
    number at most one together, and none when [i] is not one of
    [1..numWidgets].  Once [main] has returned, every slot of [1..numWidgets]
    was produced, dropped, or is still queued, exactly once. *)
Theorem each_slot_once (env : Env) (cfg : Config) (s0 s : State)
    (schedule : list Action) (i : Z) :
  WidgetProductionConsumptionLine_init cfg = Started s0 ->
  run env cfg s0 schedule = Some s ->
  0 <= tally (is_produced_slot i) (trace s) + tally (is_dropped_slot i) (trace s) <= 1 /\
  (i < 1 \/ numWidgets cfg < i ->
   tally (is_produced_slot i) (trace s) + tally (is_dropped_slot i) (trace s) = 0) /\
  (mainPC s = MReturned -> 1 <= i <= numWidgets cfg ->
   tally (fun j => j =? i) (buf (jobChannel s))
   + tally (is_produced_slot i) (trace s) + tally (is_dropped_slot i) (trace s) = 1).
Proof.
  intros H0 Hrun.
  destruct (SlotClaims.reachable_inv env cfg s0 s schedule H0 Hrun) as (I & _).
  pose proof (run_once env cfg schedule s0 s (init_inv cfg s0 H0) (init_once cfg s0 H0) Hrun i)
    as O.
  unfold slot_count in O.
  pose proof (tally_nonneg (fun j => j =? i) (buf (jobChannel s))).
  pose proof (tally_nonneg (p_holds_slot i) (producers s)).
  pose proof (tally_nonneg (is_produced_slot i) (trace s)).
  pose proof (tally_nonneg (is_dropped_slot i) (trace s)).
  assert (mainPC s = MReturned -> tally (p_holds_slot i) (producers s) = 0) as Hheld.
  { intros Hpc. destruct (SlotAccounts.returned_workers cfg s I Hpc) as (Hp & _).
    assert (tally (p_holds_slot i) (producers s) <= tally p_live (producers s)); [|lia].
    apply tally_mono. intros [? []]; cbn; congruence. }
  destruct (Z.leb_spec 1 i), (Z.leb_spec i (numWidgets cfg)); cbn in O;
    (split; [lia|split; [lia|]]); intros Hpc Hi; specialize (Hheld Hpc); lia.
Qed.

Lemma each_slot_once_witness :
  0 <= tally (is_produced_slot 1) (trace SlotAccounts.overtaken)
       + tally (is_dropped_slot 1) (trace SlotAccounts.overtaken) <= 1 /\
  (1 < 1 \/ numWidgets SlotClaims.overtaking < 1 ->
   tally (is_produced_slot 1) (trace SlotAccounts.overtaken)
   + tally (is_dropped_slot 1) (trace SlotAccounts.overtaken) = 0) /\
  (mainPC SlotAccounts.overtaken = MReturned -> 1 <= 1 <= numWidgets SlotClaims.overtaking ->
   tally (fun j => j =? 1) (buf (jobChannel SlotAccounts.overtaken))
   + tally (is_produced_slot 1) (trace SlotAccounts.overtaken)
   + tally (is_dropped_slot 1) (trace SlotAccounts.overtaken) = 1).
Proof.
  apply (each_slot_once SlotClaims.quiet SlotClaims.overtaking
           (start_state SlotClaims.overtaking) SlotAccounts.overtaken
           SlotClaims.overtaking_schedule 1).
  - vm_compute. reflexivity.
  - vm_compute. reflexivity.
Defined.


End SlotOnce.


(** ** The slot-based version: when the workers are told to stop *)

Module SlotStop.
Import Go SlotBased Tally SlotInv SlotSteps.

Definition is_stop_line (e : Event) : bool :=
  match e with Printed LExecutionStops => true | _ => false end.

(** How often [main] has printed "[execution stops]". *)
Definition stop_lines (s : State) : Z := tally is_stop_line (trace s).

Definition stop_printed (cfg : Config) (pc : MainPC) : bool :=
  match pc with
  | MCheck | MRecvBroken | MPrintStop => false
  | MCloseQuit => true
  | MWait | MReturned => numKth cfg >? 0
  end.

Definition Stop (cfg : Config) (s : State) : Prop :=
  stop_lines s = Z.b2z (stop_printed cfg (mainPC s)).

Lemma init_stop (cfg : Config) (s : State) :
  WidgetProductionConsumptionLine_init cfg = Started s -> Stop cfg s.
Proof.
  intros Hs.
  destruct (init_start_state cfg s Hs) as (-> & Hpos). reflexivity.
Qed.

Ltac unpack H :=
  repeat match type of H with
    | context [match ?x with _ => _ end] => destruct x eqn:?
    | context [if ?x then _ else _] => destruct x eqn:?
    end;
  try discriminate; try (injection H as <-);
  repeat match goal with
    | E : (if ?b then _ else _) = _ |- _ => destruct b eqn:?; try discriminate E
    | E : match ?x with _ => _ end = _ |- _ => destruct x eqn:?; try discriminate E
    | E : Some _ = Some _ |- _ => injection E as <-
    | E : RecvOk _ _ = RecvOk _ _ |- _ => injection E as <- <-
    | E : SendOk _ = SendOk _ |- _ => injection E as <-
    | E : (_, _) = (_, _) |- _ => injection E; clear E; intros; subst
    end.

Ltac simpl_state :=
  unfold panic, emit, set_producer, set_consumer; cbn;
  repeat (match goal with
          | H : ?l !! ?p = Some _ |- context [?l !! ?p] => rewrite H
          end; cbn).

Ltac settle O :=
  unfold Stop, stop_lines in *; cbn;
  repeat match goal with
    | H : mainPC ?s = _ |- _ => rewrite H in *
    end;
  cbn in *;
  repeat match goal with
    | H : context [?a >? ?b] |- _ => destruct (Z.gtb_spec a b)
    | |- context [?a >? ?b] => destruct (Z.gtb_spec a b)
    end;
  cbn in *; try lia; try discriminate.

Section Preservation.
Variable env : Env.
Variable cfg : Config.

Theorem exec_stop (s s' : State) (a : Action) :
  Inv cfg s -> Stop cfg s -> exec env cfg s a = Some s' -> Stop cfg s'.
Proof.
  intros I O H. unfold exec in H. destruct (over s); [discriminate|].
  destruct a.
  - pose proof (inv_main cfg s I) as Imain.
    unfold main_step, recv, close, wg_wait in H. unpack H; simpl_state; settle O.
  - unfold productionLine_step, close, wg_wait, wg_done, wg_add in H.
    unpack H; simpl_state; settle O.
  - unfold consumptionLine_step, close, wg_wait, wg_done, wg_add in H.
    unpack H; simpl_state; settle O.
  - unfold producer_step, producer_return, recv, send, ready, recv, wg_done, wg_add in H.
    unpack H; simpl_state; settle O.
  - unfold consumer_step, consumer_return, consume, Since, recv, close, ready, recv,
      wg_done, wg_add, Now in H.
    unpack H; simpl_state; settle O.
  - unfold handoff_step in H. unpack H; simpl_state; settle O.
Qed.

Theorem run_stop (schedule : list Action) :
  forall s s' : State,
    Inv cfg s -> Stop cfg s -> run env cfg s schedule = Some s' -> Stop cfg s'.
Proof.
  induction schedule as [|a rest IH]; intros s s' I O H; cbn in H.
  - injection H as <-. exact O.
  - destruct (exec env cfg s a) as [s1|] eqn:Hstep; [|discriminate].
    apply (IH s1 s'); [| |exact H].
    + exact (exec_inv env cfg s s1 a I Hstep).
    + exact (exec_stop s s1 a I O Hstep).
Qed.

End Preservation.

Lemma quit_closed_broken (cfg : Config) (s : State) :
  Inv cfg s -> closed (quitChannel s) = true -> closed (brokenWidgetChannel s) = true.
Proof.
  intros I Hq. pose proof (inv_main cfg s I) as Imain.
  destruct (mainPC s); cbn in Imain; intuition congruence.
Qed.

Lemma stop_line_broken (cfg : Config) (s : State) :
  Inv cfg s -> Stop cfg s -> 1 <= stop_lines s -> closed (brokenWidgetChannel s) = true.
Proof.
  intros I O Hline. pose proof (inv_main cfg s I) as Imain. unfold Stop in O.
  rewrite O in Hline.
  destruct (mainPC s); cbn in Imain, Hline; try lia; try tauto.
  - destruct (Z.gtb_spec (numKth cfg) 0); cbn in Hline; [|lia].
    destruct Imain as (Hb & Hq). exact (Hb (Hq ltac:(lia))).
  - destruct (Z.gtb_spec (numKth cfg) 0); cbn in Hline; [|lia].
    destruct Imain as (Hb & Hq & _). exact (Hb (Hq ltac:(lia))).
Qed.

(** The workers are told to stop only when a broken widget was found.  In
    every run, if the quit channel or the done channel is closed, a slot
    was dropped, a widget was discarded, or "[execution stops]" was
    printed, then exactly one report found a broken widget and [numKth] is
    one of the slots [1..numWidgets].  The line is printed at most once;
    when [main] has returned it was printed exactly if [numKth > 0]. *)
Theorem no_spurious_stop (env : Env) (cfg : Config) (s0 s : State)
    (schedule : list Action) :
  WidgetProductionConsumptionLine_init cfg = Started s0 ->
  run env cfg s0 schedule = Some s ->
  (closed (quitChannel s) = true \/ closed (doneChannel s) = true \/
   1 <= units_dropped s \/ 1 <= units_discarded s \/ 1 <= stop_lines s ->
   broken_reports s = 1 /\ 1 <= numKth cfg <= numWidgets cfg) /\
  0 <= stop_lines s <= 1 /\
  (mainPC s = MReturned -> stop_lines s = Z.b2z (numKth cfg >? 0)).
Proof.
  intros H0 Hrun.
  destruct (SlotClaims.reachable_inv env cfg s0 s schedule H0 Hrun) as (I & _).
  pose proof (run_stop env cfg schedule s0 s (init_inv cfg s0 H0) (init_stop cfg s0 H0) Hrun)
    as O.
  unfold Stop in O. split; [|split].
  - intros Hany.
    assert (closed (brokenWidgetChannel s) = true \/ closed (doneChannel s) = true)
      as Hsignal.
    { destruct Hany as [Hq|[Hd|[Hdrop|[Hdisc|Hline]]]].
      - left. exact (quit_closed_broken cfg s I Hq).
      - right. exact Hd.
      - left. apply (quit_closed_broken cfg s I).
        destruct (closed (quitChannel s)) eqn:Hq; [reflexivity|].
        pose proof (inv_no_drop cfg s I Hq). lia.
      - right. destruct (closed (doneChannel s)) eqn:Hd; [reflexivity|].
        pose proof (inv_no_discard cfg s I Hd). lia.
      - left. exact (stop_line_broken cfg s I O Hline). }
    assert (1 <= signal_raised s) as Hraised.
    { open_inv I. nonnegs. b2z_bounds.
      destruct Hsignal as [Hb|Hd]; [rewrite Hb in Iraised|rewrite Hd in Idone];
        cbn in *; lia. }
    open_inv I. nonnegs. b2z_bounds.
    destruct (Z.leb_spec 1 (numKth cfg)), (Z.leb_spec (numKth cfg) (numWidgets cfg));
      cbn in Ik; split; lia.
  - rewrite O. destruct (stop_printed cfg (mainPC s)); cbn; lia.
  - intros Hpc. rewrite O, Hpc. reflexivity.
Qed.

Lemma no_spurious_stop_witness :
  (closed (quitChannel SlotAccounts.overtaken) = true \/
   closed (doneChannel SlotAccounts.overtaken) = true \/
   1 <= units_dropped SlotAccounts.overtaken \/
   1 <= units_discarded SlotAccounts.overtaken \/
   1 <= stop_lines SlotAccounts.overtaken ->
   broken_reports SlotAccounts.overtaken = 1 /\
   1 <= numKth SlotClaims.overtaking <= numWidgets SlotClaims.overtaking) /\
  0 <= stop_lines SlotAccounts.overtaken <= 1 /\
  (mainPC SlotAccounts.overtaken = MReturned ->
   stop_lines SlotAccounts.overtaken = Z.b2z (numKth SlotClaims.overtaking >? 0)).
Proof.
  apply (no_spurious_stop SlotClaims.quiet SlotClaims.overtaking
           (start_state SlotClaims.overtaking) SlotAccounts.overtaken
           SlotClaims.overtaking_schedule).
  - vm_compute. reflexivity.
  - vm_compute. reflexivity.
Defined.


End SlotStop.


(** ** The counter-based version: the quit tokens *)

Module CounterQuit.
Import Go CounterBased Tally CounterInv CounterSteps CounterEnds.

Definition is_stop_fragment (f : Fragment) : bool :=
  match f with FExecutionStops => true | _ => false end.

(** The manager is past its [fmt.Println("[execution stops]")]. *)
Definition printed (pc : ManagerPC) : bool :=
  match pc with
  | MgrCloseProd | MgrCloseCons | MgrCloseBroken | MgrCloseWidget | MgrWgWait
  | MgrReturned => true
  | _ => false
  end.

Definition workers (s : State) : Z :=
  Z.of_nat (length (producers s)) + Z.of_nat (length (consumers s)).

Definition live (s : State) : Z :=
  tally p_live (producers s) + tally c_live (consumers s).

(** The quit tokens the manager has sent. *)
Definition sent_tokens (s : State) : Z :=
  match managerPC s with
  | MgrQuit i => i
  | pc => if stopped pc then workers s else 0
  end.

Record Quit (s : State) : Prop := mkQuit {
  quit_line : tally is_stop_fragment (stdout s) = Z.b2z (printed (managerPC s));
  quit_cap : cap (quitChannel s) = workers s /\ closed (quitChannel s) = false;
  quit_index : match managerPC s with MgrQuit i => 0 <= i <= workers s | _ => True end;
  quit_tokens :
    Z.of_nat (length (buf (quitChannel s))) + (workers s - live s) = sent_tokens s
}.

Lemma init_quit (args : Config) : Quit (widgetProductionLine_init args).
Proof.
  constructor; unfold workers, live, sent_tokens; cbn; try reflexivity.
  - rewrite !length_fmap. split; reflexivity.
  - rewrite !length_fmap.
    rewrite !(tally_fmap _ (fun x => (x, PSelect))), !(tally_fmap _ (fun x => (x, CSelect))).
    cbn. rewrite !tally_all by reflexivity. lia.
Qed.

Ltac open_quit Q := destruct Q as [Qline (Qcap & Qopen) Qindex Qtokens].

Ltac worker_bounds :=
  repeat match goal with
    | |- context [tally ?f ?l] =>
        lazymatch goal with
        | _ : tally f l <= Z.of_nat (length l) |- _ => fail
        | _ => pose proof (tally_le_length f l); pose proof (tally_nonneg f l)
        end
    | H : context [tally ?f ?l] |- _ =>
        lazymatch goal with
        | _ : tally f l <= Z.of_nat (length l) |- _ => fail
        | _ => pose proof (tally_le_length f l); pose proof (tally_nonneg f l)
        end
    end.

Ltac settle :=
  repeat match goal with
    | |- context [if ?b then _ else _] => destruct b eqn:?
    end;
  constructor; unfold workers, live, sent_tokens in *; cbn in *;
  repeat match goal with
    | Heq : managerPC ?s = _ |- _ => rewrite Heq in *; clear Heq
    end;
  cbn in *; unfold workers in *; cbn in *;
  repeat match goal with
    | Hl : ?l !! ?j = Some _ |- context [tally _ (<[?j := _]> ?l)] =>
        rewrite !(tally_insert _ _ _ _ _ Hl)
    end;
  rewrite ?length_insert, ?tally_app, ?length_app; cbn;
  repeat match goal with
    | H : buf ?c = _ |- _ => rewrite H in *
    | H : closed ?c = _ |- context [closed ?c] => rewrite H
    end;
  cbn in *;
  repeat match goal with
    | H : (_ <? _) = true |- _ => apply Z.ltb_lt in H
    | H : (_ <? _) = false |- _ => apply Z.ltb_ge in H
    end;
  worker_bounds;
  try solve [ discriminate | congruence | lia | tauto
            | repeat split; first [assumption | reflexivity | congruence | lia] ].

Section Preservation.
Variable env : Env.
Variable args : Config.

Theorem exec_quit (s s' : State) (a : Action) :
  Quit s -> exec env args s a = Some s' -> Quit s'.
Proof.
  intros Q H. unfold exec in H. destruct (over s); [discriminate|].
  open_quit Q. destruct a.
  - unfold init_step, send, wg_add, wg_done, wg_add in H.
    unpack H; simpl_state; settle.
  - unfold manager_step, recv, close, wg_wait, send in H.
    unpack H; simpl_state; settle.
  - unfold producer_step, send in H. unpack H; simpl_state; settle.
  - unfold consumer_step, Since, Now, send in H. unpack H; simpl_state; settle.
  - unfold producer_quits, recv in H. unpack H; simpl_state; settle.
  - unfold consumer_quits, recv in H. unpack H; simpl_state; settle.
  - unfold flag_from_init in H. unpack H; simpl_state; settle.
  - unfold flag_from_manager in H. unpack H; simpl_state; settle.
  - unfold flag_from_closed in H. unpack H; simpl_state; settle.
  - unfold count_production in H. unpack H; simpl_state; settle.
  - unfold widget_to in H. unpack H; simpl_state; settle.
  - unfold widget_from_closed in H. unpack H; simpl_state; settle.
  - unfold count_consumption in H. unpack H; simpl_state; settle.
Qed.

Lemma run_quit (schedule : list Action) (s s' : State) :
  Quit s -> run env args s schedule = Some s' -> Quit s'.
Proof.
  revert s. induction schedule as [|a rest IH]; intros s Q H; cbn in H.
  - congruence.
  - destruct (exec env args s a) as [s1|] eqn:Hstep; [|discriminate].
    exact (IH s1 (exec_quit s s1 a Q Hstep) H).
Qed.

End Preservation.

Lemma reachable_quit (env : Env) (flags : Config) (schedule : list Action) (s : State) :
  Comparison.counter_run env flags schedule = Some s -> Quit s.
Proof.
  intros Hrun.
  exact (run_quit env (main_args flags) schedule _ s (init_quit (main_args flags)) Hrun).
Qed.

(** The quit tokens of [src/main.go].  In every run, for any flags: as long
    as the manager is in its loop the quit channel is empty and no worker has
    returned; while the manager sends its tokens it never blocks and never
    panics (the channel has room for one token per worker); and once it has
    sent them, the tokens left in the channel are as many as the workers
    that have not returned.  So a worker returns only by taking a token that
    the manager sent, and each worker has one. *)
Theorem quit_token_per_worker (env : Env) (flags : Config) (schedule : list Action)
    (s : State) :
  Comparison.counter_run env flags schedule = Some s ->
  (stopped (managerPC s) = false ->
   buf (quitChannel s) = [] /\ live s = workers s) /\
  (forall i, managerPC s = MgrQuit i -> fault s = None ->
     exists s', exec env (main_args flags) s RunManager = Some s' /\ fault s' = None) /\
  (printed (managerPC s) = true ->
   Z.of_nat (length (buf (quitChannel s))) = live s).
Proof.
  intros Hrun. pose proof (reachable_quit env flags schedule s Hrun) as Q.
  open_quit Q. unfold sent_tokens, workers, live in *.
  pose proof (tally_le_length p_live (producers s)).
  pose proof (tally_le_length c_live (consumers s)).
  split; [|split].
  - intros Hloop. destruct (managerPC s); cbn in *; try discriminate.
    all: split; [|lia].
    all: destruct (buf (quitChannel s)); [reflexivity|cbn in *; lia].
  - intros i Hpc Hfault. rewrite Hpc in *.
    unfold exec, over, manager_step. rewrite Hfault, Hpc.
    destruct (_ <? _) eqn:Hlt.
    + apply Z.ltb_lt in Hlt. unfold send. rewrite Qopen.
      destruct (Z.of_nat (length (buf (quitChannel s))) <? cap (quitChannel s)) eqn:Hroom.
      * eexists. split; [reflexivity|]. cbn. exact Hfault.
      * apply Z.ltb_ge in Hroom. lia.
    + eexists. split; [reflexivity|]. cbn. exact Hfault.
  - intros Hpast. destruct (managerPC s); cbn in *; try discriminate; lia.
Qed.

Lemma quit_token_per_worker_witness :
  (stopped (managerPC (Comparison.counter_end Comparison.single closing_schedule)) = false ->
   buf (quitChannel (Comparison.counter_end Comparison.single closing_schedule)) = [] /\
   live (Comparison.counter_end Comparison.single closing_schedule)
   = workers (Comparison.counter_end Comparison.single closing_schedule)) /\
  (forall i,
     managerPC (Comparison.counter_end Comparison.single closing_schedule) = MgrQuit i ->
     fault (Comparison.counter_end Comparison.single closing_schedule) = None ->
     exists s', exec SlotClaims.quiet (main_args Comparison.single)
                  (Comparison.counter_end Comparison.single closing_schedule) RunManager
                = Some s' /\ fault s' = None) /\
  (printed (managerPC (Comparison.counter_end Comparison.single closing_schedule)) = true ->
   Z.of_nat (length (buf (quitChannel
               (Comparison.counter_end Comparison.single closing_schedule))))
   = live (Comparison.counter_end Comparison.single closing_schedule)).
Proof.
  apply (quit_token_per_worker SlotClaims.quiet Comparison.single closing_schedule).
  vm_compute. reflexivity.
Defined.

(** The line [[execution stops]] of [src/main.go].  In every run, for any
    flags, the manager prints it exactly once, when it has sent the quit
    tokens, and nothing else prints it: it is absent while the manager is in
    its loop and present once in the output of a run that returns, with or
    without a defect (the slot-based version prints its stop line only for a
    defect). *)
Theorem stop_fragment_once (env : Env) (flags : Config) (schedule : list Action)
    (s : State) :
  Comparison.counter_run env flags schedule = Some s ->
  tally is_stop_fragment (stdout s) = Z.b2z (printed (managerPC s)) /\
  (stopped (managerPC s) = false -> tally is_stop_fragment (stdout s) = 0) /\
  (managerPC s = MgrReturned -> tally is_stop_fragment (stdout s) = 1).
Proof.
  intros Hrun. pose proof (reachable_quit env flags schedule s Hrun) as Q.
  open_quit Q. split; [exact Qline|]. rewrite Qline. split.
  - intros Hloop. destruct (managerPC s); cbn in *; congruence.
  - intros Hpc. rewrite Hpc. reflexivity.
Qed.

Lemma stop_fragment_once_witness :
  tally is_stop_fragment
    (stdout (Comparison.counter_end SlotClaims.overtaking Comparison.counter_schedule))
  = Z.b2z (printed (managerPC
             (Comparison.counter_end SlotClaims.overtaking Comparison.counter_schedule))) /\
  (stopped (managerPC
     (Comparison.counter_end SlotClaims.overtaking Comparison.counter_schedule)) = false ->
   tally is_stop_fragment
     (stdout (Comparison.counter_end SlotClaims.overtaking Comparison.counter_schedule))
   = 0) /\
  (managerPC (Comparison.counter_end SlotClaims.overtaking Comparison.counter_schedule)
   = MgrReturned ->
   tally is_stop_fragment
     (stdout (Comparison.counter_end SlotClaims.overtaking Comparison.counter_schedule))
   = 1).
Proof.
  apply (stop_fragment_once SlotClaims.quiet SlotClaims.overtaking
           Comparison.counter_schedule).
  vm_compute. reflexivity.
Defined.

End CounterQuit.

